(** * Lab 3: serialization of a cyclic friendship graph

    A shallow embedding of the three serializers of the repository
    (lab3_oop_encapsulated.py, lab3_oop_direct_access.py,
    lab3_functional.py) and the properties of their collector
    (depth-first traversal with a visited set) and of their two-phase
    builder.

    Python objects are mutable and compared by identity: a [Person] lives
    at an address of a heap, and a friends list holds addresses.  The
    text layer (json.dumps / json.loads and the UTF-8 step) is the
    standard library's: the embedding stops at the JSON value, a list of
    flat records.  The interpreter's recursion limit is not modelled. *)

From stdpp Require Import base option list gmap sets strings relations.

#[local] Set Warnings "-clear-no-such-hyp".

(** ** Outcomes of Python code *)

Abbreviation addr := nat (only parsing).

(** [InvalidReference] is not a Python exception: a Python reference always
    points to a live object, whereas the heap of the model is a partial map;
    reading an address that holds no object raises it. *)
Inductive exn :=
  | KeyError (k : string)
  | ValueError (s : string)
  | TypeError
  | IndexError
  | InvalidReference (a : addr).

(** A run either returns, raises, or exhausts the recursion fuel that stands
    for an unbounded call stack. *)
Inductive outcome (A : Type) :=
  | Done (a : A)
  | Raise (e : exn)
  | OutOfFuel.
Arguments Done {A} a.
Arguments Raise {A} e.
Arguments OutOfFuel {A}.

#[global] Instance outcome_ret : MRet outcome := λ A, Done.
#[global] Instance outcome_bind : MBind outcome := λ A B f m,
  match m with
  | Done a => f a
  | Raise e => Raise e
  | OutOfFuel => OutOfFuel
  end.
#[global] Instance outcome_fmap : FMap outcome := λ A B f m,
  match m with
  | Done a => Done (f a)
  | Raise e => Raise e
  | OutOfFuel => OutOfFuel
  end.

(** [for x in l: body(x)] over a state [s]. *)
Fixpoint for_each {A S} (body : A → S → outcome S) (l : list A) (s : S)
    : outcome S :=
  match l with
  | [] => Done s
  | x :: l' => s' ← body x s; for_each body l' s'
  end.

(** [[f(x) for x in l]]: the first exception aborts the comprehension. *)
Fixpoint comprehension {A B} (f : A → outcome B) (l : list A)
    : outcome (list B) :=
  match l with
  | [] => Done []
  | x :: l' => y ← f x; ys ← comprehension f l'; Done (y :: ys)
  end.

(** [d[k]] on a dict with string keys. *)
Definition getitem {V} (d : gmap string V) (k : string) : outcome V :=
  match d !! k with
  | Some v => Done v
  | None => Raise (KeyError k)
  end.

(** ** Timestamps

    [datetime.isoformat] and [datetime.fromisoformat] belong to the standard
    library; they are taken as an interface. *)
Class DateTimeText := {
  datetime : Type;
  isoformat : datetime → string;
  fromisoformat : string → option datetime
}.

(** The standard library's guarantee that the text form is reversible. *)
Definition iso_reversible `{DateTimeText} : Prop :=
  ∀ d : datetime, fromisoformat (isoformat d) = Some d.

Definition parse_datetime `{DateTimeText} (s : string) : outcome datetime :=
  match fromisoformat s with
  | Some d => Done d
  | None => Raise (ValueError s)
  end.

(** ** Flat records: the dict with keys 'id', 'name', 'born_in', 'friends' *)
Record FlatRecord := mkFlat {
  fr_id : string;
  fr_name : string;
  fr_born_in : string;
  fr_friends : list string
}.

(** ** The Person objects of the two object-oriented variants

    [Person] and [PersonDirectAccess] declare the same four fields and the
    same [add_friend]. *)
Section objects.
Context `{DateTimeText}.

Record Person := mkPerson {
  _name : string;
  _friends : list addr;
  _born_in : datetime;
  _id : string
}.

Definition deref (h : list Person) (a : addr) : outcome Person :=
  match h !! a with
  | Some p => Done p
  | None => Raise (InvalidReference a)
  end.

(** [Person(name, born_in)]; [uid] is the value drawn by [uuid.uuid4()]. *)
Definition Person_init (h : list Person) (name : string) (born_in : datetime)
    (uid : string) : list Person * addr :=
  (h ++ [mkPerson name [] born_in uid], length h).

(** [self._friends.append(friend)] *)
Definition friends_append (p : Person) (friend : addr) : Person :=
  mkPerson (_name p) (_friends p ++ [friend]) (_born_in p) (_id p).

(** [person._friends = fs] *)
Definition set_friends (p : Person) (fs : list addr) : Person :=
  mkPerson (_name p) fs (_born_in p) (_id p).

(** [add_friend]; [x in list] on objects without [__eq__] is identity. *)
Fixpoint add_friend_rec (fuel : nat) (h : list Person)
    (self friend : addr) : outcome (list Person) :=
  match fuel with
  | 0 => OutOfFuel
  | S fuel' =>
      s ← deref h self;
      if decide (friend ∈ _friends s) then Done h
      else
        let h1 := <[self := friends_append s friend]> h in
        f ← deref h1 friend;
        if decide (self ∈ _friends f) then Done h1
        else add_friend_rec fuel' h1 friend self
  end.

(** The recursion never goes deeper than the reciprocal call. *)
Definition add_friend (h : list Person) (self friend : addr)
    : outcome (list Person) :=
  add_friend_rec 2 h self friend.
End objects.

(** The heap: the live [Person] objects, by address. *)
Abbreviation heap := (list Person) (only parsing).

(** ** lab3_oop_encapsulated.py *)
Module Encapsulated.
Section defs.
Context `{DateTimeText}.

Definition get_name (h : heap) (self : addr) : outcome string :=
  _name <$> deref h self.

Definition get_birth_date (h : heap) (self : addr) : outcome datetime :=
  _born_in <$> deref h self.

(** [self._friends.copy()]: the caller receives the elements, never the
    list object of the person (see [Aliasing] below for the list objects
    themselves). *)
Definition get_friends (h : heap) (self : addr) : outcome (list addr) :=
  _friends <$> deref h self.

Definition get_id (h : heap) (self : addr) : outcome string :=
  _id <$> deref h self.

Definition to_dict (h : heap) (self : addr) : outcome FlatRecord :=
  s ← deref h self;
  friends ← comprehension (λ friend, _id <$> deref h friend) (_friends s);
  Done (mkFlat (_id s) (_name s) (isoformat (_born_in s)) friends).

Definition from_dict (data : FlatRecord) : outcome Person :=
  born_in ← parse_datetime (fr_born_in data);
  Done (mkPerson (fr_name data) [] born_in (fr_id data)).

(** The closure [collect_objects] of [PersonSerializer.serialize]; its
    two captured variables [visited_ids] and [objects_to_save] are the
    threaded state.  [visited_ids.add(p.get_id())] reads the id a second
    time; it is the id that was tested. *)
Fixpoint collect_objects (fuel : nat) (h : heap) (p : addr)
    (st : gset string * list FlatRecord)
    : outcome (gset string * list FlatRecord) :=
  match fuel with
  | 0 => OutOfFuel
  | S fuel' =>
      i ← get_id h p;
      if decide (i ∈ st.1) then Done st
      else
        d ← to_dict h p;
        friends ← get_friends h p;
        for_each (collect_objects fuel' h) friends
                 ({[i]} ∪ st.1, st.2 ++ [d])
  end.

Definition serialize (fuel : nat) (h : heap) (person : addr)
    : outcome (list FlatRecord) :=
  st ← collect_objects fuel h person (∅, []);
  Done st.2.

(** Phase 1, one iteration: [obj_cache[obj_data['id']] = from_dict(obj_data)]. *)
Definition create_object (obj_data : FlatRecord)
    (st : heap * gmap string addr) : outcome (heap * gmap string addr) :=
  obj ← from_dict obj_data;
  Done (st.1 ++ [obj], <[fr_id obj_data := length st.1]> st.2).

(** Phase 2, one iteration. *)
Definition link_object (obj_cache : gmap string addr)
    (obj_data : FlatRecord) (h : heap) : outcome heap :=
  person ← getitem obj_cache (fr_id obj_data);
  friends ← comprehension (getitem obj_cache) (fr_friends obj_data);
  p ← deref h person;
  Done (<[person := set_friends p friends]> h).

(** The reconstructed objects live in a heap of their own. *)
Definition deserialize (objects_data : list FlatRecord)
    : outcome (heap * addr) :=
  st ← for_each create_object objects_data ([], ∅);
  h ← for_each (link_object st.2) objects_data st.1;
  match objects_data with
  | [] => Raise IndexError
  | first :: _ =>
      root ← getitem st.2 (fr_id first);
      Done (h, root)
  end.
End defs.
End Encapsulated.

(** ** List objects

    The heap above keeps a friends list inside its person: no two persons
    share a list, and no caller holds one.  Whether [get_friends] keeps it
    that way is a question about list objects, so here a list is an object
    of its own: [_friends] is a reference into a store of lists, and a
    mutation changes the list at a reference, for whoever holds it. *)
Module Aliasing.
Section defs.
Context `{DateTimeText}.

Record PersonObj := mkPersonObj {
  o_name : string;
  o_friends : addr;
  o_born_in : datetime;
  o_id : string
}.

Record store := mkStore {
  persons : list PersonObj;
  lists : list (list addr)
}.

Definition person_at (s : store) (a : addr) : outcome PersonObj :=
  match persons s !! a with
  | Some o => Done o
  | None => Raise (InvalidReference a)
  end.

Definition list_at (s : store) (l : addr) : outcome (list addr) :=
  match lists s !! l with
  | Some xs => Done xs
  | None => Raise (InvalidReference l)
  end.

(** [Person(name, born_in)] allocates the empty list and the person. *)
Definition Person_init (s : store) (name : string) (born_in : datetime)
    (uid : string) : store * addr :=
  (mkStore (persons s ++ [mkPersonObj name (length (lists s)) born_in uid])
           (lists s ++ [[]]),
   length (persons s)).

(** An in-place change of the list object at [l]: [append], [remove],
    [insert], [pop], [clear], [sort], item and slice assignment all replace
    the contents of that one object. *)
Definition list_mutate (s : store) (l : addr)
    (f : list addr → list addr) : store :=
  mkStore (persons s) (alter f l (lists s)).

Definition list_append (s : store) (l : addr) (x : addr) : store :=
  list_mutate s l (λ xs, xs ++ [x]).

Fixpoint remove_first (x : addr) (xs : list addr) : list addr :=
  match xs with
  | [] => []
  | y :: ys => if decide (x = y) then ys else y :: remove_first x ys
  end.

(** [l.remove(x)] deletes the first occurrence or raises. *)
Definition list_remove (s : store) (l : addr) (x : addr) : outcome store :=
  xs ← list_at s l;
  if decide (x ∈ xs) then Done (list_mutate s l (remove_first x))
  else Raise (ValueError "list.remove(x): x not in list").

(** A caller's successive in-place changes of the list object at [l]. *)
Definition list_mutations (s : store) (l : addr)
    (fs : list (list addr → list addr)) : store :=
  foldl (λ s f, list_mutate s l f) s fs.

(** [add_friend], with [self._friends.append(friend)] as a change of the
    list object that [self._friends] refers to. *)
Fixpoint add_friend_rec (fuel : nat) (s : store) (self friend : addr)
    : outcome store :=
  match fuel with
  | 0 => OutOfFuel
  | S fuel' =>
      o ← person_at s self;
      xs ← list_at s (o_friends o);
      if decide (friend ∈ xs) then Done s
      else
        let s1 := list_append s (o_friends o) friend in
        f ← person_at s1 friend;
        ys ← list_at s1 (o_friends f);
        if decide (self ∈ ys) then Done s1
        else add_friend_rec fuel' s1 friend self
  end.

(** [self._friends.copy()]: a new list object with the same elements. *)
Definition get_friends (s : store) (self : addr) : outcome (store * addr) :=
  o ← person_at s self;
  xs ← list_at s (o_friends o);
  Done (mkStore (persons s) (lists s ++ [xs]), length (lists s)).

(** Reading the field itself, as the direct-access variant does, hands out
    the list object of the person. *)
Definition friends_field (s : store) (self : addr) : outcome addr :=
  o_friends <$> person_at s self.

Definition get_id (s : store) (self : addr) : outcome string :=
  o_id <$> person_at s self.

Definition to_dict (s : store) (self : addr) : outcome FlatRecord :=
  o ← person_at s self;
  xs ← list_at s (o_friends o);
  friends ← comprehension (λ friend, o_id <$> person_at s friend) xs;
  Done (mkFlat (o_id o) (o_name o) (isoformat (o_born_in o)) friends).

(** [collect_objects] of [PersonSerializer.serialize]; every call of
    [get_friends] leaves its copy in the store. *)
Fixpoint collect_objects (fuel : nat) (p : addr)
    (st : store * gset string * list FlatRecord)
    : outcome (store * gset string * list FlatRecord) :=
  match fuel with
  | 0 => OutOfFuel
  | S fuel' =>
      let '(s, visited_ids, objects_to_save) := st in
      i ← get_id s p;
      if decide (i ∈ visited_ids) then Done st
      else
        d ← to_dict s p;
        r ← get_friends s p;
        friends ← list_at r.1 r.2;
        for_each (collect_objects fuel') friends
                 (r.1, {[i]} ∪ visited_ids, objects_to_save ++ [d])
  end.

Definition serialize (fuel : nat) (s : store) (person : addr)
    : outcome (list FlatRecord) :=
  st ← collect_objects fuel person (s, ∅, []);
  Done st.2.

(** Every person refers to a list object of the store. *)
Definition store_ok (s : store) : Prop :=
  ∀ o, o ∈ persons s → o_friends o < length (lists s).

(** No two persons refer to the same list object. *)
Definition unshared (s : store) : Prop :=
  ∀ a b oa ob, persons s !! a = Some oa → persons s !! b = Some ob →
               o_friends oa = o_friends ob → a = b.

(** The heap that a store stands for: each person with the elements of its
    list. *)
Definition snapshot (s : store) : list Person :=
  (λ o, mkPerson (o_name o) (default [] (lists s !! o_friends o))
                 (o_born_in o) (o_id o)) <$> persons s.
End defs.
End Aliasing.

(** ** lab3_oop_direct_access.py *)
Module DirectAccess.
Section defs.
Context `{DateTimeText}.

Definition PersonDirectAccess := Person.

(** [PersonDirectAccess.add_friend] is the text of [Person.add_friend]. *)
Definition add_friend (h : heap) (self friend : addr) : outcome heap :=
  add_friend_rec 2 h self friend.

Fixpoint collect_objects (fuel : nat) (h : heap) (p : addr)
    (st : gset string * list FlatRecord)
    : outcome (gset string * list FlatRecord) :=
  match fuel with
  | 0 => OutOfFuel
  | S fuel' =>
      o ← deref h p;
      if decide (_id o ∈ st.1) then Done st
      else
        friends ← comprehension (λ friend, _id <$> deref h friend)
                                (_friends o);
        let obj_data :=
          mkFlat (_id o) (_name o) (isoformat (_born_in o)) friends in
        for_each (collect_objects fuel' h) (_friends o)
                 ({[_id o]} ∪ st.1, st.2 ++ [obj_data])
  end.

Definition serialize (fuel : nat) (h : heap) (person : addr)
    : outcome (list FlatRecord) :=
  st ← collect_objects fuel h person (∅, []);
  Done st.2.

Definition create_object (obj_data : FlatRecord)
    (st : heap * gmap string addr) : outcome (heap * gmap string addr) :=
  born_in ← parse_datetime (fr_born_in obj_data);
  let obj := mkPerson (fr_name obj_data) [] born_in (fr_id obj_data) in
  Done (st.1 ++ [obj], <[_id obj := length st.1]> st.2).

Definition link_object (obj_cache : gmap string addr)
    (obj_data : FlatRecord) (h : heap) : outcome heap :=
  obj ← getitem obj_cache (fr_id obj_data);
  friends ← comprehension (getitem obj_cache) (fr_friends obj_data);
  p ← deref h obj;
  Done (<[obj := set_friends p friends]> h).

Definition deserialize (objects_data : list FlatRecord)
    : outcome (heap * addr) :=
  st ← for_each create_object objects_data ([], ∅);
  h ← for_each (link_object st.2) objects_data st.1;
  match objects_data with
  | [] => Raise IndexError
  | first :: _ =>
      root ← getitem st.2 (fr_id first);
      Done (h, root)
  end.
End defs.
End DirectAccess.

(** ** lab3_functional.py *)

(** A Python dict iterates in insertion order, and assigning to a key that is
    present keeps the key's position: [persons_dict.values()] depends on it. *)
Abbreviation pydict V := (list (string * V)) (only parsing).

Fixpoint pydict_get {V} (d : pydict V) (k : string) : option V :=
  match d with
  | [] => None
  | (k', v) :: d' => if decide (k = k') then Some v else pydict_get d' k
  end.

Fixpoint pydict_set {V} (d : pydict V) (k : string) (v : V) : pydict V :=
  match d with
  | [] => [(k, v)]
  | (k', v') :: d' =>
      if decide (k = k') then (k', v) :: d' else (k', v') :: pydict_set d' k v
  end.

Definition pydict_values {V} (d : pydict V) : list V := d.*2.

Definition pydict_getitem {V} (d : pydict V) (k : string) : outcome V :=
  match pydict_get d k with
  | Some v => Done v
  | None => Raise (KeyError k)
  end.

(** An element of a 'friends' list: an id, or (after phase 2 of
    [deserialize_functional]) a reference to a person dict. *)
Inductive pyval :=
  | PyStr (s : string)
  | PyRef (a : addr).

#[global] Instance pyval_eq_dec : EqDecision pyval.
Proof. solve_decision. Defined.

#[global] Instance PyStr_inj : Inj (=) (=) PyStr.
Proof. by intros s1 s2 [= ->]. Qed.

(** The top-level container of the functional variant. *)
Record Container := mkContainer {
  root_id : string;
  objects : list FlatRecord
}.

Module Functional.
Section defs.
Context `{DateTimeText}.

(** The dict with keys 'id', 'name', 'born_in', 'friends'. *)
Record PersonData := mkData {
  pd_id : string;
  pd_name : string;
  pd_born_in : datetime;
  pd_friends : list pyval
}.

Definition pderef (h : list PersonData) (a : addr) : outcome PersonData :=
  match h !! a with
  | Some p => Done p
  | None => Raise (InvalidReference a)
  end.

(** [uid] is the value drawn by [uuid.uuid4()]. *)
Definition create_person_data (uid : string) (name : string)
    (born_in : datetime) : PersonData :=
  mkData uid name born_in [].

Definition create_person_with_friends (uid : string) (name : string)
    (born_in : datetime) : PersonData :=
  create_person_data uid name born_in.

(** [person['friends'].append(v)] *)
Definition pd_append (p : PersonData) (v : pyval) : PersonData :=
  mkData (pd_id p) (pd_name p) (pd_born_in p) (pd_friends p ++ [v]).

(** [add_friend(person1, person2, persons_dict)]; the two arguments may be
    the same dict object. *)
Definition add_friend (h : list PersonData) (person1 person2 : addr)
    (persons_dict : pydict addr) : outcome (list PersonData) :=
  p1 ← pderef h person1;
  p2 ← pderef h person2;
  if decide (PyStr (pd_id p2) ∈ pd_friends p1) then Done h
  else
    let h1 := <[person1 := pd_append p1 (PyStr (pd_id p2))]> h in
    p2' ← pderef h1 person2;
    p1' ← pderef h1 person1;
    Done (<[person2 := pd_append p2' (PyStr (pd_id p1'))]> h1).

(** [obj_copy]: the shallow copy of a person dict with 'born_in' as text. *)
Record ObjCopy := mkCopy {
  oc_id : string;
  oc_name : string;
  oc_born_in : string;
  oc_friends : list pyval
}.

(** The closure [collect_objects] of [serialize_functional]; a dict is
    unhashable, so a reference cannot be looked up in [visited_ids]. *)
Fixpoint collect_objects (fuel : nat) (h : list PersonData)
    (persons_dict : pydict addr) (person_id : pyval)
    (st : gset string * list ObjCopy) : outcome (gset string * list ObjCopy) :=
  match fuel with
  | 0 => OutOfFuel
  | S fuel' =>
      match person_id with
      | PyRef _ => Raise TypeError
      | PyStr i =>
          if decide (i ∈ st.1) then Done st
          else
            r ← pydict_getitem persons_dict i;
            person ← pderef h r;
            let obj_copy :=
              mkCopy (pd_id person) (pd_name person)
                     (isoformat (pd_born_in person)) (pd_friends person) in
            for_each (collect_objects fuel' h persons_dict)
                     (pd_friends person)
                     ({[i]} ∪ st.1, st.2 ++ [obj_copy])
      end
  end.

(** What [json.dumps] makes of one [obj_copy]: a friends entry that is
    not a string is refused. *)
Definition dump_object (c : ObjCopy) : outcome FlatRecord :=
  friends ← comprehension
    (λ v, match v with PyStr s => Done s | PyRef _ => Raise TypeError end)
    (oc_friends c);
  Done (mkFlat (oc_id c) (oc_name c) (oc_born_in c) friends).

Definition serialize_functional (fuel : nat) (h : list PersonData)
    (root_person : addr)
    (persons_dict : pydict addr) : outcome Container :=
  root ← pderef h root_person;
  st ← collect_objects fuel h persons_dict (PyStr (pd_id root)) (∅, []);
  objs ← comprehension dump_object st.2;
  Done (mkContainer (pd_id root) objs).

(** Phase 1, one iteration; [factory] returns a fresh dict. *)
Definition create_object (factory : string → datetime → PersonData)
    (obj_data : FlatRecord) (st : list PersonData * pydict addr)
    : outcome (list PersonData * pydict addr) :=
  born_in ← parse_datetime (fr_born_in obj_data);
  let person := factory (fr_name obj_data) born_in in
  let person :=
    mkData (fr_id obj_data) (pd_name person) (pd_born_in person)
           (PyStr <$> fr_friends obj_data) in
  Done (st.1 ++ [person], pydict_set st.2 (pd_id person) (length st.1)).

(** Phase 2, one iteration over [persons_dict.values()]. *)
Definition link_object (persons_dict : pydict addr) (person : addr)
    (h : list PersonData) : outcome (list PersonData) :=
  p ← pderef h person;
  friend_objects ← comprehension
    (λ v, match v with
          | PyStr friend_id => pydict_getitem persons_dict friend_id
          | PyRef _ => Raise TypeError
          end)
    (pd_friends p);
  Done (<[person :=
           mkData (pd_id p) (pd_name p) (pd_born_in p)
                  (PyRef <$> friend_objects)]> h).

Definition deserialize_functional
    (factory : string → datetime → PersonData) (parsed : Container)
    : outcome (list PersonData * addr * pydict addr) :=
  st ← for_each (create_object factory) (objects parsed) ([], []);
  h ← for_each (link_object st.2) (pydict_values st.2) st.1;
  root ← pydict_getitem st.2 (root_id parsed);
  Done (h, root, st.2).
End defs.

(** The heap of person dicts, by address. *)
Abbreviation pheap := (list PersonData) (only parsing).
End Functional.

(** ** The collector, once for the three variants

    The three closures [collect_objects] are instances of one walk: turn the
    list element into a node ([node_of]), read its key, return if the key was
    visited, otherwise mark it, append the record of the node ([emit]) and
    walk its successor list ([next]) in order. *)
Section walk.
Context {V N K R : Type} `{Countable K}.
Variable node_of : V → outcome N.
Variable key : N → outcome K.
Variable emit : N → outcome R.
Variable next : N → outcome (list V).

Fixpoint walk (fuel : nat) (v : V) (st : gset K * list R)
    : outcome (gset K * list R) :=
  match fuel with
  | 0 => OutOfFuel
  | S fuel' =>
      n ← node_of v;
      k ← key n;
      if decide (k ∈ st.1) then Done st
      else
        r ← emit n;
        vs ← next n;
        for_each (walk fuel') vs ({[k]} ∪ st.1, st.2 ++ [r])
  end.

(** The conditions under which the walk is a traversal of the graph
    [succs] on the finite node set [U]: on a node of [U] the four
    operations return, the successor list read by [next] denotes the nodes
    [succs] gives, all in [U]; and two nodes of [U] have different keys. *)
Context `{Countable N}.
Variable succs : N → option (list N).
Variable U : gset N.

Definition denotes (vs : list V) (ns : list N) : Prop :=
  Forall2 (λ v n, node_of v = Done n) vs ns.

Definition emitted (ns : list N) (rs : list R) : Prop :=
  Forall2 (λ n r, emit n = Done r) ns rs.

Definition keyed (ns : list N) (ks : list K) : Prop :=
  Forall2 (λ n k, key n = Done k) ns ks.

Definition walk_graph_ok : Prop :=
  ∀ n, n ∈ U →
    ∃ k r vs ns, key n = Done k ∧ emit n = Done r ∧ next n = Done vs ∧
                 succs n = Some ns ∧ denotes vs ns ∧ ∀ m, m ∈ ns → m ∈ U.

Definition keys_injective : Prop :=
  ∀ n m k, n ∈ U → m ∈ U → key n = Done k → key m = Done k → n = m.

(** The visited keys are the keys of the seen nodes. *)
Definition visited_agrees (seen : gset N) (visited : gset K) : Prop :=
  ∀ n k, n ∈ U → key n = Done k → (k ∈ visited ↔ n ∈ seen).
End walk.

(** ** Graphs, invariants and the order of a depth-first walk *)

Section traversal.
Context {N : Type} `{Countable N}.

(** [succs a] is the ordered successor list of [a], when [a] is a node. *)
Variable succs : N → option (list N).

Definition edge (a b : N) : Prop := ∃ fs, succs a = Some fs ∧ b ∈ fs.

Definition reaches : N → N → Prop := rtc edge.

(** First-visit order of a depth-first pre-order walk, in work-list form:
    [preorder seen todo out] takes the first node of [todo]; a node seen
    before is dropped, a new node is emitted and its successors are put, in
    their order, in front of the remaining work. *)
Inductive preorder : gset N → list N → list N → Prop :=
  | preorder_nil seen :
      preorder seen [] []
  | preorder_seen seen a todo out :
      a ∈ seen → preorder seen todo out → preorder seen (a :: todo) out
  | preorder_new seen a fs todo out :
      a ∉ seen → succs a = Some fs →
      preorder ({[a]} ∪ seen) (fs ++ todo) out →
      preorder seen (a :: todo) (a :: out).
End traversal.

Section heap_invariants.
Context `{DateTimeText}.

Definition friends_of (h : heap) (a : addr) : option (list addr) :=
  _friends <$> h !! a.

(** [b] is in the friends list of [a]. *)
Definition is_friend (h : heap) (a b : addr) : Prop :=
  ∃ p, h !! a = Some p ∧ b ∈ _friends p.

Definition reachable (h : heap) : addr → addr → Prop :=
  reaches (friends_of h).

(** The live addresses. *)
Definition live (h : heap) : gset addr := list_to_set (seq 0 (length h)).

(** Every reference in a friends list points to a live object. *)
Definition heap_closed (h : heap) : Prop :=
  ∀ a p f, h !! a = Some p → f ∈ _friends p → f < length h.

(** [uuid.uuid4()] never draws the same value twice. *)
Definition ids_unique (h : heap) : Prop :=
  ∀ a b p q, h !! a = Some p → h !! b = Some q → _id p = _id q → a = b.

Definition friends_symmetric (h : heap) : Prop :=
  ∀ a b, is_friend h a b ↔ is_friend h b a.

(** The heaps a program can reach with the constructor and [add_friend]. *)
Inductive built : heap → Prop :=
  | built_empty : built []
  | built_init h name born_in uid :
      built h → (∀ p, p ∈ h → _id p ≠ uid) →
      built (Person_init h name born_in uid).1
  | built_add_friend h a b h' :
      built h → add_friend h a b = Done h' → built h'.

(** The ids in the friends list of a person, in list order. *)
Definition friend_ids (h : heap) (p : Person) : list string :=
  omap (λ f, _id <$> h !! f) (_friends p).

(** The flat projection of the object at [a]. *)
Definition flat_of (h : heap) (a : addr) : option FlatRecord :=
  p ← h !! a;
  Some (mkFlat (_id p) (_name p) (isoformat (_born_in p)) (friend_ids h p)).
End heap_invariants.

Section functional_invariants.
Context `{DateTimeText}.
Import Functional.

Definition as_id (v : pyval) : option string :=
  match v with PyStr s => Some s | PyRef _ => None end.

(** The person registered under an id. *)
Definition person_of (h : pheap) (d : pydict addr) (i : string)
    : option PersonData :=
  r ← pydict_get d i; h !! r.

Definition friend_ids_of (h : pheap) (d : pydict addr) (i : string)
    : option (list string) :=
  p ← person_of h d i; mapM as_id (pd_friends p).

Definition id_reachable (h : pheap) (d : pydict addr)
    : string → string → Prop :=
  reaches (friend_ids_of h d).

(** [persons_dict] files every person under its own id, and every
    friends list holds ids that are filed. *)
Definition registry_ok (h : pheap) (d : pydict addr) : Prop :=
  ∀ i r, pydict_get d i = Some r →
    ∃ p, h !! r = Some p ∧ pd_id p = i ∧
         ∀ v, v ∈ pd_friends p →
           ∃ j, v = PyStr j ∧ is_Some (pydict_get d j).

(** The ids under which a person is filed. *)
Definition registered (d : pydict addr) : gset string := list_to_set d.*1.

(** The flat projection of the person filed under an id. *)
Definition pflat_of (h : pheap) (d : pydict addr) (i : string)
    : option FlatRecord :=
  p ← person_of h d i;
  ids ← mapM as_id (pd_friends p);
  Some (mkFlat (pd_id p) (pd_name p) (isoformat (pd_born_in p)) ids).

(** The three operations of the walk of [serialize_functional]. *)
Definition hashable (v : pyval) : outcome string :=
  match v with
  | PyStr i => Done i
  | PyRef _ => Raise TypeError
  end.

Definition copy_of (h : pheap) (d : pydict addr) (i : string)
    : outcome ObjCopy :=
  r ← pydict_getitem d i;
  person ← pderef h r;
  Done (mkCopy (pd_id person) (pd_name person)
               (isoformat (pd_born_in person)) (pd_friends person)).

Definition friends_entry (h : pheap) (d : pydict addr) (i : string)
    : outcome (list pyval) :=
  r ← pydict_getitem d i;
  person ← pderef h r;
  Done (pd_friends person).

(** The states a program reaches with [create_person_data] followed by the
    registration [all_persons[p['id']] = p], and with [add_friend]. *)
Inductive fbuilt : pheap → pydict addr → Prop :=
  | fbuilt_empty : fbuilt [] []
  | fbuilt_create h d uid name born_in :
      fbuilt h d → pydict_get d uid = None →
      fbuilt (h ++ [create_person_data uid name born_in])
             (pydict_set d uid (length h))
  | fbuilt_add_friend h d a b h' :
      fbuilt h d → Functional.add_friend h a b d = Done h' → fbuilt h' d.

(** Every person dict is filed under its own id. *)
Definition all_filed (h : pheap) (d : pydict addr) : Prop :=
  ∀ a p, h !! a = Some p → pydict_get d (pd_id p) = Some a.

Definition has_friend (h : pheap) (a b : addr) : Prop :=
  ∃ p q, h !! a = Some p ∧ h !! b = Some q ∧ PyStr (pd_id q) ∈ pd_friends p.

Definition pfriends_symmetric (h : pheap) : Prop :=
  ∀ a b, has_friend h a b ↔ has_friend h b a.
End functional_invariants.

(** ** The timestamps of the test suite, as an instance of the interface *)
Inductive test_datetime :=
  | born_1990_05_15
  | born_1992_08_22
  | born_1988_03_10.

Definition test_isoformat (d : test_datetime) : string :=
  match d with
  | born_1990_05_15 => "1990-05-15T00:00:00"
  | born_1992_08_22 => "1992-08-22T00:00:00"
  | born_1988_03_10 => "1988-03-10T00:00:00"
  end.

Definition test_fromisoformat (s : string) : option test_datetime :=
  if decide (s = "1990-05-15T00:00:00") then Some born_1990_05_15
  else if decide (s = "1992-08-22T00:00:00") then Some born_1992_08_22
  else if decide (s = "1988-03-10T00:00:00") then Some born_1988_03_10
  else None.

Definition test_dates : DateTimeText :=
  {| datetime := test_datetime;
     isoformat := test_isoformat;
     fromisoformat := test_fromisoformat |}.

(** ** Containers *)

Section containers.
Context `{DateTimeText}.

Definition record_ids (objs : list FlatRecord) : list string :=
  fr_id <$> objs.

(** Every 'born_in' text is a timestamp. *)
Definition timestamps_ok (objs : list FlatRecord) : Prop :=
  ∀ r, r ∈ objs → is_Some (fromisoformat (fr_born_in r)).

(** No friend id is dangling. *)
Definition references_ok (objs : list FlatRecord) : Prop :=
  ∀ r j, r ∈ objs → j ∈ fr_friends r → j ∈ record_ids objs.

(** [n] is the position of the last record with id [i]. *)
Definition last_index_of (i : string) (objs : list FlatRecord) (n : nat)
    : Prop :=
  (∃ r, objs !! n = Some r ∧ fr_id r = i) ∧
  ∀ m r, objs !! m = Some r → fr_id r = i → m ≤ n.

(** The object that [from_dict] makes of a record. *)
Definition bare (r : FlatRecord) (d : datetime) : Person :=
  mkPerson (fr_name r) [] d (fr_id r).

(** The object [p] carries the id, name and timestamp of the record [r]. *)
Definition carries (p : Person) (r : FlatRecord) : Prop :=
  _id p = fr_id r ∧ _name p = fr_name r ∧
  fromisoformat (fr_born_in r) = Some (_born_in p).

(** The friends of [p] are the objects filed under the ids [js], in order. *)
Definition linked (c : gmap string addr) (p : Person) (js : list string)
    : Prop :=
  Forall2 (λ f j, c !! j = Some f) (_friends p) js.

(** What phase 1 leaves: one bare object per record, at the position of the
    record, and in the cache each id at the position of its last record. *)
Definition created (objs : list FlatRecord) (h : heap)
    (c : gmap string addr) : Prop :=
  length h = length objs ∧
  (∀ n r, objs !! n = Some r →
     ∃ d, fromisoformat (fr_born_in r) = Some d ∧ h !! n = Some (bare r d)) ∧
  (∀ i, i ∉ record_ids objs → c !! i = None) ∧
  (∀ i, i ∈ record_ids objs → ∃ n, c !! i = Some n ∧ last_index_of i objs n).

Definition same_fields (p q : Person) : Prop :=
  _id p = _id q ∧ _name p = _name q ∧ _born_in p = _born_in q.

(** What phase 2 makes of the heap [h1] after the records [rs]: an object
    that is the target of a record has the friends of the last such record,
    the other objects are as before. *)
Definition relinked (c : gmap string addr) (rs : list FlatRecord)
    (h1 h : heap) : Prop :=
  length h = length h1 ∧
  ∀ a p1, h1 !! a = Some p1 →
    ∃ p, h !! a = Some p ∧ same_fields p p1 ∧
      ((∃ k r, rs !! k = Some r ∧ c !! fr_id r = Some a ∧
               (∀ m r', rs !! m = Some r' → c !! fr_id r' = Some a → m ≤ k) ∧
               linked c p (fr_friends r))
       ∨ ((∀ r, r ∈ rs → c !! fr_id r ≠ Some a) ∧ _friends p = _friends p1)).

(** The result of the builder: the mapping [c] files each id at the
    position of its last record, and the object there carries the fields of
    that record and is linked to the objects filed under its friend ids. *)
Definition rebuilt (objs : list FlatRecord) (h : heap)
    (c : gmap string addr) : Prop :=
  length h = length objs ∧
  (∀ i, i ∉ record_ids objs → c !! i = None) ∧
  ∀ i, i ∈ record_ids objs →
    ∃ n r p, c !! i = Some n ∧ last_index_of i objs n ∧
             objs !! n = Some r ∧ h !! n = Some p ∧
             carries p r ∧ linked c p (fr_friends r).

(** What the mapping [c] shows of the object filed under the id [i]: its
    id, name, timestamp and the ids of its friends, in order. *)
Definition view (h : heap) (c : gmap string addr) (i : string)
    : option (string * string * datetime * list string) :=
  a ← c !! i;
  p ← h !! a;
  Some (_id p, _name p, _born_in p, friend_ids h p).

(** Some friend id of some record is not a record id. *)
Definition dangling (objs : list FlatRecord) : Prop :=
  ∃ r j, r ∈ objs ∧ j ∈ fr_friends r ∧ j ∉ record_ids objs.

(** The record that [persons_dict] holds for its id when phase 1 of
    [deserialize_functional] is over: the last record with that id, an
    earlier one being overwritten.  Phase 2 walks [persons_dict.values()],
    so these are the records it links. *)
Definition kept (objs : list FlatRecord) (r : FlatRecord) : Prop :=
  ∃ n, objs !! n = Some r ∧ last_index_of (fr_id r) objs n.

(** Some friend id of some kept record is not a record id. *)
Definition dangling_kept (objs : list FlatRecord) : Prop :=
  ∃ r j, kept objs r ∧ j ∈ fr_friends r ∧ j ∉ record_ids objs.

(** The object at [a'] of [h'] is the object at [a] of [h] again: same id,
    name and timestamp, and friends with the same ids in the same order. *)
Definition restores (h : heap) (a : addr) (h' : heap) (a' : addr) : Prop :=
  ∃ p p', h !! a = Some p ∧ h' !! a' = Some p' ∧ same_fields p' p ∧
          friend_ids h' p' = friend_ids h p.

(** The first id of [js] that is not a key of [c]. *)
Definition first_missing {V} (c : gmap string V) (js : list string)
    : option string :=
  snd <$> list_find (λ j, c !! j = None) js.
End containers.

Section functional_containers.
Context `{DateTimeText}.
Import Functional.
Variable factory : string → datetime → PersonData.

(** The callback stores the name and the timestamp it is given. *)
Definition factory_keeps : Prop :=
  ∀ name t, pd_name (factory name t) = name ∧
            pd_born_in (factory name t) = t.

(** The dict that phase 1 makes of a record. *)
Definition fbare (r : FlatRecord) (t : datetime) : PersonData :=
  mkData (fr_id r) (pd_name (factory (fr_name r) t))
         (pd_born_in (factory (fr_name r) t)) (PyStr <$> fr_friends r).

Definition fcreated (objs : list FlatRecord) (h : pheap) (d : pydict addr)
    : Prop :=
  length h = length objs ∧
  (∀ n r, objs !! n = Some r →
     ∃ t, fromisoformat (fr_born_in r) = Some t ∧ h !! n = Some (fbare r t)) ∧
  NoDup d.*1 ∧
  (∀ i, i ∉ record_ids objs → pydict_get d i = None) ∧
  (∀ i, i ∈ record_ids objs →
     ∃ n, pydict_get d i = Some n ∧ last_index_of i objs n).

Definition fcarries (p : PersonData) (r : FlatRecord) : Prop :=
  ∃ t, fromisoformat (fr_born_in r) = Some t ∧ pd_id p = fr_id r ∧
       pd_name p = pd_name (factory (fr_name r) t) ∧
       pd_born_in p = pd_born_in (factory (fr_name r) t).

(** The 'friends' entry of [p] holds references to the dicts filed under
    the ids [js], in order. *)
Definition flinked (d : pydict addr) (p : PersonData) (js : list string)
    : Prop :=
  ∃ fs, pd_friends p = PyRef <$> fs ∧
        Forall2 (λ f j, pydict_get d j = Some f) fs js.

Definition frebuilt (objs : list FlatRecord) (h : pheap) (d : pydict addr)
    : Prop :=
  length h = length objs ∧
  (∀ i, i ∉ record_ids objs → pydict_get d i = None) ∧
  ∀ i, i ∈ record_ids objs →
    ∃ n r p, pydict_get d i = Some n ∧ last_index_of i objs n ∧
             objs !! n = Some r ∧ h !! n = Some p ∧
             fcarries p r ∧ flinked d p (fr_friends r).

(** The ids of the dicts that a linked 'friends' entry refers to. *)
Definition ffriend_ids (h : pheap) (p : PersonData) : list string :=
  omap (λ v, match v with
             | PyRef f => pd_id <$> h !! f
             | PyStr _ => None
             end) (pd_friends p).

Definition fview (h : pheap) (d : pydict addr) (i : string)
    : option (string * string * datetime * list string) :=
  a ← pydict_get d i;
  p ← h !! a;
  Some (pd_id p, pd_name p, pd_born_in p, ffriend_ids h p).

(** The dict at [a'] of [h'] is the person filed under [i] in [d] again:
    same id, name and timestamp, and references to dicts with the ids that
    the person lists, in the same order. *)
Definition frestores (h : pheap) (d : pydict addr) (i : string)
    (h' : pheap) (a' : addr) : Prop :=
  ∃ q q', person_of h d i = Some q ∧ h' !! a' = Some q' ∧
          pd_id q' = pd_id q ∧ pd_name q' = pd_name q ∧
          pd_born_in q' = pd_born_in q ∧
          PyStr <$> ffriend_ids h' q' = pd_friends q.
End functional_containers.

(** ** The state of the collector, and one program in the two styles *)

(** The visited ids are the ids of the records collected so far, and no id
    is collected twice. *)
Definition collected (st : gset string * list FlatRecord) : Prop :=
  (∀ i, i ∈ st.1 ↔ i ∈ record_ids st.2) ∧ NoDup (record_ids st.2).

Section lockstep.
Context `{DateTimeText}.

(** The person dict that stands for an object: the same id, name and
    timestamp, and the ids of the friends in the order of the friends. *)
Definition as_data (h : heap) (p : Person) : Functional.PersonData :=
  Functional.mkData (_id p) (_name p) (_born_in p)
                    (PyStr <$> friend_ids h p).

(** One program in the two styles: each person is created with the same
    name, timestamp and id on both sides and registered under its id; each
    [add_friend] joins the same two distinct persons on both sides. *)
Inductive lockstep
    : heap → Functional.pheap → pydict addr → Prop :=
  | lockstep_empty : lockstep [] [] []
  | lockstep_create h ph d name born_in uid :
      lockstep h ph d → (∀ p, p ∈ h → _id p ≠ uid) →
      lockstep (Person_init h name born_in uid).1
               (ph ++ [Functional.create_person_data uid name born_in])
               (pydict_set d uid (length ph))
  | lockstep_add_friend h ph d a b h' ph' :
      lockstep h ph d → a ≠ b →
      add_friend h a b = Done h' →
      Functional.add_friend ph a b d = Done ph' →
      lockstep h' ph' d.
End lockstep.

(** ** The graphs of the test suite *)

(** One person, and two persons that are not friends yet. *)
Definition ivan_alone : list (@Person test_dates) :=
  (Person_init (H:=test_dates) [] "Ivan" born_1990_05_15 "id-ivan").1.

Definition ivan_maria : list (@Person test_dates) :=
  (Person_init (H:=test_dates) ivan_alone "Maria" born_1992_08_22
               "id-maria").1.

Definition ivan_alone_data : list (@Functional.PersonData test_dates) :=
  [Functional.create_person_data (H:=test_dates)
     "id-ivan" "Ivan" born_1990_05_15].

Definition ivan_maria_data : list (@Functional.PersonData test_dates) :=
  ivan_alone_data ++
  [Functional.create_person_data (H:=test_dates)
     "id-maria" "Maria" born_1992_08_22].

(** Three persons without friends. *)
Definition three_persons : list (@Person test_dates) :=
  [@mkPerson test_dates "Ivan" [] born_1990_05_15 "id-ivan";
   @mkPerson test_dates "Maria" [] born_1992_08_22 "id-maria";
   @mkPerson test_dates "Alexey" [] born_1988_03_10 "id-alexey"].

(** [p1.add_friend(p2); p2.add_friend(p3); p3.add_friend(p1)] *)
Definition triangle : list (@Person test_dates) :=
  [@mkPerson test_dates "Ivan" [1; 2] born_1990_05_15 "id-ivan";
   @mkPerson test_dates "Maria" [0; 2] born_1992_08_22 "id-maria";
   @mkPerson test_dates "Alexey" [1; 0] born_1988_03_10 "id-alexey"].

(** [p1.add_friend(p2)]: a cycle of length two. *)
Definition mutual_pair : list (@Person test_dates) :=
  [@mkPerson test_dates "Ivan" [1] born_1990_05_15 "id-ivan";
   @mkPerson test_dates "Maria" [0] born_1992_08_22 "id-maria"].

(** The same triangle in the functional variant, with its registry. *)
Definition triangle_data : list (@Functional.PersonData test_dates) :=
  [@Functional.mkData test_dates "id-ivan" "Ivan" born_1990_05_15
     [PyStr "id-maria"; PyStr "id-alexey"];
   @Functional.mkData test_dates "id-maria" "Maria" born_1992_08_22
     [PyStr "id-ivan"; PyStr "id-alexey"];
   @Functional.mkData test_dates "id-alexey" "Alexey" born_1988_03_10
     [PyStr "id-maria"; PyStr "id-ivan"]].

Definition all_persons : list (string * nat) :=
  [("id-ivan", 0); ("id-maria", 1); ("id-alexey", 2)].

(** The serialization of the triangle from Ivan, and the same container
    with the record of Alexey cut off. *)
Definition ivan_record : FlatRecord :=
  mkFlat "id-ivan" "Ivan" "1990-05-15T00:00:00" ["id-maria"; "id-alexey"].

Definition maria_record : FlatRecord :=
  mkFlat "id-maria" "Maria" "1992-08-22T00:00:00" ["id-ivan"; "id-alexey"].

Definition alexey_record : FlatRecord :=
  mkFlat "id-alexey" "Alexey" "1988-03-10T00:00:00" ["id-maria"; "id-ivan"].

Definition triangle_records : list FlatRecord :=
  [ivan_record; maria_record; alexey_record].

Definition truncated_records : list FlatRecord :=
  [ivan_record; maria_record].

(** Two records with the id of Ivan; the first one refers to an id that no
    record has. *)
Definition clashing_records : list FlatRecord :=
  [mkFlat "id-ivan" "Ivan" "1990-05-15T00:00:00" ["id-ghost"];
   mkFlat "id-ivan" "Maria" "1992-08-22T00:00:00" []].

(** The same two records in the other order: the one that refers to an id
    that no record has comes last. *)
Definition ghost_kept_records : list FlatRecord :=
  [mkFlat "id-ivan" "Maria" "1992-08-22T00:00:00" [];
   mkFlat "id-ivan" "Ivan" "1990-05-15T00:00:00" ["id-ghost"]].

(** Ivan lists Maria, Maria lists nobody. *)
Definition one_way_records : list FlatRecord :=
  [mkFlat "id-ivan" "Ivan" "1990-05-15T00:00:00" ["id-maria"];
   mkFlat "id-maria" "Maria" "1992-08-22T00:00:00" []].

(** Two records with the id of Ivan and no friends. *)
Definition duplicate_records : list FlatRecord :=
  [mkFlat "id-ivan" "Ivan" "1990-05-15T00:00:00" [];
   mkFlat "id-ivan" "Maria" "1992-08-22T00:00:00" []].

(** A record whose 'born_in' is no timestamp and whose friend is missing. *)
Definition undated_records : list FlatRecord :=
  [mkFlat "id-ivan" "Ivan" "15 May 1990" ["id-ghost"]].

Definition test_factory : string → test_datetime →
    @Functional.PersonData test_dates :=
  Functional.create_person_with_friends (H:=test_dates) "fresh-uuid".

(** Ivan and Maria, friends, with their two list objects. *)
Definition pair_store : @Aliasing.store test_dates :=
  Aliasing.mkStore
    [@Aliasing.mkPersonObj test_dates "Ivan" 0 born_1990_05_15 "id-ivan";
     @Aliasing.mkPersonObj test_dates "Maria" 1 born_1992_08_22 "id-maria"]
    [[1]; [0]].

(** A record with the given id occurs at exactly one position. *)
Definition occurs_once (i : string) (objs : list FlatRecord) : Prop :=
  ∃ n, (∃ r, objs !! n = Some r ∧ fr_id r = i) ∧
       ∀ m r, objs !! m = Some r → fr_id r = i → m = n.

(** * Properties *)

(** ** [add_friend] *)

Section add_friend_facts.
Context `{DateTimeText}.

Lemma deref_Some (h : heap) a p : h !! a = Some p → deref h a = Done p.
Proof. unfold deref. by intros ->. Qed.

Lemma deref_None (h : heap) a :
  h !! a = None → deref h a = Raise (InvalidReference a).
Proof. unfold deref. by intros ->. Qed.

(** With fuel for the call and its reciprocal call, [add_friend] is the
    following straight-line code. *)
Lemma add_friend_rec_unfold n (h : heap) a b s :
  h !! a = Some s →
  add_friend_rec (S (S n)) h a b =
    if decide (b ∈ _friends s) then Done h
    else
      let h1 := <[a := friends_append s b]> h in
      match h1 !! b with
      | None => Raise (InvalidReference b)
      | Some f =>
          if decide (a ∈ _friends f) then Done h1
          else Done (<[b := friends_append f a]> h1)
      end.
Proof.
  intros Ha. cbn [add_friend_rec]. rewrite (deref_Some _ _ _ Ha). cbn.
  destruct (decide (b ∈ _friends s)) as [|Hb]; [done|].
  assert (Hlt : a < length h) by (by eapply lookup_lt_Some).
  destruct (<[a:=friends_append s b]> h !! b) as [f|] eqn:Hf.
  - rewrite (deref_Some _ _ _ Hf). cbn.
    destruct (decide (a ∈ _friends f)) as [|Hn]; [done|].
    destruct (decide (a = b)) as [->|Hab].
    { rewrite list_lookup_insert_eq in Hf by done.
      injection Hf as <-. cbn in Hn. set_solver. }
    assert (Ha1 : <[b:=friends_append f a]> (<[a:=friends_append s b]> h) !! a
                  = Some (friends_append s b)).
    { rewrite list_lookup_insert_ne by done.
      by rewrite list_lookup_insert_eq. }
    rewrite (deref_Some _ _ _ Ha1). cbn.
    rewrite decide_True; [done|]. set_solver.
  - by rewrite (deref_None _ _ Hf).
Qed.

Lemma add_friend_rec_fuel n (h : heap) a b :
  2 ≤ n → add_friend_rec n h a b = add_friend h a b.
Proof.
  intros Hn. destruct n as [|[|n]]; [lia..|]. unfold add_friend.
  destruct (h !! a) as [s|] eqn:Ha.
  - by rewrite !(add_friend_rec_unfold _ _ _ _ _ Ha).
  - cbn. by rewrite (deref_None _ _ Ha).
Qed.

Lemma add_friend_unfold (h : heap) a b s :
  h !! a = Some s →
  add_friend h a b =
    if decide (b ∈ _friends s) then Done h
    else
      let h1 := <[a := friends_append s b]> h in
      match h1 !! b with
      | None => Raise (InvalidReference b)
      | Some f =>
          if decide (a ∈ _friends f) then Done h1
          else Done (<[b := friends_append f a]> h1)
      end.
Proof. apply add_friend_rec_unfold. Qed.

(** [add_friend] on two distinct live objects. *)
Lemma add_friend_distinct (h : heap) a b s f :
  a ≠ b → h !! a = Some s → h !! b = Some f →
  add_friend h a b =
    if decide (b ∈ _friends s) then Done h
    else if decide (a ∈ _friends f)
         then Done (<[a := friends_append s b]> h)
         else Done (<[b := friends_append f a]>
                      (<[a := friends_append s b]> h)).
Proof.
  intros Hab Ha Hb. rewrite (add_friend_unfold _ _ _ _ Ha).
  case_decide; [done|]. cbn.
  by rewrite list_lookup_insert_ne, Hb by done.
Qed.

(** [add_friend] of an object with itself. *)
Lemma add_friend_self (h : heap) a s :
  h !! a = Some s →
  add_friend h a a =
    if decide (a ∈ _friends s) then Done h
    else Done (<[a := friends_append s a]> h).
Proof.
  intros Ha. rewrite (add_friend_unfold _ _ _ _ Ha).
  case_decide as Hin; [done|]. cbn.
  rewrite list_lookup_insert_eq by (by eapply lookup_lt_Some).
  rewrite decide_True; [done|]. cbn. set_solver.
Qed.
End add_friend_facts.

Section add_friend_invariants.
Context `{DateTimeText}.

(** The four ways in which [add_friend] returns. *)
Lemma add_friend_Done (h h' : heap) a b :
  add_friend h a b = Done h' →
  ∃ s, h !! a = Some s ∧
    (((b ∈ _friends s) ∧ h' = h) ∨
     ((b ∉ _friends s) ∧ a = b ∧ h' = <[a := friends_append s a]> h) ∨
     (∃ f, a ≠ b ∧ h !! b = Some f ∧ (b ∉ _friends s) ∧
        (((a ∈ _friends f) ∧ h' = <[a := friends_append s b]> h) ∨
         ((a ∉ _friends f) ∧
          h' = <[b := friends_append f a]>
                 (<[a := friends_append s b]> h))))).
Proof.
  intros Hadd. destruct (h !! a) as [s|] eqn:Ha.
  2: { unfold add_friend in Hadd. cbn in Hadd.
       by rewrite (deref_None _ _ Ha) in Hadd. }
  exists s. split; [done|].
  destruct (decide (a = b)) as [<-|Hab].
  - rewrite (add_friend_self _ _ _ Ha) in Hadd.
    case_decide; injection Hadd as <-; auto.
  - destruct (h !! b) as [f|] eqn:Hb.
    + rewrite (add_friend_distinct _ _ _ _ _ Hab Ha Hb) in Hadd.
      repeat case_decide; injection Hadd as <-; eauto 10.
    + rewrite (add_friend_unfold _ _ _ _ Ha) in Hadd.
      case_decide; [injection Hadd as <-; auto|].
      cbn in Hadd. by rewrite list_lookup_insert_ne, Hb in Hadd.
Qed.

Lemma is_friend_insert_append (h : heap) a b s x y :
  h !! a = Some s →
  is_friend (<[a := friends_append s b]> h) x y ↔
  is_friend h x y ∨ (x = a ∧ y = b).
Proof.
  intros Ha. assert (a < length h) by (by eapply lookup_lt_Some).
  unfold is_friend. destruct (decide (x = a)) as [->|Hx].
  - rewrite list_lookup_insert_eq by done. split.
    + intros (p & [= <-] & Hy). cbn in Hy.
      apply elem_of_app in Hy as [Hy|Hy%list_elem_of_singleton]; eauto.
    + intros [(p & Hp & Hy)|[_ ->]]; eexists; (split; [done|]); cbn;
        simplify_eq; set_solver.
  - rewrite list_lookup_insert_ne by done. naive_solver.
Qed.

(** On a symmetric heap, [add_friend a b] adds the two directed edges
    between [a] and [b] and nothing else. *)
Lemma add_friend_is_friend (h h' : heap) a b :
  friends_symmetric h → add_friend h a b = Done h' →
  ∀ x y, is_friend h' x y ↔
         is_friend h x y ∨ (x = a ∧ y = b) ∨ (x = b ∧ y = a).
Proof.
  intros Hsym (s & Ha & Hcases)%add_friend_Done x y.
  destruct Hcases as [[Hb ->]|[(Hb & <- & ->)|(f & Hab & Hf & Hb & Hc)]].
  - assert (is_friend h a b) by (by exists s).
    assert (is_friend h b a) by (by apply Hsym). naive_solver.
  - rewrite is_friend_insert_append by done. naive_solver.
  - destruct Hc as [[Hin ->]|[Hin ->]].
    + exfalso. apply Hb.
      assert (Hba : is_friend h b a) by (by exists f).
      apply Hsym in Hba as (s' & ? & ?). by simplify_eq.
    + rewrite is_friend_insert_append
        by (by rewrite list_lookup_insert_ne).
      rewrite is_friend_insert_append by done. naive_solver.
Qed.

Lemma add_friend_symmetric (h h' : heap) a b :
  friends_symmetric h → add_friend h a b = Done h' → friends_symmetric h'.
Proof.
  intros Hsym Hadd x y.
  rewrite !(add_friend_is_friend _ _ _ _ Hsym Hadd).
  specialize (Hsym x y). naive_solver.
Qed.

Lemma add_friend_length (h h' : heap) a b :
  add_friend h a b = Done h' → length h' = length h.
Proof.
  intros (s & Ha & Hcases)%add_friend_Done.
  destruct Hcases as [[Hb ->]|[(Hb & <- & ->)|(f & Hab & Hf & Hb & Hc)]];
    [done|by rewrite length_insert|].
  destruct Hc as [[Hin ->]|[Hin ->]]; by rewrite !length_insert.
Qed.

(** [add_friend] writes friends lists only. *)
Lemma lookup_insert_append_fields (h : heap) a b s c p' :
  h !! a = Some s → <[a := friends_append s b]> h !! c = Some p' →
  ∃ p, h !! c = Some p ∧ _id p' = _id p ∧ _name p' = _name p ∧
       _born_in p' = _born_in p ∧
       (∀ x, x ∈ _friends p' → x ∈ _friends p ∨ x = b).
Proof.
  intros Ha. assert (a < length h) by (by eapply lookup_lt_Some).
  destruct (decide (c = a)) as [->|Hc].
  - rewrite list_lookup_insert_eq by done. intros [= <-].
    exists s. cbn. set_solver.
  - rewrite list_lookup_insert_ne by done. intros Hp. exists p'.
    split_and!; auto.
Qed.

Lemma add_friend_fields (h h' : heap) a b c p' :
  add_friend h a b = Done h' → h' !! c = Some p' →
  ∃ p, h !! c = Some p ∧ _id p' = _id p ∧ _name p' = _name p ∧
       _born_in p' = _born_in p ∧
       (∀ x, x ∈ _friends p' → x ∈ _friends p ∨ x = a ∨ x = b).
Proof.
  intros (s & Ha & Hcases)%add_friend_Done Hc.
  destruct Hcases as [[Hb ->]|[(Hb & <- & ->)|(f & Hab & Hf & Hb & Hd)]].
  - exists p'. split_and!; auto.
  - destruct (lookup_insert_append_fields _ _ _ _ _ _ Ha Hc)
      as (p & ? & ? & ? & ? & Hfr). exists p. naive_solver.
  - destruct Hd as [[Hin ->]|[Hin ->]].
    + destruct (lookup_insert_append_fields _ _ _ _ _ _ Ha Hc)
        as (p & ? & ? & ? & ? & Hfr). exists p. naive_solver.
    + assert (Hf' : <[a:=friends_append s b]> h !! b = Some f)
        by (by rewrite list_lookup_insert_ne).
      destruct (lookup_insert_append_fields _ _ _ _ _ _ Hf' Hc)
        as (p1 & Hp1 & ? & ? & ? & Hfr1).
      destruct (lookup_insert_append_fields _ _ _ _ _ _ Ha Hp1)
        as (p & ? & ? & ? & ? & Hfr). exists p.
      repeat split; try congruence. naive_solver.
Qed.

Lemma add_friend_targets_live (h h' : heap) a b :
  heap_closed h → add_friend h a b = Done h' →
  a < length h ∧ b < length h.
Proof.
  intros Hcl (s & Ha & Hcases)%add_friend_Done.
  split; [by eapply lookup_lt_Some|].
  destruct Hcases as [[Hb ->]|[(Hb & <- & ->)|(f & Hab & Hf & Hb & Hd)]].
  - by eapply Hcl.
  - by eapply lookup_lt_Some.
  - by eapply lookup_lt_Some.
Qed.

Lemma add_friend_closed (h h' : heap) a b :
  heap_closed h → add_friend h a b = Done h' → heap_closed h'.
Proof.
  intros Hcl Hadd c p' x Hc Hx.
  destruct (add_friend_targets_live _ _ _ _ Hcl Hadd).
  rewrite (add_friend_length _ _ _ _ Hadd).
  destruct (add_friend_fields _ _ _ _ _ _ Hadd Hc)
    as (p & Hp & _ & _ & _ & Hfr).
  destruct (Hfr x Hx) as [?|[->| ->]]; [by eapply Hcl|done..].
Qed.

Lemma add_friend_ids_unique (h h' : heap) a b :
  ids_unique h → add_friend h a b = Done h' → ids_unique h'.
Proof.
  intros Hu Hadd c d p q Hc Hd Heq.
  destruct (add_friend_fields _ _ _ _ _ _ Hadd Hc) as (p0 & ? & ? & _).
  destruct (add_friend_fields _ _ _ _ _ _ Hadd Hd) as (q0 & ? & ? & _).
  eapply Hu; [done..|congruence].
Qed.

Lemma built_invariants (h : heap) :
  built h → heap_closed h ∧ ids_unique h ∧ friends_symmetric h.
Proof.
  induction 1 as [|h name born_in uid _ (Hcl & Hu & Hsym) Hfresh
                  |h a b h' _ (Hcl & Hu & Hsym) Hadd].
  - split_and!.
    + intros a p f Hp. by rewrite lookup_nil in Hp.
    + intros a b p q Hp. by rewrite lookup_nil in Hp.
    + intros a b. unfold is_friend. setoid_rewrite lookup_nil. naive_solver.
  - cbn. split_and!.
    + intros a p f Hp Hf. rewrite length_app. cbn.
      apply lookup_app_Some in Hp as [Hp|[_ Hp]].
      * specialize (Hcl _ _ _ Hp Hf). lia.
      * apply list_lookup_singleton_Some in Hp as [_ <-]. set_solver.
    + intros a b p q Hp Hq Heq.
      apply lookup_app_Some in Hp as [Hp|[Hla Hp]];
        apply lookup_app_Some in Hq as [Hq|[Hlb Hq]].
      * by eapply Hu.
      * apply list_lookup_singleton_Some in Hq as [_ <-]. cbn in Heq.
        exfalso. eapply Hfresh; [|done]. by eapply list_elem_of_lookup_2.
      * apply list_lookup_singleton_Some in Hp as [_ <-]. cbn in Heq.
        exfalso. eapply Hfresh; [|done]. by eapply list_elem_of_lookup_2.
      * apply list_lookup_singleton_Some in Hp as [? _].
        apply list_lookup_singleton_Some in Hq as [? _]. lia.
    + assert (Hold : ∀ x y,
        is_friend (h ++ [mkPerson name [] born_in uid]) x y ↔
        is_friend h x y).
      { intros x y. unfold is_friend. split.
        - intros (p & Hp & Hy).
          apply lookup_app_Some in Hp as [Hp|[_ Hp]]; [eauto|].
          apply list_lookup_singleton_Some in Hp as [_ <-]. set_solver.
        - intros (p & Hp & Hy). exists p. split; [|done].
          by apply lookup_app_l_Some. }
      intros x y. by rewrite !Hold.
  - split_and!; eauto using add_friend_closed, add_friend_ids_unique,
      add_friend_symmetric.
Qed.
End add_friend_invariants.

Section functional_add_friend.
Context `{DateTimeText}.
Import Functional.

Lemma pderef_Some (h : pheap) a p : h !! a = Some p → pderef h a = Done p.
Proof. unfold pderef. by intros ->. Qed.

Lemma functional_add_friend_distinct (h : pheap) a b d p q :
  a ≠ b → h !! a = Some p → h !! b = Some q →
  Functional.add_friend h a b d =
    if decide (PyStr (pd_id q) ∈ pd_friends p) then Done h
    else Done (<[b := pd_append q (PyStr (pd_id p))]>
                 (<[a := pd_append p (PyStr (pd_id q))]> h)).
Proof.
  intros Hab Ha Hb. unfold Functional.add_friend.
  rewrite (pderef_Some _ _ _ Ha), (pderef_Some _ _ _ Hb). cbn.
  case_decide; [done|].
  assert (a < length h) by (by eapply lookup_lt_Some).
  rewrite (pderef_Some _ b q) by (by rewrite list_lookup_insert_ne).
  cbn. by rewrite (pderef_Some _ a (pd_append p (PyStr (pd_id q))))
    by (by rewrite list_lookup_insert_eq).
Qed.

Lemma functional_add_friend_self (h : pheap) a d p :
  h !! a = Some p →
  Functional.add_friend h a a d =
    if decide (PyStr (pd_id p) ∈ pd_friends p) then Done h
    else Done (<[a := pd_append (pd_append p (PyStr (pd_id p)))
                                (PyStr (pd_id p))]> h).
Proof.
  intros Ha. unfold Functional.add_friend.
  rewrite (pderef_Some _ _ _ Ha). cbn. case_decide; [done|].
  assert (a < length h) by (by eapply lookup_lt_Some).
  rewrite (pderef_Some _ a (pd_append p (PyStr (pd_id p))))
    by (by rewrite list_lookup_insert_eq).
  cbn. by rewrite list_insert_insert_eq.
Qed.
End functional_add_friend.

(** ** The claim on [add_friend] of a person with itself *)

(** C9, as stated, fails: [add_friend(A, A)] on a person without friends
    puts [A] in its own friends list, in the object-oriented variants and
    (as id) in the functional variant. *)
Lemma add_friend_self_loop_counterexample :
  (¬ is_friend ivan_alone 0 0 ∧
   ∃ h', add_friend ivan_alone 0 0 = Done h' ∧ is_friend h' 0 0) ∧
  (¬ has_friend ivan_alone_data 0 0 ∧
   ∃ h', Functional.add_friend ivan_alone_data 0 0 [] = Done h' ∧
         has_friend h' 0 0).
Proof.
  split; split.
  - intros (p & Hp & Hin). simplify_eq/=. by apply elem_of_nil in Hin.
  - eexists. split; [reflexivity|]. eexists. split; [reflexivity|].
    cbn. set_solver.
  - intros (p & q & Hp & _ & Hin). simplify_eq/=. by apply elem_of_nil in Hin.
  - eexists. split; [reflexivity|]. do 2 eexists.
    split_and!; [reflexivity..|]. cbn. set_solver.
Qed.

(** C9, amended: [add_friend(A, A)] on a live person that is not yet in its
    own friends list appends [A] to that list (once in the object-oriented
    variants, twice, as id, in the functional variant) and changes nothing
    else, so that [A] is then its own friend; on a person that is in its own
    friends list it changes nothing.  In both cases a second call returns
    the heap unchanged. *)
Theorem add_friend_self_appends `{DateTimeText} :
  (∀ (h : heap) a p,
     h !! a = Some p →
     ∃ h', add_friend h a a = Done h' ∧
           DirectAccess.add_friend h a a = Done h' ∧
           h' = (if decide (a ∈ _friends p) then h
                 else <[a := friends_append p a]> h) ∧
           is_friend h' a a ∧
           add_friend h' a a = Done h') ∧
  (∀ (h : Functional.pheap) a d p,
     h !! a = Some p →
     let i := PyStr (Functional.pd_id p) in
     ∃ h', Functional.add_friend h a a d = Done h' ∧
           h' = (if decide (i ∈ Functional.pd_friends p) then h
                 else <[a := Functional.pd_append
                               (Functional.pd_append p i) i]> h) ∧
           has_friend h' a a ∧
           Functional.add_friend h' a a d = Done h').
Proof.
  split.
  - intros h a p Ha. assert (a < length h) by (by eapply lookup_lt_Some).
    unfold DirectAccess.add_friend. fold (add_friend h a a).
    rewrite (add_friend_self _ _ _ Ha).
    destruct (decide (a ∈ _friends p)) as [Hin|Hin].
    + exists h. split_and!; [done..|by exists p|].
      rewrite (add_friend_self _ _ _ Ha). by rewrite decide_True.
    + eexists. split_and!; [done..| |].
      * eexists. split; [by apply list_lookup_insert_eq|]. cbn. set_solver.
      * erewrite add_friend_self by (by apply list_lookup_insert_eq).
        rewrite decide_True; [done|]. cbn. set_solver.
  - intros h a d p Ha i. assert (a < length h) by (by eapply lookup_lt_Some).
    rewrite (functional_add_friend_self _ _ _ _ Ha). fold i.
    destruct (decide (i ∈ Functional.pd_friends p)) as [Hin|Hin].
    + exists h. split_and!; [done..|by exists p, p|].
      rewrite (functional_add_friend_self _ _ _ _ Ha). by rewrite decide_True.
    + eexists. split_and!; [done..| |].
      * do 2 eexists.
        split_and!; [by apply list_lookup_insert_eq..|]. cbn. set_solver.
      * erewrite functional_add_friend_self
          by (by apply list_lookup_insert_eq).
        rewrite decide_True; [done|]. cbn. set_solver.
Qed.

Lemma add_friend_self_appends_witness :
  (∃ h', add_friend ivan_alone 0 0 = Done h' ∧ is_friend h' 0 0) ∧
  (∃ h', Functional.add_friend ivan_alone_data 0 0 [] = Done h' ∧
         has_friend h' 0 0).
Proof.
  split.
  - destruct (proj1 (add_friend_self_appends (H:=test_dates))
                ivan_alone 0 _ eq_refl) as (h' & ? & _ & _ & ? & _).
    by exists h'.
  - destruct (proj2 (add_friend_self_appends (H:=test_dates))
                ivan_alone_data 0 [] _ eq_refl) as (h' & ? & _ & ? & _).
    by exists h'.
Defined.

(** ** The order of a depth-first walk *)

Section preorder_facts.
Context {N : Type} `{Countable N}.
Variable succs : N → option (list N).

Lemma preorder_det seen todo out1 out2 :
  preorder succs seen todo out1 → preorder succs seen todo out2 →
  out1 = out2.
Proof.
  intros Hp. revert out2.
  induction Hp as [seen|seen a todo out Ha _ IH|seen a fs todo out Ha Hfs _ IH];
    intros out2 Hq; inversion Hq; simplify_eq; try done.
  - by apply IH.
  - f_equal. by apply IH.
Qed.

(** Walking [l1] and then, with what was emitted added to the seen set,
    [l2] is walking [l1 ++ l2]. *)
Lemma preorder_app seen l1 o1 l2 o2 :
  preorder succs seen l1 o1 →
  preorder succs (seen ∪ list_to_set o1) l2 o2 →
  preorder succs seen (l1 ++ l2) (o1 ++ o2).
Proof.
  intros Hp. revert l2 o2.
  induction Hp as [seen|seen a todo out Ha _ IH|seen a fs todo out Ha Hfs _ IH];
    intros l2 o2 Hq; cbn in *.
  - by rewrite (right_id_L ∅ (∪)) in Hq.
  - apply preorder_seen; [done|]. by apply IH.
  - eapply preorder_new; [done..|]. rewrite app_assoc. apply IH.
    replace ({[a]} ∪ seen ∪ list_to_set out)
      with (seen ∪ ({[a]} ∪ list_to_set out)) by set_solver.
    done.
Qed.

(** What a walk emits is new, without repetition, reached from the work
    list, and leaves no edge from an emitted node to an unseen node. *)
Lemma preorder_sound seen todo out :
  preorder succs seen todo out →
  NoDup out ∧
  (∀ x, x ∈ out → x ∉ seen) ∧
  (∀ x, x ∈ out → ∃ t, t ∈ todo ∧ reaches succs t x) ∧
  (∀ t, t ∈ todo → t ∈ seen ∨ t ∈ out) ∧
  (∀ x y, x ∈ out → edge succs x y → y ∈ seen ∨ y ∈ out).
Proof.
  induction 1 as [seen|seen a todo out Ha _ (IH1 & IH2 & IH3 & IH4 & IH5)
                 |seen a fs todo out Ha Hfs _ (IH1 & IH2 & IH3 & IH4 & IH5)].
  - split_and!; [constructor|set_solver..].
  - split_and!; [done|done| | |done].
    + intros x [t [Ht Hr]]%IH3. exists t. set_solver.
    + set_solver.
  - split_and!.
    + constructor; [|done]. intros Hin%IH2. set_solver.
    + intros x [->|Hx%IH2]%elem_of_cons; set_solver.
    + intros x [->|Hx]%elem_of_cons.
      { exists a. split; [set_solver|apply rtc_refl]. }
      destruct (IH3 x Hx) as (t & [Ht|Ht]%elem_of_app & Hr).
      * exists a. split; [set_solver|].
        eapply rtc_l; [|done]. by exists fs.
      * exists t. set_solver.
    + intros t [->|Ht]%elem_of_cons; [set_solver|].
      destruct (IH4 t) as [?|?]; set_solver.
    + intros x y [->|Hx]%elem_of_cons Hxy.
      * destruct Hxy as (fs' & ? & Hy). simplify_eq.
        destruct (IH4 y) as [?|?]; set_solver.
      * destruct (IH5 x y Hx Hxy) as [?|?]; set_solver.
Qed.

(** From an empty seen set, a walk from [root] emits exactly the nodes
    that [root] reaches, each once, [root] first. *)
Lemma preorder_root root out :
  preorder succs ∅ [root] out →
  NoDup out ∧ (∀ x, x ∈ out ↔ reaches succs root x) ∧ head out = Some root.
Proof.
  intros Hp.
  destruct (preorder_sound _ _ _ Hp) as (Hnd & _ & Hreach & Htodo & Hclosed).
  split_and!; [done| |].
  - intros x. split.
    + intros (t & ->%list_elem_of_singleton & Hr)%Hreach. done.
    + revert x. apply rtc_ind_r.
      * destruct (Htodo root) as [?|?]; set_solver.
      * intros y z _ Hyz IH.
        destruct (Hclosed y z IH Hyz) as [?|?]; set_solver.
  - inversion Hp; simplify_eq; [set_solver|done].
Qed.
End preorder_facts.

(** ** The walk computes the depth-first order *)

Lemma bind_Done {A B} (a : A) (f : A → outcome B) : Done a ≫= f = f a.
Proof. done. Qed.

Lemma fmap_Done {A B} (f : A → B) (a : A) : f <$> Done a = Done (f a).
Proof. done. Qed.

Lemma for_each_cons {A S} (f : A → S → outcome S) x l s :
  for_each f (x :: l) s = f x s ≫= for_each f l.
Proof. done. Qed.

Lemma comprehension_cons {A B} (f : A → outcome B) x l :
  comprehension f (x :: l) = y ← f x; ys ← comprehension f l; Done (y :: ys).
Proof. done. Qed.

Lemma for_each_ext {A S} (f g : A → S → outcome S) (l : list A) (s : S) :
  (∀ x s', f x s' = g x s') → for_each f l s = for_each g l s.
Proof.
  intros Hfg. revert s. induction l as [|x l IH]; intros s; cbn; [done|].
  rewrite Hfg. destruct (g x s); cbn; auto.
Qed.

Section walk_facts.
Context {V N K R : Type} `{Countable K} `{Countable N}.
Variable node_of : V → outcome N.
Variable key : N → outcome K.
Variable emit : N → outcome R.
Variable next : N → outcome (list V).
Variable succs : N → option (list N).
Variable U : gset N.
Hypothesis Hok : walk_graph_ok node_of key emit next succs U.
Hypothesis Hinj : keys_injective key U.

Local Abbreviation run := (walk node_of key emit next).
Local Abbreviation agrees := (visited_agrees key U).

Lemma agrees_extend seen visited o ks :
  agrees seen visited → keyed key o ks → (∀ x, x ∈ o → x ∈ U) →
  agrees (seen ∪ list_to_set o) (list_to_set ks ∪ visited).
Proof.
  intros Hag Hks Ho n k Hn Hk. rewrite !elem_of_union, !elem_of_list_to_set.
  rewrite (Hag n k Hn Hk).
  assert (k ∈ ks ↔ n ∈ o) as ->; [|tauto]. split; intros Hin.
  - apply list_elem_of_lookup in Hin as [i Hi].
    destruct (Forall2_lookup_r _ _ _ _ _ Hks Hi) as (m & Hm & Hkm).
    assert (m ∈ o) by (by eapply list_elem_of_lookup_2).
    by rewrite (Hinj n m k) by auto.
  - apply list_elem_of_lookup in Hin as [i Hi].
    destruct (Forall2_lookup_l _ _ _ _ _ Hks Hi) as (k' & Hk' & Hkm).
    assert (k' = k) as -> by congruence.
    by eapply list_elem_of_lookup_2.
Qed.

Lemma measure_step (seen : gset N) n :
  n ∈ U → n ∉ seen → size (U ∖ ({[n]} ∪ seen)) < size (U ∖ seen).
Proof.
  intros Hn Hs. apply subset_size. set_solver.
Qed.

Lemma measure_mono (seen seen' : gset N) :
  seen ⊆ seen' → size (U ∖ seen') ≤ size (U ∖ seen).
Proof. intros Hs. apply subseteq_size. set_solver. Qed.

(** With more fuel than there are unseen nodes, the walk from a node of
    [U] returns, and what it appends is the depth-first order. *)
Lemma walk_correct fuel :
  (∀ v n seen visited out,
     node_of v = Done n → n ∈ U → agrees seen visited →
     size (U ∖ seen) < fuel →
     ∃ o rs ks,
       preorder succs seen [n] o ∧ emitted emit o rs ∧ keyed key o ks ∧
       (∀ x, x ∈ o → x ∈ U) ∧
       run fuel v (visited, out) =
         Done (list_to_set ks ∪ visited, out ++ rs)) ∧
  (∀ vs ns seen visited out,
     denotes node_of vs ns → (∀ m, m ∈ ns → m ∈ U) → agrees seen visited →
     size (U ∖ seen) < fuel →
     ∃ o rs ks,
       preorder succs seen ns o ∧ emitted emit o rs ∧ keyed key o ks ∧
       (∀ x, x ∈ o → x ∈ U) ∧
       for_each (run fuel) vs (visited, out) =
         Done (list_to_set ks ∪ visited, out ++ rs)).
Proof.
  induction fuel as [|fuel [_ IHlist]].
  { split; intros; lia. }
  assert (Hnode : ∀ v n seen visited out,
     node_of v = Done n → n ∈ U → agrees seen visited →
     size (U ∖ seen) < S fuel →
     ∃ o rs ks,
       preorder succs seen [n] o ∧ emitted emit o rs ∧ keyed key o ks ∧
       (∀ x, x ∈ o → x ∈ U) ∧
       run (S fuel) v (visited, out) =
         Done (list_to_set ks ∪ visited, out ++ rs)).
  { intros v n seen visited out Hv Hn Hag Hsize.
    destruct (Hok n Hn) as (k & r & vs & ns & Hk & Hr & Hvs & Hns & Hden & HU).
    cbn [walk]. rewrite Hv. cbn. rewrite Hk. cbn.
    destruct (decide (k ∈ visited)) as [Hin|Hin].
    - exists [], [], []. split_and!; try by constructor.
      + apply preorder_seen; [by apply (Hag n k)|constructor].
      + set_solver.
      + f_equal. f_equal; [set_solver|by rewrite app_nil_r].
    - assert (Hns' : n ∉ seen) by (by rewrite <-(Hag n k)).
      rewrite Hr, Hvs. cbn.
      destruct (IHlist vs ns ({[n]} ∪ seen) ({[k]} ∪ visited) (out ++ [r]))
        as (o & rs & ks & Hpre & Hem & Hkey & HoU & Hrun); [done|done| |..].
      { intros m k' Hm Hk'. rewrite !elem_of_union, !elem_of_singleton.
        rewrite (Hag m k' Hm Hk'). split; (intros [?|?]; [left|by right]).
        - subst. by apply (Hinj m n k).
        - subst. congruence. }
      { pose proof (measure_step seen n Hn Hns'). lia. }
      exists (n :: o), (r :: rs), (k :: ks). split_and!.
      + eapply preorder_new; [done..|]. by rewrite app_nil_r.
      + by constructor.
      + by constructor.
      + intros x [->|?]%elem_of_cons; auto.
      + rewrite Hrun. f_equal. f_equal; [set_solver|].
        by rewrite <-app_assoc. }
  split; [done|].
  intros vs ns seen visited out Hden. revert seen visited out.
  induction Hden as [|v n vs ns Hv _ IH]; intros seen visited out HU Hag Hsize.
  - exists [], [], []. split_and!; try by constructor.
    + set_solver.
    + cbn. f_equal. f_equal; [set_solver|by rewrite app_nil_r].
  - destruct (Hnode v n seen visited out) as
      (o1 & rs1 & ks1 & Hpre1 & Hem1 & Hkey1 & HoU1 & Hrun1);
      [done|set_solver|done|done|].
    destruct (IH (seen ∪ list_to_set o1) (list_to_set ks1 ∪ visited)
                (out ++ rs1)) as
      (o2 & rs2 & ks2 & Hpre2 & Hem2 & Hkey2 & HoU2 & Hrun2).
    { set_solver. }
    { by apply agrees_extend. }
    { assert (Hsub : seen ⊆ seen ∪ list_to_set o1) by set_solver.
      pose proof (measure_mono _ _ Hsub). lia. }
    exists (o1 ++ o2), (rs1 ++ rs2), (ks1 ++ ks2). split_and!.
    + by apply (preorder_app succs seen [n] o1 ns o2).
    + by apply Forall2_app.
    + by apply Forall2_app.
    + intros x [?|?]%elem_of_app; auto.
    + rewrite for_each_cons, Hrun1, bind_Done, Hrun2.
      f_equal. f_equal; [|by rewrite app_assoc].
      rewrite list_to_set_app_L. set_solver.
Qed.

Lemma emitted_det o rs1 rs2 :
  emitted emit o rs1 → emitted emit o rs2 → rs1 = rs2.
Proof.
  intros Hrs1. revert rs2. induction Hrs1; intros rs2 Hrs2; inversion Hrs2;
    simplify_eq; f_equal; auto; congruence.
Qed.

(** The walk from a root of [U], started with nothing visited: with any
    fuel above the size of [U] it returns the records of the depth-first
    order of the nodes that the root reaches. *)
Lemma walk_root v root :
  node_of v = Done root → root ∈ U →
  ∃ o rs visited,
    preorder succs ∅ [root] o ∧ emitted emit o rs ∧
    (∀ x, x ∈ o → x ∈ U) ∧
    ∀ fuel, size U < fuel → run fuel v (∅, []) = Done (visited, rs).
Proof.
  intros Hv Hroot.
  assert (Hag : agrees ∅ ∅).
  { intros n k _ _. set_solver. }
  assert (Hsz : size (U ∖ ∅) = size U) by (f_equal; set_solver).
  destruct (proj1 (walk_correct (S (size U))) v root ∅ ∅ [] Hv Hroot Hag)
    as (o & rs & ks & Hpre & Hem & Hkey & HoU & Hrun); [lia|].
  exists o, rs, (list_to_set ks ∪ ∅). split_and!; [done..|].
  intros fuel Hfuel.
  destruct (proj1 (walk_correct fuel) v root ∅ ∅ [] Hv Hroot Hag)
    as (o' & rs' & ks' & Hpre' & Hem' & Hkey' & _ & Hrun'); [lia|].
  assert (o' = o) as -> by (by eapply preorder_det).
  assert (rs' = rs) as -> by (by eapply emitted_det).
  assert (ks' = ks) as ->.
  { clear -Hkey Hkey'. revert ks' Hkey'.
    induction Hkey; intros ks' Hkey'; inversion Hkey'; simplify_eq;
      f_equal; auto; congruence. }
  done.
Qed.
End walk_facts.

(** ** The collectors of the two object-oriented variants *)

Section oop_collector.
Context `{DateTimeText}.

Lemma encapsulated_collect_walk fuel (h : heap) p st :
  Encapsulated.collect_objects fuel h p st =
  walk Done (Encapsulated.get_id h) (Encapsulated.to_dict h)
       (Encapsulated.get_friends h) fuel p st.
Proof.
  revert p st. induction fuel as [|fuel IH]; intros p st; [done|].
  cbn [Encapsulated.collect_objects walk]. rewrite bind_Done.
  destruct (Encapsulated.get_id h p) as [i| |]; cbn; [|done..].
  case_decide; [done|].
  destruct (Encapsulated.to_dict h p) as [d| |]; cbn; [|done..].
  destruct (Encapsulated.get_friends h p) as [fs| |]; cbn; [|done..].
  by apply for_each_ext.
Qed.

(** Reading the fields directly or through the accessors is the same
    traversal. *)
Lemma direct_access_collect fuel (h : heap) p st :
  DirectAccess.collect_objects fuel h p st =
  Encapsulated.collect_objects fuel h p st.
Proof.
  revert p st. induction fuel as [|fuel IH]; intros p st; [done|].
  cbn [Encapsulated.collect_objects DirectAccess.collect_objects].
  unfold Encapsulated.get_id, Encapsulated.to_dict,
    Encapsulated.get_friends.
  destruct (deref h p) as [o| |]; cbn; [|done..].
  case_decide; [done|].
  destruct (comprehension _ (_friends o)) as [fs| |]; cbn; [|done..].
  by apply for_each_ext.
Qed.

Lemma direct_access_serialize fuel (h : heap) p :
  DirectAccess.serialize fuel h p = Encapsulated.serialize fuel h p.
Proof.
  unfold DirectAccess.serialize, Encapsulated.serialize.
  by rewrite direct_access_collect.
Qed.

Lemma comprehension_ids (h : heap) (fs : list addr) :
  (∀ f, f ∈ fs → f < length h) →
  comprehension (λ f, _id <$> deref h f) fs
  = Done (omap (λ f, _id <$> h !! f) fs).
Proof.
  induction fs as [|f fs IH]; intros Hlive; [done|]. cbn.
  destruct (lookup_lt_is_Some_2 h f) as [q Hq]; [set_solver|].
  rewrite (deref_Some _ _ _ Hq), Hq. cbn. rewrite IH by set_solver. done.
Qed.

Lemma to_dict_flat_of (h : heap) a p :
  heap_closed h → h !! a = Some p →
  ∃ r, Encapsulated.to_dict h a = Done r ∧ flat_of h a = Some r.
Proof.
  intros Hcl Ha. unfold Encapsulated.to_dict, flat_of.
  rewrite (deref_Some _ _ _ Ha), Ha. cbn.
  rewrite comprehension_ids by (intros f Hf; by eapply Hcl). cbn. eauto.
Qed.

Lemma elem_of_live (h : heap) a : a ∈ live h ↔ a < length h.
Proof. unfold live. rewrite elem_of_list_to_set, elem_of_seq. lia. Qed.

Lemma size_live (h : heap) : size (live h) = length h.
Proof.
  unfold live. rewrite size_list_to_set by apply NoDup_seq.
  apply length_seq.
Qed.

Lemma heap_walk_graph_ok (h : heap) :
  heap_closed h →
  walk_graph_ok Done (Encapsulated.get_id h) (Encapsulated.to_dict h)
    (Encapsulated.get_friends h) (friends_of h) (live h).
Proof.
  intros Hcl a [p Ha]%elem_of_live%lookup_lt_is_Some.
  destruct (to_dict_flat_of h a p Hcl Ha) as (r & Hr & _).
  exists (_id p), r, (_friends p), (_friends p).
  unfold Encapsulated.get_id, Encapsulated.get_friends, friends_of.
  rewrite (deref_Some _ _ _ Ha), Ha. split_and!; try done.
  - unfold denotes. by apply Forall2_same_length_lookup_2; [|congruence].
  - intros m Hm. apply elem_of_live. by eapply Hcl.
Qed.

Lemma heap_keys_injective (h : heap) :
  ids_unique h → keys_injective (Encapsulated.get_id h) (live h).
Proof.
  intros Hu a b k [p Ha]%elem_of_live%lookup_lt_is_Some
    [q Hb]%elem_of_live%lookup_lt_is_Some.
  unfold Encapsulated.get_id.
  rewrite (deref_Some _ _ _ Ha), (deref_Some _ _ _ Hb). cbn.
  intros [= <-] [= Hq]. by eapply Hu.
Qed.

Lemma emitted_flat_of (h : heap) order objs :
  heap_closed h → (∀ a, a ∈ order → a ∈ live h) →
  emitted (Encapsulated.to_dict h) order objs →
  Forall2 (λ a r, flat_of h a = Some r) order objs.
Proof.
  intros Hcl Hlive Hem. induction Hem as [|a r order objs Hr _ IH];
    constructor.
  - destruct (lookup_lt_is_Some_2 h a) as [p Hp];
      [apply elem_of_live; set_solver|].
    destruct (to_dict_flat_of h a p Hcl Hp) as (r' & ? & ?). congruence.
  - apply IH. set_solver.
Qed.

(** Serialization from a live root of a closed heap with unique ids: both
    object-oriented serializers return, for every fuel above the number of
    objects, the flat projections of the nodes in depth-first order. *)
Lemma serialize_preorder (h : heap) root :
  heap_closed h → ids_unique h → root < length h →
  ∃ order objs,
    preorder (friends_of h) ∅ [root] order ∧
    Forall2 (λ a r, flat_of h a = Some r) order objs ∧
    ∀ fuel, length h < fuel →
      Encapsulated.serialize fuel h root = Done objs ∧
      DirectAccess.serialize fuel h root = Done objs.
Proof.
  intros Hcl Hu Hroot.
  destruct (walk_root Done (Encapsulated.get_id h) (Encapsulated.to_dict h)
              (Encapsulated.get_friends h) (friends_of h) (live h)
              (heap_walk_graph_ok h Hcl) (heap_keys_injective h Hu)
              root root eq_refl)
    as (order & objs & visited & Hpre & Hem & Hlive & Hrun).
  { by apply elem_of_live. }
  exists order, objs. split_and!; [done|by eapply emitted_flat_of|].
  intros fuel Hfuel. rewrite direct_access_serialize.
  assert (Encapsulated.serialize fuel h root = Done objs); [|done].
  unfold Encapsulated.serialize.
  rewrite encapsulated_collect_walk, Hrun by (by rewrite size_live). done.
Qed.
End oop_collector.

(** ** Insertion-ordered dicts *)

Section pydict_facts.
Context {V : Type}.
Implicit Types d : pydict V.

Lemma pydict_get_Some_keys d k v : pydict_get d k = Some v → k ∈ d.*1.
Proof.
  induction d as [|[k' v'] d IH]; cbn; [done|].
  case_decide; set_solver.
Qed.

Lemma pydict_get_keys d k : k ∈ d.*1 → is_Some (pydict_get d k).
Proof.
  induction d as [|[k' v'] d IH]; cbn; [set_solver|].
  case_decide; [eauto|]. set_solver.
Qed.

Lemma pydict_getitem_Some d k v :
  pydict_get d k = Some v → pydict_getitem d k = Done v.
Proof. unfold pydict_getitem. by intros ->. Qed.

Lemma pydict_getitem_None d k :
  pydict_get d k = None → pydict_getitem d k = Raise (KeyError k).
Proof. unfold pydict_getitem. by intros ->. Qed.

Lemma pydict_get_set d k v k' :
  pydict_get (pydict_set d k v) k' =
  if decide (k' = k) then Some v else pydict_get d k'.
Proof.
  induction d as [|[k0 v0] d IH]; cbn.
  - by case_decide.
  - destruct (decide (k = k0)) as [->|Hk]; cbn.
    + by repeat case_decide.
    + rewrite IH. repeat case_decide; congruence.
Qed.

Lemma pydict_set_keys d k v :
  (pydict_set d k v).*1 = if decide (k ∈ d.*1) then d.*1 else d.*1 ++ [k].
Proof.
  induction d as [|[k0 v0] d IH]; cbn.
  - rewrite decide_False; [done|set_solver].
  - destruct (decide (k = k0)) as [->|Hk]; cbn.
    + rewrite decide_True; [done|set_solver].
    + rewrite IH. destruct (decide (k ∈ d.*1)).
      * rewrite decide_True; [done|set_solver].
      * rewrite decide_False; [done|set_solver].
Qed.
End pydict_facts.

(** ** The collector of the functional variant *)

Section functional_collector.
Context `{DateTimeText}.
Import Functional.

Lemma functional_collect_walk fuel (h : pheap) d v st :
  collect_objects fuel h d v st =
  walk hashable Done (copy_of h d) (friends_entry h d) fuel v st.
Proof.
  revert v st. induction fuel as [|fuel IH]; intros v st; [done|].
  cbn [collect_objects walk]. destruct v as [i|a]; cbn; [|done].
  case_decide; [done|]. unfold copy_of, friends_entry.
  destruct (pydict_getitem d i) as [r| |]; cbn; [|done..].
  destruct (pderef h r) as [person| |]; cbn; [|done..].
  by apply for_each_ext.
Qed.

Lemma elem_of_registered (d : pydict addr) i :
  i ∈ registered d ↔ is_Some (pydict_get d i).
Proof.
  unfold registered. rewrite elem_of_list_to_set. split.
  - apply pydict_get_keys.
  - intros [r Hr]. by eapply pydict_get_Some_keys.
Qed.

Lemma size_registered (d : pydict addr) : size (registered d) ≤ length d.
Proof.
  unfold registered. rewrite <-(length_fmap fst d).
  generalize (d.*1). intros l. induction l as [|x l IH]; cbn.
  - by rewrite size_empty.
  - rewrite size_union_alt, size_singleton.
    assert (size (list_to_set l ∖ {[x]} : gset string)
            ≤ size (list_to_set l : gset string))
      by (apply subseteq_size; set_solver).
    lia.
Qed.

Lemma friends_all_ids (d : pydict addr) (vs : list pyval) :
  (∀ v, v ∈ vs → ∃ j, v = PyStr j ∧ is_Some (pydict_get d j)) →
  ∃ js, mapM as_id vs = Some js ∧ denotes hashable vs js ∧
        (∀ j, j ∈ js → j ∈ registered d) ∧
        comprehension
          (λ v, match v with
                | PyStr s => Done s
                | PyRef _ => Raise TypeError
                end) vs = Done js.
Proof.
  induction vs as [|v vs IH]; intros Hall.
  - exists []. split_and!; [done|constructor|set_solver|done].
  - destruct IH as (js & Hjs & Hden & Hreg & Hcomp); [set_solver|].
    destruct (Hall v) as (j & -> & Hj); [set_solver|].
    exists (j :: js). split_and!.
    + apply mapM_Some. constructor; [done|by apply mapM_Some].
    + by constructor.
    + intros j' [->|?]%elem_of_cons; [by apply elem_of_registered|auto].
    + cbn. by rewrite Hcomp.
Qed.

Lemma registry_walk_graph_ok (h : pheap) d :
  registry_ok h d →
  walk_graph_ok hashable Done (copy_of h d) (friends_entry h d)
    (friend_ids_of h d) (registered d).
Proof.
  intros Hreg i [r Hr]%elem_of_registered.
  destruct (Hreg i r Hr) as (p & Hp & Hid & Hfr).
  destruct (friends_all_ids d _ Hfr) as (js & Hjs & Hden & Hin & _).
  exists i, (mkCopy (pd_id p) (pd_name p) (isoformat (pd_born_in p))
                    (pd_friends p)), (pd_friends p), js.
  unfold copy_of, friends_entry, friend_ids_of, person_of.
  rewrite (pydict_getitem_Some _ _ _ Hr), Hr. cbn.
  rewrite (pderef_Some _ _ _ Hp), Hp. cbn. by split_and!.
Qed.

Lemma emitted_pflat_of (h : pheap) d order copies :
  registry_ok h d → (∀ i, i ∈ order → i ∈ registered d) →
  emitted (copy_of h d) order copies →
  ∃ objs, comprehension dump_object copies = Done objs ∧
          Forall2 (λ i r, pflat_of h d i = Some r) order objs.
Proof.
  intros Hreg Hin Hem. induction Hem as [|i c order copies Hc _ IH].
  - exists []. split; [done|constructor].
  - destruct IH as (objs & Hobjs & Hall); [set_solver|].
    assert (is_Some (pydict_get d i)) as [r Hr]
      by (apply elem_of_registered, Hin; set_solver).
    destruct (Hreg i r Hr) as (p & Hp & Hid & Hfr).
    destruct (friends_all_ids d _ Hfr) as (js & Hjs & _ & _ & Hcomp).
    unfold copy_of in Hc.
    rewrite (pydict_getitem_Some _ _ _ Hr) in Hc. cbn in Hc.
    rewrite (pderef_Some _ _ _ Hp) in Hc. cbn in Hc. injection Hc as <-.
    eexists. split.
    + rewrite comprehension_cons, Hobjs. unfold dump_object. cbn.
      rewrite Hcomp. cbn. done.
    + constructor; [|done]. unfold pflat_of, person_of.
      rewrite Hr. cbn. rewrite Hp. cbn. by rewrite Hjs.
Qed.

(** Serialization in the functional variant, from a person whose id is
    filed in a well-formed registry: for every fuel above the number of
    entries it returns the container with the id of the root and the flat
    projections of the ids in depth-first order. *)
Lemma serialize_functional_preorder (h : pheap) d root p :
  registry_ok h d → h !! root = Some p → is_Some (pydict_get d (pd_id p)) →
  ∃ order objs,
    preorder (friend_ids_of h d) ∅ [pd_id p] order ∧
    Forall2 (λ i r, pflat_of h d i = Some r) order objs ∧
    ∀ fuel, length d < fuel →
      serialize_functional fuel h root d
      = Done (mkContainer (pd_id p) objs).
Proof.
  intros Hreg Hroot Hfiled%elem_of_registered.
  destruct (walk_root hashable Done (copy_of h d) (friends_entry h d)
              (friend_ids_of h d) (registered d)
              (registry_walk_graph_ok h d Hreg))
    with (v := PyStr (pd_id p)) (root := pd_id p)
    as (order & copies & visited & Hpre & Hem & Hin & Hrun); [|done..|].
  { intros n m k _ _. congruence. }
  destruct (emitted_pflat_of h d order copies Hreg Hin Hem)
    as (objs & Hdump & Hflat).
  exists order, objs. split_and!; [done..|].
  intros fuel Hfuel. unfold serialize_functional.
  rewrite (pderef_Some _ _ _ Hroot). cbn.
  rewrite functional_collect_walk, Hrun
    by (pose proof (size_registered d); lia).
  cbn. by rewrite Hdump.
Qed.
End functional_collector.

(** ** The claims on the collector *)

Lemma triangle_built : built triangle.
Proof.
  assert (H3 : built three_persons).
  { change three_persons with
      (Person_init (Person_init (Person_init (H:=test_dates) []
         "Ivan" born_1990_05_15 "id-ivan").1
         "Maria" born_1992_08_22 "id-maria").1
         "Alexey" born_1988_03_10 "id-alexey").1.
    repeat (apply built_init; [|intros p Hp; set_unfold; naive_solver]).
    apply built_empty. }
  apply (built_add_friend
           [@mkPerson test_dates "Ivan" [1] born_1990_05_15 "id-ivan";
            @mkPerson test_dates "Maria" [0; 2] born_1992_08_22 "id-maria";
            @mkPerson test_dates "Alexey" [1] born_1988_03_10 "id-alexey"]
           2 0); [|reflexivity].
  apply (built_add_friend
           [@mkPerson test_dates "Ivan" [1] born_1990_05_15 "id-ivan";
            @mkPerson test_dates "Maria" [0] born_1992_08_22 "id-maria";
            @mkPerson test_dates "Alexey" [] born_1988_03_10 "id-alexey"]
           1 2); [|reflexivity].
  by apply (built_add_friend three_persons 0 1); [|reflexivity].
Qed.

Lemma mutual_pair_built : built mutual_pair.
Proof.
  eapply (built_add_friend ivan_maria 0 1); [|reflexivity].
  apply built_init; [apply built_init; [apply built_empty|]|];
    intros p Hp; set_unfold; naive_solver.
Qed.

Section collector_claims.
Context `{DateTimeText}.

Lemma flat_of_id (h : heap) a p r :
  h !! a = Some p → flat_of h a = Some r → fr_id r = _id p.
Proof. unfold flat_of. intros ->. cbn. by intros [= <-]. Qed.

(** In the projections of a duplicate-free list of live nodes with unique
    ids, the id of a listed node occurs once. *)
Lemma flat_occurs_once (h : heap) order objs a p :
  ids_unique h → NoDup order →
  Forall2 (λ a r, flat_of h a = Some r) order objs →
  a ∈ order → h !! a = Some p → occurs_once (_id p) objs.
Proof.
  intros Hu Hnd Hflat [n Hn]%list_elem_of_lookup Ha.
  destruct (Forall2_lookup_l _ _ _ _ _ Hflat Hn) as (r & Hr & Hfr).
  exists n. split; [exists r; eauto using flat_of_id|].
  intros m r' Hr' Hid.
  destruct (Forall2_lookup_r _ _ _ _ _ Hflat Hr') as (b & Hb & Hfb).
  assert (∃ q, h !! b = Some q ∧ fr_id r' = _id q) as (q & Hq & Hidq).
  { unfold flat_of in Hfb. destruct (h !! b) as [q|]; [|done].
    exists q. split; [done|]. cbn in Hfb. by injection Hfb as <-. }
  assert (b = a) as -> by (eapply Hu; [done..|congruence]).
  by eapply NoDup_lookup.
Qed.
End collector_claims.

(** C2: serialization from a live root of a heap with live references and
    unique ids returns (for every recursion budget above the number of
    objects, in both object-oriented serializers), whatever cycles the
    friendship graph has, and every node that the root reaches, so every
    node of a cycle through the root's graph, has its record at exactly one
    position of the output. *)
Theorem serialize_terminates_on_cycles `{DateTimeText} (h : heap) root :
  heap_closed h → ids_unique h → root < length h →
  ∃ objs,
    (∀ fuel, length h < fuel →
       Encapsulated.serialize fuel h root = Done objs ∧
       DirectAccess.serialize fuel h root = Done objs) ∧
    ∀ a p, reachable h root a → h !! a = Some p →
           occurs_once (_id p) objs.
Proof.
  intros Hcl Hu Hroot.
  destruct (serialize_preorder h root Hcl Hu Hroot)
    as (order & objs & Hpre & Hflat & Hrun).
  destruct (preorder_root _ _ _ Hpre) as (Hnd & Hreach & _).
  exists objs. split; [done|]. intros a p Ha Hp.
  eapply flat_occurs_once; [done..| |done]. by apply Hreach.
Qed.

(** On the triangle and on the mutual pair of the test suite the serializer
    returns, and the three (two) persons occur once each. *)
Lemma serialize_terminates_on_cycles_witness :
  (∃ objs, Encapsulated.serialize 4 triangle 0 = Done objs ∧
           occurs_once "id-ivan" objs ∧ occurs_once "id-maria" objs ∧
           occurs_once "id-alexey" objs) ∧
  (∃ objs, Encapsulated.serialize 3 mutual_pair 0 = Done objs ∧
           occurs_once "id-ivan" objs ∧ occurs_once "id-maria" objs).
Proof.
  split.
  - destruct (serialize_terminates_on_cycles triangle 0)
      as (objs & Hrun & Honce).
    + apply built_invariants, triangle_built.
    + apply built_invariants, triangle_built.
    + cbn. lia.
    + exists objs. split_and!.
      * apply (Hrun 4). cbn. lia.
      * apply (Honce 0 _ (rtc_refl _ _) eq_refl).
      * apply (Honce 1 (@mkPerson test_dates "Maria" [0; 2] born_1992_08_22
                          "id-maria")); [|reflexivity].
        apply rtc_once. exists [1; 2]. split; [reflexivity|set_solver].
      * apply (Honce 2 (@mkPerson test_dates "Alexey" [1; 0] born_1988_03_10
                          "id-alexey")); [|reflexivity].
        apply rtc_once. exists [1; 2]. split; [reflexivity|set_solver].
  - destruct (serialize_terminates_on_cycles mutual_pair 0)
      as (objs & Hrun & Honce).
    + apply built_invariants, mutual_pair_built.
    + apply built_invariants, mutual_pair_built.
    + cbn. lia.
    + exists objs. split_and!.
      * apply (Hrun 3). cbn. lia.
      * apply (Honce 0 _ (rtc_refl _ _) eq_refl).
      * apply (Honce 1 (@mkPerson test_dates "Maria" [0] born_1992_08_22
                          "id-maria")); [|reflexivity].
        apply rtc_once. exists [1]. split; [reflexivity|set_solver].
Defined.

(** Two duplicate-free enumerations of the same nodes have the same
    length: "the number of distinct nodes" does not depend on the
    enumeration. *)
Lemma enumeration_length {A} (l k : list A) :
  NoDup l → NoDup k → (∀ x, x ∈ l ↔ x ∈ k) → length l = length k.
Proof. intros Hl Hk Hlk. apply Permutation_length. by apply NoDup_Permutation. Qed.

(** C6: the output of serialization has as many records as there are
    distinct nodes that the root reaches, the root included: a duplicate-free
    list of exactly these nodes exists, and every such list has the length of
    the output.  First the two serializers on objects, then
    [serialize_functional], whose nodes are the ids filed in
    [persons_dict]. *)
Theorem serialize_count `{DateTimeText} :
  (∀ (h : heap) root,
     heap_closed h → ids_unique h → root < length h →
     ∃ objs,
       (∀ fuel, length h < fuel →
          Encapsulated.serialize fuel h root = Done objs ∧
          DirectAccess.serialize fuel h root = Done objs) ∧
       (∃ nodes, NoDup nodes ∧ ∀ a, a ∈ nodes ↔ reachable h root a) ∧
       ∀ nodes, NoDup nodes → (∀ a, a ∈ nodes ↔ reachable h root a) →
                length objs = length nodes) ∧
  (∀ (h : Functional.pheap) d root p,
     registry_ok h d → h !! root = Some p →
     is_Some (pydict_get d (Functional.pd_id p)) →
     ∃ objs,
       (∀ fuel, length d < fuel →
          Functional.serialize_functional fuel h root d
          = Done (mkContainer (Functional.pd_id p) objs)) ∧
       (∃ ids, NoDup ids ∧
               ∀ i, i ∈ ids ↔ id_reachable h d (Functional.pd_id p) i) ∧
       ∀ ids, NoDup ids →
              (∀ i, i ∈ ids ↔ id_reachable h d (Functional.pd_id p) i) →
              length objs = length ids).
Proof.
  split.
  - intros h root Hcl Hu Hroot.
    destruct (serialize_preorder h root Hcl Hu Hroot)
      as (order & objs & Hpre & Hflat & Hrun).
    destruct (preorder_root _ _ _ Hpre) as (Hnd & Hreach & _).
    exists objs. split_and!; [done|by exists order|].
    intros nodes Hnodes Hall. rewrite <-(Forall2_length _ _ _ Hflat).
    apply enumeration_length; [done..|]. intros a. by rewrite Hreach, Hall.
  - intros h d root p Hreg Hroot Hfiled.
    destruct (serialize_functional_preorder h d root p Hreg Hroot Hfiled)
      as (order & objs & Hpre & Hflat & Hrun).
    destruct (preorder_root _ _ _ Hpre) as (Hnd & Hreach & _).
    exists objs. split_and!; [done|by exists order|].
    intros ids Hids Hall. rewrite <-(Forall2_length _ _ _ Hflat).
    apply enumeration_length; [done..|]. intros a. by rewrite Hreach, Hall.
Qed.

Lemma triangle_registry_ok : registry_ok triangle_data all_persons.
Proof.
  intros i r Hr. unfold all_persons in *. cbn in Hr.
  repeat case_decide; simplify_eq; (eexists; split_and!; [reflexivity..|]);
    intros v Hv; cbn in Hv; set_unfold;
    destruct Hv as [->|[->|[]]]; eexists; (split; [done|]);
    cbn; repeat case_decide; by eauto.
Qed.

(** On the triangle of the test suite: three records, in both styles. *)
Lemma serialize_count_witness :
  (∃ objs, Encapsulated.serialize 4 triangle 0 = Done objs ∧
           length objs = 3) ∧
  (∃ objs, Functional.serialize_functional 4 triangle_data 0 all_persons
           = Done (mkContainer "id-ivan" objs) ∧
           ∃ ids : list string, NoDup ids ∧ length objs = length ids).
Proof.
  split.
  - destruct (proj1 (serialize_count (H:=test_dates)) triangle 0)
      as (objs & Hrun & _ & Hcount).
    + apply built_invariants, triangle_built.
    + apply built_invariants, triangle_built.
    + cbn. lia.
    + exists objs. split; [apply (Hrun 4); cbn; lia|].
      apply (Hcount [0; 1; 2]).
      * repeat (constructor; [set_solver|]). constructor.
      * intros a. split.
        -- intros Ha. set_unfold. destruct Ha as [->|[->|[->|[]]]].
           ++ apply rtc_refl.
           ++ apply rtc_once. exists [1; 2]. split; [done|set_solver].
           ++ apply rtc_once. exists [1; 2]. split; [done|set_solver].
        -- intros Ha. assert (a < 3) as Hlt.
           { apply rtc_inv_r in Ha as [<-|(b & _ & fs & Hfs & Hin)]; [lia|].
             assert (Hcl : heap_closed triangle)
               by apply built_invariants, triangle_built.
             unfold friends_of in Hfs.
             destruct (triangle !! b) as [q|] eqn:Hq; [|done].
             injection Hfs as <-. apply (Hcl b q a Hq Hin). }
           set_unfold. lia.
  - destruct (proj2 (serialize_count (H:=test_dates))
                triangle_data all_persons 0 _ triangle_registry_ok eq_refl)
      as (objs & Hrun & (ids & Hnd & Hids) & Hcount).
    + by eexists.
    + exists objs. split; [apply (Hrun 4); cbn; lia|].
      exists ids. split; [done|]. by apply Hcount.
Defined.

(** C7: the output of [PersonSerializer.serialize] is the list of the
    records of the nodes taken in the first-visit order of a depth-first
    pre-order walk from the root that follows each friends list in its
    order.  The record of a node is what [to_dict] returns for it: the id,
    the name and the timestamp text of that node and the ids of its friends
    in list order.  The order lists every node the root reaches exactly
    once, the root first, and it is the only such order, so the output is a
    function of the graph and of the friend-insertion order alone (it does
    not depend on the recursion budget). *)
Theorem serialize_first_visit_order `{DateTimeText} (h : heap) root :
  heap_closed h → ids_unique h → root < length h →
  ∃ order objs,
    (∀ fuel, length h < fuel →
       Encapsulated.serialize fuel h root = Done objs) ∧
    Forall2 (λ a r, Encapsulated.to_dict h a = Done r ∧
                    ∃ p, h !! a = Some p ∧
                         r = mkFlat (_id p) (_name p)
                                    (isoformat (_born_in p))
                                    (friend_ids h p))
            order objs ∧
    preorder (friends_of h) ∅ [root] order ∧
    (∀ order', preorder (friends_of h) ∅ [root] order' → order' = order) ∧
    NoDup order ∧
    (∀ a, a ∈ order ↔ reachable h root a) ∧
    head order = Some root.
Proof.
  intros Hcl Hu Hroot.
  destruct (serialize_preorder h root Hcl Hu Hroot)
    as (order & objs & Hpre & Hflat & Hrun).
  destruct (preorder_root _ _ _ Hpre) as (Hnd & Hreach & Hhead).
  exists order, objs. split_and!; try done.
  - intros fuel Hfuel. by apply Hrun.
  - eapply Forall2_impl; [done|]. intros a r Hr. cbn in Hr.
    unfold flat_of in Hr. destruct (h !! a) as [p|] eqn:Hp; [|done].
    cbn in Hr. injection Hr as <-.
    destruct (to_dict_flat_of h a p Hcl Hp) as (r' & Hr' & Hf).
    unfold flat_of in Hf. rewrite Hp in Hf. cbn in Hf. injection Hf as <-.
    split; [done|]. by exists p.
  - intros order' Hpre'. by eapply preorder_det.
Qed.

(** On the triangle of the test suite, read from Ivan: Ivan, then his first
    friend Maria, then Alexey, reached through Maria; the output is the
    three records of the test suite in that order. *)
Lemma serialize_first_visit_order_witness :
  ∃ order objs,
    Encapsulated.serialize 4 triangle 0 = Done objs ∧
    Forall2 (λ a r, Encapsulated.to_dict triangle a = Done r) order objs ∧
    order = [0; 1; 2] ∧
    objs = [ivan_record; maria_record; alexey_record].
Proof.
  destruct (serialize_first_visit_order triangle 0)
    as (order & objs & Hrun & Hflat & Hpre & Hdet & _).
  - apply built_invariants, triangle_built.
  - apply built_invariants, triangle_built.
  - cbn. lia.
  - exists order, objs.
    assert (Hobjs : Encapsulated.serialize 4 triangle 0 = Done objs)
      by (apply (Hrun 4); cbn; lia).
    split_and!; [done| | |].
    + eapply Forall2_impl; [exact Hflat|]. by intros a r [? _].
    + symmetry. apply Hdet.
      eapply preorder_new; [set_solver|reflexivity|]. cbn.
      eapply preorder_new; [set_solver|reflexivity|]. cbn.
      apply preorder_seen; [set_solver|].
      eapply preorder_new; [set_solver|reflexivity|]. cbn.
      apply preorder_seen; [set_solver|].
      apply preorder_seen; [set_solver|].
      apply preorder_seen; [set_solver|].
      constructor.
    + assert (Hc : Encapsulated.serialize 4 triangle 0
                   = Done [ivan_record; maria_record; alexey_record])
        by reflexivity.
      congruence.
Defined.

(** ** The two-phase builder of the object-oriented variants *)

Lemma for_each_app {A S} (f : A → S → outcome S) l1 l2 s :
  for_each f (l1 ++ l2) s = for_each f l1 s ≫= for_each f l2.
Proof.
  revert s. induction l1 as [|x l1 IH]; intros s; cbn; [done|].
  destruct (f x s); cbn; auto.
Qed.

Lemma for_each_snoc {A S} (f : A → S → outcome S) l x s :
  for_each f (l ++ [x]) s = for_each f l s ≫= f x.
Proof.
  rewrite for_each_app. destruct (for_each f l s); cbn; [|done..].
  by destruct (f x a).
Qed.

Lemma getitem_Some {V} (c : gmap string V) k v :
  c !! k = Some v → getitem c k = Done v.
Proof. unfold getitem. by intros ->. Qed.

Lemma getitem_None {V} (c : gmap string V) k :
  c !! k = None → getitem c k = Raise (KeyError k).
Proof. unfold getitem. by intros ->. Qed.

(** A comprehension of lookups returns the values in order, or raises the
    [KeyError] of the first missing key. *)
Lemma comprehension_getitem {V} (c : gmap string V) js :
  match first_missing c js with
  | Some k => comprehension (getitem c) js = Raise (KeyError k) ∧
              k ∈ js ∧ c !! k = None
  | None => ∃ vs, comprehension (getitem c) js = Done vs ∧
                  Forall2 (λ v j, c !! j = Some v) vs js
  end.
Proof.
  unfold first_missing. induction js as [|j js IH]; cbn.
  - exists []. split; [done|constructor].
  - destruct (c !! j) as [v|] eqn:Hj.
    + rewrite decide_False by done. rewrite (getitem_Some _ _ _ Hj). cbn.
      destruct (list_find _ js) as [[n k]|]; cbn in *.
      * destruct IH as (-> & ? & ?). split_and!; [done|set_solver|done].
      * destruct IH as (vs & -> & ?). exists (v :: vs). split; [done|].
        by constructor.
    + rewrite decide_True by done. cbn. rewrite (getitem_None _ _ Hj).
      split_and!; [done|set_solver|done].
Qed.

Section oop_builder.
Context `{DateTimeText}.

Lemma from_dict_bare (r : FlatRecord) d :
  fromisoformat (fr_born_in r) = Some d →
  Encapsulated.from_dict r = Done (bare r d).
Proof.
  intros Hd. unfold Encapsulated.from_dict, parse_datetime. by rewrite Hd.
Qed.

(** The two variants create and link in the same way. *)
Lemma direct_access_create_object r st :
  DirectAccess.create_object r st = Encapsulated.create_object r st.
Proof.
  unfold DirectAccess.create_object, Encapsulated.create_object,
    Encapsulated.from_dict.
  by destruct (parse_datetime (fr_born_in r)).
Qed.

Lemma direct_access_deserialize objs :
  DirectAccess.deserialize objs = Encapsulated.deserialize objs.
Proof.
  unfold DirectAccess.deserialize, Encapsulated.deserialize.
  by rewrite (for_each_ext _ _ _ _ direct_access_create_object).
Qed.

Lemma phase1_created objs :
  timestamps_ok objs →
  ∃ h c, for_each Encapsulated.create_object objs ([], ∅) = Done (h, c) ∧
         created objs h c.
Proof.
  induction objs as [|r objs IH] using rev_ind; intros Hts.
  - exists [], ∅. split; [done|]. split_and!; [done|..].
    + intros n r Hr. by rewrite lookup_nil in Hr.
    + done.
    + intros i Hi. by apply elem_of_nil in Hi.
  - destruct IH as (h & c & Hrun & Hlen & Hbare & Hnone & Hsome).
    { intros r' Hr'. apply Hts. set_solver. }
    destruct (Hts r) as [d Hd]; [set_solver|].
    exists (h ++ [bare r d]), (<[fr_id r := length h]> c). split.
    { rewrite for_each_snoc, Hrun. cbn.
      unfold Encapsulated.create_object. by rewrite (from_dict_bare _ _ Hd). }
    split_and!.
    + rewrite !length_app. cbn. lia.
    + intros n r' Hr'. apply lookup_app_Some in Hr' as [Hr'|[Hn Hr']].
      * destruct (Hbare n r' Hr') as (d' & ? & ?). exists d'.
        split; [done|]. by apply lookup_app_l_Some.
      * apply list_lookup_singleton_Some in Hr' as [Hn' <-].
        exists d. split; [done|].
        assert (n = length h) as -> by lia.
        by rewrite lookup_app_r, Nat.sub_diag by lia.
    + intros i Hi. unfold record_ids in Hi. rewrite fmap_app in Hi.
      rewrite lookup_insert_ne by set_solver. apply Hnone. set_solver.
    + intros i Hi. destruct (decide (i = fr_id r)) as [->|Hne].
      * exists (length h). rewrite lookup_insert_eq. split; [done|]. split.
        -- exists r. split; [|done].
           by rewrite lookup_app_r, Hlen, Nat.sub_diag by lia.
        -- intros m r' Hr' _. apply lookup_lt_Some in Hr'.
           rewrite length_app in Hr'. cbn in Hr'. lia.
      * unfold record_ids in Hi. rewrite fmap_app in Hi.
        destruct (Hsome i) as (n & Hn & (r' & Hr' & Hid) & Hlast);
          [set_solver|].
        exists n. rewrite lookup_insert_ne by done. split; [done|]. split.
        -- exists r'. split; [|done]. by apply lookup_app_l_Some.
        -- intros m r'' Hr'' Hid''.
           apply lookup_app_Some in Hr'' as [Hr''|[_ Hr'']]; [eauto|].
           apply list_lookup_singleton_Some in Hr'' as [_ <-]. done.
Qed.

Lemma phase2_relinked (c : gmap string addr) rs (h1 : heap) :
  (∀ r, r ∈ rs → ∃ a, c !! fr_id r = Some a ∧ a < length h1) →
  (∀ r j, r ∈ rs → j ∈ fr_friends r → is_Some (c !! j)) →
  ∃ h, for_each (Encapsulated.link_object c) rs h1 = Done h ∧
       relinked c rs h1 h.
Proof.
  induction rs as [|r0 rs IH] using rev_ind; intros Htgt Hrefs.
  - exists h1. split; [done|]. split; [done|]. intros a p1 Hp1.
    exists p1. split_and!; try done. right. split; [|done].
    intros r Hr. by apply elem_of_nil in Hr.
  - destruct IH as (h & Hrun & Hlen & Hinv).
    { intros r Hr. apply Htgt. set_solver. }
    { intros r j Hr. apply Hrefs. set_solver. }
    destruct (Htgt r0) as (a0 & Ha0 & Hlt); [set_solver|].
    pose proof (comprehension_getitem c (fr_friends r0)) as Hcomp.
    destruct (first_missing c (fr_friends r0)) as [k|].
    { destruct Hcomp as (_ & Hk & Hnone).
      destruct (Hrefs r0 k) as [v Hv]; [set_solver|done|congruence]. }
    destruct Hcomp as (fs & Hfs & Hlinked).
    destruct (lookup_lt_is_Some_2 h a0) as [p0 Hp0]; [lia|].
    exists (<[a0 := set_friends p0 fs]> h). split.
    { rewrite for_each_snoc, Hrun. cbn. unfold Encapsulated.link_object.
      rewrite (getitem_Some _ _ _ Ha0). cbn. rewrite Hfs. cbn.
      by rewrite (deref_Some _ _ _ Hp0). }
    split; [by rewrite length_insert|]. intros a p1 Hp1.
    destruct (Hinv a p1 Hp1) as (p & Hp & Hsame & Hcases).
    destruct (decide (a = a0)) as [->|Hne].
    + exists (set_friends p0 fs). assert (p = p0) as -> by congruence.
      split_and!; [by apply list_lookup_insert_eq; lia|done|].
      left. exists (length rs), r0. split_and!.
      * by rewrite lookup_app_r, Nat.sub_diag by lia.
      * done.
      * intros m r' Hr' _. apply lookup_lt_Some in Hr'.
        rewrite length_app in Hr'. cbn in Hr'. lia.
      * done.
    + exists p. split_and!; [by rewrite list_lookup_insert_ne|done|].
      destruct Hcases as [(k & r & Hr & Hc & Hmax & Hl)|[Hno Hfr]].
      * left. exists k, r. split_and!; [by apply lookup_app_l_Some|done| |done].
        intros m r' Hr' Hc'.
        apply lookup_app_Some in Hr' as [Hr'|[_ Hr']]; [eauto|].
        apply list_lookup_singleton_Some in Hr' as [_ <-]. congruence.
      * right. split; [|done].
        intros r [Hr|Hr%list_elem_of_singleton]%elem_of_app; [auto|].
        subst. congruence.
Qed.

(** The builder on a container whose timestamps parse and whose friend ids
    all occur as record ids: it returns whether or not ids repeat, and the
    root is the object filed under the id of the first record. *)
Lemma deserialize_rebuilt objs first :
  timestamps_ok objs → references_ok objs → head objs = Some first →
  ∃ h c root,
    Encapsulated.deserialize objs = Done (h, root) ∧
    rebuilt objs h c ∧ c !! fr_id first = Some root.
Proof.
  intros Hts Hrefs Hfirst.
  destruct (phase1_created objs Hts) as (h1 & c & Hrun1 & Hcr).
  pose proof Hcr as (Hlen1 & Hbare & Hnone & Hsome).
  destruct (phase2_relinked c objs h1) as (h & Hrun2 & Hlen2 & Hinv).
  { intros r Hr.
    destruct (Hsome (fr_id r)) as (n & Hn & (r' & Hr' & _) & _).
    { unfold record_ids. set_solver. }
    exists n. split; [done|]. apply lookup_lt_Some in Hr'. lia. }
  { intros r j Hr Hj.
    destruct (Hsome j) as (n & Hn & _); [by eapply Hrefs|]. by exists n. }
  destruct (Hsome (fr_id first)) as (root & Hroot & _).
  { destruct objs; simplify_eq/=. unfold record_ids. set_solver. }
  exists h, c, root. split_and!; [|split_and!; [lia|done|]|done].
  { unfold Encapsulated.deserialize. rewrite Hrun1. cbn. rewrite Hrun2. cbn.
    destruct objs; simplify_eq/=. by rewrite (getitem_Some _ _ _ Hroot). }
  intros i Hi. destruct (Hsome i Hi) as (n & Hn & Hlast).
  pose proof Hlast as ((r & Hr & Hid) & Hmax).
  destruct (Hbare n r Hr) as (d & Hd & Hh1).
  destruct (Hinv n _ Hh1) as (p & Hp & (Hsid & Hsname & Hsborn) & Hcases).
  exists n, r, p. split_and!; try done.
  { split_and!; [done|done|]. cbn in Hsborn. by rewrite Hsborn. }
  destruct Hcases as [(k & r' & Hr' & Hc' & Hmax' & Hl)|[Hno _]].
  - assert (fr_id r' = i) as Hid'.
    { destruct (Hsome (fr_id r')) as (n' & Hn' & (r'' & Hr'' & Hid'') & _).
      { unfold record_ids. apply list_elem_of_fmap. exists r'.
        split; [done|]. by eapply list_elem_of_lookup_2. }
      assert (n' = n) as -> by congruence. congruence. }
    assert (k = n) as ->.
    { apply Nat.le_antisymm; [by eapply Hmax|].
      eapply Hmax'; [done|]. congruence. }
    congruence.
  - exfalso. eapply (Hno r); [by eapply list_elem_of_lookup_2|congruence].
Qed.

(** Phase 2 stops at the first friend id that is not in the cache. *)
Lemma phase2_dangling (c : gmap string addr) rs (h : heap) :
  (∀ r, r ∈ rs → ∃ a, c !! fr_id r = Some a ∧ a < length h) →
  (∃ r j, r ∈ rs ∧ j ∈ fr_friends r ∧ c !! j = None) →
  ∃ k, for_each (Encapsulated.link_object c) rs h = Raise (KeyError k) ∧
       c !! k = None ∧ ∃ r, r ∈ rs ∧ k ∈ fr_friends r.
Proof.
  revert h. induction rs as [|r0 rs IH]; intros h Htgt (r & j & Hr & Hj & Hnone).
  { by apply elem_of_nil in Hr. }
  destruct (Htgt r0) as (a0 & Ha0 & Hlt); [set_solver|].
  rewrite for_each_cons.
  pose proof (comprehension_getitem c (fr_friends r0)) as Hcomp.
  destruct (first_missing c (fr_friends r0)) as [k|].
  - destruct Hcomp as (Hcomp & Hk & Hknone). exists k.
    assert (Encapsulated.link_object c r0 h = Raise (KeyError k)) as ->.
    { unfold Encapsulated.link_object.
      rewrite (getitem_Some _ _ _ Ha0). cbn. by rewrite Hcomp. }
    split_and!; [done..|]. exists r0. set_solver.
  - destruct Hcomp as (fs & Hcomp & Hlinked).
    destruct (lookup_lt_is_Some_2 h a0) as [p0 Hp0]; [lia|].
    assert (Encapsulated.link_object c r0 h
            = Done (<[a0:=set_friends p0 fs]> h)) as ->.
    { unfold Encapsulated.link_object.
      rewrite (getitem_Some _ _ _ Ha0). cbn. rewrite Hcomp. cbn.
      by rewrite (deref_Some _ _ _ Hp0). }
    rewrite bind_Done.
    destruct (IH (<[a0:=set_friends p0 fs]> h)) as (k & Hrun & Hk & r' & Hr' & Hkr').
    + intros r' Hr'. rewrite length_insert. apply Htgt. set_solver.
    + apply elem_of_cons in Hr as [->|Hr]; [|by eauto].
      exfalso. apply list_elem_of_lookup in Hj as [n Hn].
      destruct (Forall2_lookup_r _ _ _ _ _ Hlinked Hn) as (f & _ & Hf).
      congruence.
    + exists k. split_and!; [done..|]. exists r'. set_solver.
Qed.

(** The builder on a container with a dangling friend id. *)
Lemma deserialize_dangling objs :
  timestamps_ok objs → dangling objs →
  ∃ k, Encapsulated.deserialize objs = Raise (KeyError k) ∧
       (k ∉ record_ids objs) ∧ ∃ r, r ∈ objs ∧ k ∈ fr_friends r.
Proof.
  intros Hts (r & j & Hr & Hj & Hout).
  destruct (phase1_created objs Hts) as (h1 & c & Hrun1 & Hcr).
  pose proof Hcr as (Hlen1 & Hbare & Hnone & Hsome).
  destruct (phase2_dangling c objs h1) as (k & Hrun2 & Hk & Hkr).
  { intros r' Hr'.
    destruct (Hsome (fr_id r')) as (n & Hn & (r'' & Hr'' & _) & _).
    { unfold record_ids. set_solver. }
    exists n. split; [done|]. apply lookup_lt_Some in Hr''. lia. }
  { exists r, j. auto. }
  exists k. split_and!; [|
    intros Hin; destruct (Hsome k Hin) as (n & Hn & _); congruence|done].
  unfold Encapsulated.deserialize. rewrite Hrun1. cbn. by rewrite Hrun2.
Qed.

(** In a rebuilt heap an object shows the ids listed in its record. *)
Lemma rebuilt_friend_ids objs (h : heap) c p js :
  rebuilt objs h c → linked c p js → (∀ j, j ∈ js → j ∈ record_ids objs) →
  friend_ids h p = js.
Proof.
  intros (_ & _ & Hsome) Hl Hin. unfold friend_ids, linked in *.
  induction Hl as [|f j fs js Hf _ IH]; [done|]. cbn.
  destruct (Hsome j) as (n & r & q & Hn & ((r' & Hr' & Hid) & _) & Hr & Hq & (Hqid & _) & _);
    [set_solver|].
  assert (n = f) as -> by congruence. rewrite Hq. cbn.
  rewrite IH by set_solver. f_equal. congruence.
Qed.

Lemma rebuilt_view objs (h : heap) c r :
  rebuilt objs h c → references_ok objs → NoDup (record_ids objs) →
  r ∈ objs →
  ∃ d, fromisoformat (fr_born_in r) = Some d ∧
       view h c (fr_id r) = Some (fr_id r, fr_name r, d, fr_friends r).
Proof.
  intros Hrb Hrefs Hnd Hr. pose proof Hrb as (_ & _ & Hsome).
  destruct (Hsome (fr_id r)) as (n & r' & p & Hn & ((r'' & Hr'' & Hid) & _) & Hr' & Hp & (Hpid & Hpname & Hpborn) & Hl).
  { unfold record_ids. set_solver. }
  assert (r' = r) as ->.
  { apply list_elem_of_lookup in Hr as [m Hm].
    assert (m = n) as ->; [|congruence].
    eapply NoDup_lookup; [done| |].
    - unfold record_ids. by rewrite list_lookup_fmap, Hm.
    - unfold record_ids. rewrite list_lookup_fmap, Hr'. cbn. congruence. }
  exists (_born_in p). split; [done|]. unfold view. rewrite Hn. cbn.
  rewrite Hp. cbn.
  rewrite (rebuilt_friend_ids objs h c p (fr_friends r)); [|done..|].
  - by rewrite Hpid, Hpname.
  - intros j Hj. by eapply Hrefs.
Qed.
End oop_builder.

(** ** The two-phase builder of the functional variant *)

Lemma pydict_get_elem_of {V} (d : pydict V) k v :
  NoDup d.*1 → (k, v) ∈ d → pydict_get d k = Some v.
Proof.
  induction d as [|[k' v'] d IH]; intros Hnd Hin; [by apply elem_of_nil in Hin|].
  cbn in *. apply NoDup_cons in Hnd as [Hk' Hnd].
  apply elem_of_cons in Hin as [[= -> ->]|Hin].
  - by rewrite decide_True.
  - rewrite decide_False; [by apply IH|].
    intros ->. apply Hk'. apply list_elem_of_fmap. by exists (k', v).
Qed.

Lemma pydict_set_NoDup {V} (d : pydict V) k v :
  NoDup d.*1 → NoDup (pydict_set d k v).*1.
Proof.
  intros Hnd. rewrite pydict_set_keys. case_decide; [done|].
  apply NoDup_app. split_and!; [done|set_solver|apply NoDup_singleton].
Qed.

Lemma pydict_values_get {V} (d : pydict V) v :
  NoDup d.*1 → v ∈ pydict_values d → ∃ k, pydict_get d k = Some v.
Proof.
  intros Hnd ([k v'] & -> & Hin)%list_elem_of_fmap. exists k.
  by apply pydict_get_elem_of.
Qed.

Lemma pydict_get_values {V} (d : pydict V) k v :
  pydict_get d k = Some v → v ∈ pydict_values d.
Proof.
  unfold pydict_values. induction d as [|[k' v'] d IH]; cbn; [done|].
  case_decide; [intros [= ->]|]; set_solver.
Qed.

(** Different keys with different values: the values do not repeat. *)
Lemma pydict_values_NoDup {V} (d : pydict V) :
  NoDup d.*1 →
  (∀ k1 k2 v, pydict_get d k1 = Some v → pydict_get d k2 = Some v → k1 = k2) →
  NoDup (pydict_values d).
Proof.
  unfold pydict_values. induction d as [|[k v] d IH]; intros Hnd Hinj; cbn.
  { constructor. }
  cbn in Hnd. apply NoDup_cons in Hnd as [Hk Hnd]. constructor.
  - intros ([k' v'] & Hv & Hin)%list_elem_of_fmap. cbn in Hv. subst v'.
    assert (k' ≠ k).
    { intros ->. apply Hk. apply list_elem_of_fmap. by exists (k, v). }
    assert (k = k'); [|done]. apply (Hinj k k' v); cbn.
    + by rewrite decide_True.
    + rewrite decide_False by done. by apply pydict_get_elem_of.
  - apply IH; [done|]. intros k1 k2 v' H1 H2.
    assert (k1 ≠ k).
    { intros ->. apply Hk. by eapply pydict_get_Some_keys. }
    assert (k2 ≠ k).
    { intros ->. apply Hk. by eapply pydict_get_Some_keys. }
    apply (Hinj k1 k2 v'); cbn; by rewrite decide_False.
Qed.

(** The comprehension of phase 2 on an entry that holds ids. *)
Lemma comprehension_pydict_getitem {V} (d : pydict V) js :
  match list_find (λ j, pydict_get d j = None) js with
  | Some (_, k) =>
      comprehension
        (λ v, match v with
              | PyStr friend_id => pydict_getitem d friend_id
              | PyRef _ => Raise TypeError
              end) (PyStr <$> js) = Raise (KeyError k) ∧
      k ∈ js ∧ pydict_get d k = None
  | None =>
      ∃ vs, comprehension
              (λ v, match v with
                    | PyStr friend_id => pydict_getitem d friend_id
                    | PyRef _ => Raise TypeError
                    end) (PyStr <$> js) = Done vs ∧
            Forall2 (λ v j, pydict_get d j = Some v) vs js
  end.
Proof.
  induction js as [|j js IH]; cbn.
  - exists []. split; [done|constructor].
  - destruct (pydict_get d j) as [v|] eqn:Hj.
    + rewrite decide_False by done. rewrite (pydict_getitem_Some _ _ _ Hj).
      cbn. destruct (list_find _ js) as [[n k]|]; cbn in *.
      * destruct IH as (-> & ? & ?). split_and!; [done|set_solver|done].
      * destruct IH as (vs & -> & ?). exists (v :: vs). split; [done|].
        by constructor.
    + rewrite decide_True by done. cbn. rewrite (pydict_getitem_None _ _ Hj).
      split_and!; [done|set_solver|done].
Qed.

Section functional_builder.
Context `{DateTimeText}.
Import Functional.
Variable factory : string → datetime → PersonData.

Lemma fphase1_created objs :
  timestamps_ok objs →
  ∃ h d, for_each (create_object factory) objs ([], []) = Done (h, d) ∧
         fcreated factory objs h d.
Proof.
  induction objs as [|r objs IH] using rev_ind; intros Hts.
  - exists [], []. split; [done|]. split_and!; [done| |constructor|done|].
    + intros n r Hr. by rewrite lookup_nil in Hr.
    + intros i Hi. by apply elem_of_nil in Hi.
  - destruct IH as (h & d & Hrun & Hlen & Hbare & Hnd & Hnone & Hsome).
    { intros r' Hr'. apply Hts. set_solver. }
    destruct (Hts r) as [t Ht]; [set_solver|].
    exists (h ++ [fbare factory r t]), (pydict_set d (fr_id r) (length h)).
    split.
    { rewrite for_each_snoc, Hrun. cbn.
      unfold create_object, parse_datetime. by rewrite Ht. }
    split_and!.
    + rewrite !length_app. cbn. lia.
    + intros n r' Hr'. apply lookup_app_Some in Hr' as [Hr'|[Hn Hr']].
      * destruct (Hbare n r' Hr') as (t' & ? & ?). exists t'.
        split; [done|]. by apply lookup_app_l_Some.
      * apply list_lookup_singleton_Some in Hr' as [Hn' <-].
        exists t. split; [done|].
        assert (n = length h) as -> by lia.
        by rewrite lookup_app_r, Nat.sub_diag by lia.
    + by apply pydict_set_NoDup.
    + intros i Hi. unfold record_ids in Hi. rewrite fmap_app in Hi.
      rewrite pydict_get_set, decide_False by set_solver.
      apply Hnone. set_solver.
    + intros i Hi. rewrite pydict_get_set.
      destruct (decide (i = fr_id r)) as [->|Hne].
      * exists (length h). split; [done|]. split.
        -- exists r. split; [|done].
           by rewrite lookup_app_r, Hlen, Nat.sub_diag by lia.
        -- intros m r' Hr' _. apply lookup_lt_Some in Hr'.
           rewrite length_app in Hr'. cbn in Hr'. lia.
      * unfold record_ids in Hi. rewrite fmap_app in Hi.
        destruct (Hsome i) as (n & Hn & (r' & Hr' & Hid) & Hlast);
          [set_solver|].
        exists n. split; [done|]. split.
        -- exists r'. split; [|done]. by apply lookup_app_l_Some.
        -- intros m r'' Hr'' Hid''.
           apply lookup_app_Some in Hr'' as [Hr''|[_ Hr'']]; [eauto|].
           apply list_lookup_singleton_Some in Hr'' as [_ <-]. done.
Qed.

(** One iteration of phase 2 on a dict whose 'friends' entry holds ids. *)
Lemma link_object_ids (d : pydict addr) (h : pheap) a p js :
  h !! a = Some p → pd_friends p = PyStr <$> js →
  match list_find (λ j, pydict_get d j = None) js with
  | Some (_, k) => link_object d a h = Raise (KeyError k) ∧
                   k ∈ js ∧ pydict_get d k = None
  | None => ∃ fs, link_object d a h =
                    Done (<[a := mkData (pd_id p) (pd_name p) (pd_born_in p)
                                       (PyRef <$> fs)]> h) ∧
                  Forall2 (λ f j, pydict_get d j = Some f) fs js
  end.
Proof.
  intros Hp Hfr. unfold link_object. rewrite (pderef_Some _ _ _ Hp). cbn.
  rewrite Hfr. pose proof (comprehension_pydict_getitem d js) as Hcomp.
  destruct (list_find _ js) as [[n k]|].
  - destruct Hcomp as (-> & ? & ?). done.
  - destruct Hcomp as (fs & -> & ?). exists fs. done.
Qed.

Lemma fphase2_linked (d : pydict addr) vals (h : pheap) :
  NoDup vals →
  (∀ a, a ∈ vals → ∃ p js, h !! a = Some p ∧ pd_friends p = PyStr <$> js ∧
                           ∀ j, j ∈ js → is_Some (pydict_get d j)) →
  ∃ h', for_each (link_object d) vals h = Done h' ∧
        length h' = length h ∧
        (∀ a, a ∉ vals → h' !! a = h !! a) ∧
        ∀ a p js, a ∈ vals → h !! a = Some p → pd_friends p = PyStr <$> js →
          ∃ fs, h' !! a = Some (mkData (pd_id p) (pd_name p) (pd_born_in p)
                                       (PyRef <$> fs)) ∧
                Forall2 (λ f j, pydict_get d j = Some f) fs js.
Proof.
  revert h. induction vals as [|a0 vals IH]; intros h Hnd Hall.
  { exists h. split_and!; [done..|]. intros a p js Ha. by apply elem_of_nil in Ha. }
  apply NoDup_cons in Hnd as [Ha0 Hnd].
  destruct (Hall a0) as (p0 & js0 & Hp0 & Hfr0 & Hin0); [set_solver|].
  pose proof (link_object_ids d h a0 p0 js0 Hp0 Hfr0) as Hlink.
  destruct (list_find _ js0) as [[n k]|].
  { destruct Hlink as (_ & Hk & Hnone). destruct (Hin0 k Hk). congruence. }
  destruct Hlink as (fs0 & Hlink & Hfs0).
  assert (a0 < length h) by (by eapply lookup_lt_Some).
  destruct (IH (<[a0:=mkData (pd_id p0) (pd_name p0) (pd_born_in p0)
                             (PyRef <$> fs0)]> h) Hnd)
    as (h' & Hrun & Hlen & Hframe & Hlinked).
  { intros a Ha. rewrite list_lookup_insert_ne by set_solver.
    apply Hall. set_solver. }
  exists h'. split_and!.
  - by rewrite for_each_cons, Hlink, bind_Done.
  - by rewrite Hlen, length_insert.
  - intros a Ha. rewrite Hframe by set_solver.
    rewrite list_lookup_insert_ne by set_solver. done.
  - intros a p js [->|Ha]%elem_of_cons Hp Hfr.
    + simplify_eq. rewrite Hfr0 in Hfr. apply (inj (fmap PyStr)) in Hfr as <-.
      exists fs0. split; [|done]. rewrite Hframe by done.
      by rewrite list_lookup_insert_eq.
    + apply (Hlinked a p js Ha); [|done].
      rewrite list_lookup_insert_ne by set_solver. done.
Qed.

(** Phase 2 either links every listed dict or stops at the first friend id
    that is not filed. *)
Lemma fphase2_outcome (d : pydict addr) vals (h : pheap) :
  NoDup vals →
  (∀ a, a ∈ vals → ∃ p js, h !! a = Some p ∧ pd_friends p = PyStr <$> js) →
  (∃ h', for_each (link_object d) vals h = Done h' ∧
         ∀ a p js j, a ∈ vals → h !! a = Some p →
                     pd_friends p = PyStr <$> js → j ∈ js →
                     is_Some (pydict_get d j)) ∨
  (∃ k, for_each (link_object d) vals h = Raise (KeyError k) ∧
        pydict_get d k = None ∧
        ∃ a p js, a ∈ vals ∧ h !! a = Some p ∧
                  pd_friends p = PyStr <$> js ∧ k ∈ js).
Proof.
  revert h. induction vals as [|a0 vals IH]; intros h Hnd Hall.
  { left. exists h. split; [done|]. intros a p js j Ha. by apply elem_of_nil in Ha. }
  apply NoDup_cons in Hnd as [Ha0 Hnd].
  destruct (Hall a0) as (p0 & js0 & Hp0 & Hfr0); [set_solver|].
  pose proof (link_object_ids d h a0 p0 js0 Hp0 Hfr0) as Hlink.
  rewrite for_each_cons.
  destruct (list_find _ js0) as [[n k]|] eqn:Hfind.
  { destruct Hlink as (-> & Hk & Hnone). right. exists k.
    split_and!; [done..|]. exists a0, p0, js0. split_and!; [set_solver|done..]. }
  destruct Hlink as (fs0 & -> & Hfs0). rewrite bind_Done.
  assert (a0 < length h) by (by eapply lookup_lt_Some).
  destruct (IH (<[a0:=mkData (pd_id p0) (pd_name p0) (pd_born_in p0)
                             (PyRef <$> fs0)]> h) Hnd)
    as [(h' & -> & Hres)|(k & -> & Hnone & a & p & js & Ha & Hp & Hfr & Hk)].
  { intros a Ha. rewrite list_lookup_insert_ne by set_solver.
    apply Hall. set_solver. }
  - left. exists h'. split; [done|].
    intros a p js j [->|Ha]%elem_of_cons Hp Hfr Hj.
    + simplify_eq. rewrite Hfr0 in Hfr. apply (inj (fmap PyStr)) in Hfr as <-.
      apply list_elem_of_lookup in Hj as [m Hm].
      destruct (Forall2_lookup_r _ _ _ _ _ Hfs0 Hm) as (f & _ & Hf). eauto.
    + apply (Hres a p js j Ha); [|done..].
      rewrite list_lookup_insert_ne by set_solver. done.
  - right. exists k. split_and!; [done..|]. exists a, p, js.
    rewrite list_lookup_insert_ne in Hp by set_solver.
    split_and!; [set_solver|done..].
Qed.

(** What phase 1 leaves for phase 2 to walk over. *)
Lemma fcreated_values objs (h : pheap) d :
  fcreated factory objs h d →
  NoDup (pydict_values d) ∧
  ∀ a, a ∈ pydict_values d →
    ∃ r t, objs !! a = Some r ∧ pydict_get d (fr_id r) = Some a ∧
           h !! a = Some (fbare factory r t).
Proof.
  intros (Hlen & Hbare & Hnd & Hnone & Hsome).
  assert (Hget : ∀ i a, pydict_get d i = Some a → last_index_of i objs a).
  { intros i a Hi. destruct (decide (i ∈ record_ids objs)) as [Hin|Hout].
    - destruct (Hsome i Hin) as (n & Hn & Hlast). congruence.
    - rewrite Hnone in Hi by done. done. }
  split.
  - apply pydict_values_NoDup; [done|]. intros k1 k2 v H1 H2.
    destruct (Hget k1 v H1) as ((r1 & Hr1 & <-) & _).
    destruct (Hget k2 v H2) as ((r2 & Hr2 & <-) & _). congruence.
  - intros a [i Hi]%pydict_values_get; [|done].
    destruct (Hget i a Hi) as ((r & Hr & <-) & _).
    destruct (Hbare a r Hr) as (t & _ & Ht). by exists r, t.
Qed.

(** [deserialize_functional] on a container whose timestamps parse, whose
    friend ids all occur as record ids and whose root id is a record id: it
    returns whether or not ids repeat. *)
Lemma deserialize_functional_rebuilt (c : Container) :
  timestamps_ok (objects c) → references_ok (objects c) →
  root_id c ∈ record_ids (objects c) →
  ∃ h d root,
    deserialize_functional factory c = Done (h, root, d) ∧
    frebuilt factory (objects c) h d ∧
    pydict_get d (root_id c) = Some root.
Proof.
  intros Hts Hrefs Hroot.
  destruct (fphase1_created (objects c) Hts) as (h1 & d & Hrun1 & Hcr).
  destruct (fcreated_values _ _ _ Hcr) as (Hndv & Hvals).
  pose proof Hcr as (Hlen1 & Hbare & Hnd & Hnone & Hsome).
  destruct (fphase2_linked d (pydict_values d) h1 Hndv)
    as (h & Hrun2 & Hlen2 & Hframe & Hlinked).
  { intros a Ha. destruct (Hvals a Ha) as (r & t & Hr & Hd & Hh).
    exists (fbare factory r t), (fr_friends r). split_and!; [done..|].
    intros j Hj. destruct (Hsome j) as (n & Hn & _); [|by exists n].
    eapply Hrefs; [|done]. by eapply list_elem_of_lookup_2. }
  destruct (Hsome (root_id c) Hroot) as (root & Hget & _).
  exists h, d, root. split_and!; [|split_and!; [lia|done|]|done].
  { unfold deserialize_functional. rewrite Hrun1, bind_Done. cbn [fst snd].
    rewrite Hrun2, bind_Done. by rewrite (pydict_getitem_Some _ _ _ Hget). }
  intros i Hi. destruct (Hsome i Hi) as (n & Hn & Hlast).
  pose proof Hlast as ((r & Hr & Hid) & _).
  destruct (Hbare n r Hr) as (t & Ht & Hh1).
  destruct (Hlinked n _ (fr_friends r) (pydict_get_values _ _ _ Hn) Hh1 eq_refl)
    as (fs & Hh & Hfs).
  eexists n, r, _. split_and!; [done..| |].
  - exists t. by split_and!.
  - by exists fs.
Qed.

End functional_builder.

Lemma last_index_of_unique i objs n m :
  last_index_of i objs n → last_index_of i objs m → n = m.
Proof.
  intros [(r & Hr & Hid) Hn] [(r' & Hr' & Hid') Hm].
  pose proof (Hn m r' Hr' Hid'). pose proof (Hm n r Hr Hid). lia.
Qed.

(** With distinct record ids every record is kept. *)
Lemma dangling_kept_NoDup objs :
  NoDup (record_ids objs) → dangling_kept objs ↔ dangling objs.
Proof.
  intros Hnd. split.
  - intros (r & j & (n & Hn & _) & Hj & Hout). exists r, j.
    split_and!; [by eapply list_elem_of_lookup_2|done..].
  - intros (r & j & [n Hn]%list_elem_of_lookup & Hj & Hout). exists r, j.
    split_and!; [|done..]. exists n. split; [done|]. split; [by exists r|].
    intros m r' Hr' Hid. assert (m = n); [|lia].
    eapply NoDup_lookup; [exact Hnd| |]; unfold record_ids;
      rewrite list_lookup_fmap.
    + by rewrite Hr'.
    + rewrite Hn. cbn. congruence.
Qed.

Section functional_builder_kept.
Context `{DateTimeText}.
Import Functional.
Variable factory : string → datetime → PersonData.

(** The values of [persons_dict] after phase 1 are the kept records. *)
Lemma fcreated_kept objs (h : pheap) d :
  fcreated factory objs h d →
  (∀ a, a ∈ pydict_values d →
     ∃ r t, kept objs r ∧ objs !! a = Some r ∧
            h !! a = Some (fbare factory r t)) ∧
  (∀ r, kept objs r →
     ∃ a t, a ∈ pydict_values d ∧ objs !! a = Some r ∧
            h !! a = Some (fbare factory r t)).
Proof.
  intros Hcr. destruct (fcreated_values factory _ _ _ Hcr) as (_ & Hvals).
  destruct Hcr as (Hlen & Hbare & Hnd & Hnone & Hsome).
  assert (Hin : ∀ n r, objs !! n = Some r → fr_id r ∈ record_ids objs).
  { intros n r Hr. unfold record_ids. apply list_elem_of_fmap. exists r.
    split; [done|]. by eapply list_elem_of_lookup_2. }
  split.
  - intros a Ha. destruct (Hvals a Ha) as (r & t & Hr & Hd & Hh).
    exists r, t. split_and!; [|done..]. exists a. split; [done|].
    destruct (Hsome (fr_id r) (Hin _ _ Hr)) as (n & Hn & Hlast). congruence.
  - intros r (n & Hr & Hlast).
    destruct (Hsome (fr_id r) (Hin _ _ Hr)) as (n' & Hn' & Hlast').
    assert (n' = n) as -> by (by eapply last_index_of_unique).
    destruct (Hbare n r Hr) as (t & _ & Hh). exists n, t.
    split_and!; [by eapply pydict_get_values|done..].
Qed.

(** [deserialize_functional] on a container whose timestamps parse, ids
    repeated or not: it raises [KeyError] when a kept record lists an id
    that is no record id or the root id is no record id, and returns
    otherwise. *)
Lemma deserialize_functional_kept (c : Container) :
  timestamps_ok (objects c) →
  (dangling_kept (objects c) ∨ root_id c ∉ record_ids (objects c) →
   ∃ k, deserialize_functional factory c = Raise (KeyError k) ∧
        (k ∉ record_ids (objects c)) ∧
        (k = root_id c ∨ ∃ r, kept (objects c) r ∧ k ∈ fr_friends r)) ∧
  (¬ dangling_kept (objects c) → root_id c ∈ record_ids (objects c) →
   ∃ h root d,
     deserialize_functional factory c = Done (h, root, d) ∧
     frebuilt factory (objects c) h d ∧
     pydict_get d (root_id c) = Some root).
Proof.
  intros Hts.
  destruct (fphase1_created factory (objects c) Hts) as (h1 & d & Hrun1 & Hcr).
  destruct (fcreated_values factory _ _ _ Hcr) as (Hndv & _).
  destruct (fcreated_kept _ _ _ Hcr) as (Hvals & Hkept).
  pose proof Hcr as (Hlen1 & Hbare & Hnd & Hnone & Hsome).
  assert (Hmiss : ∀ k, pydict_get d k = None → k ∉ record_ids (objects c)).
  { intros k Hk Hin. destruct (Hsome k Hin) as (n & Hn & _). congruence. }
  unfold deserialize_functional. rewrite Hrun1, bind_Done. cbn [fst snd].
  split.
  - intros Hbad.
    destruct (fphase2_outcome factory d (pydict_values d) h1 Hndv)
      as [(h & -> & Hres)|(k & -> & Hk & a & p & js & Ha & Hp & Hfr & Hkj)].
    { intros a Ha. destruct (Hvals a Ha) as (r & t & _ & _ & Hh).
      by exists (fbare factory r t), (fr_friends r). }
    + rewrite bind_Done.
      assert (Hroot : root_id c ∉ record_ids (objects c)).
      { destruct Hbad as [(r & j & Hr & Hj & Hout)|?]; [|done]. exfalso.
        destruct (Hkept r Hr) as (a & t & Ha & _ & Hh).
        destruct (Hres a _ (fr_friends r) j Ha Hh eq_refl Hj) as [v Hv].
        rewrite Hnone in Hv by done. done. }
      exists (root_id c). rewrite (pydict_getitem_None _ _ (Hnone _ Hroot)).
      split_and!; [done|done|by left].
    + exists k. split_and!; [done|by apply Hmiss|]. right.
      destruct (Hvals a Ha) as (r & t & Hr & _ & Hh).
      exists r. split; [done|].
      assert (p = fbare factory r t) as -> by congruence. cbn in Hfr.
      apply (inj (fmap PyStr)) in Hfr as ->. done.
  - intros Hok Hroot.
    destruct (fphase2_linked d (pydict_values d) h1 Hndv)
      as (h & Hrun2 & Hlen2 & Hframe & Hlinked).
    { intros a Ha. destruct (Hvals a Ha) as (r & t & Hr & _ & Hh).
      exists (fbare factory r t), (fr_friends r). split_and!; [done..|].
      intros j Hj.
      destruct (decide (j ∈ record_ids (objects c))) as [Hin|Hout].
      - destruct (Hsome j Hin) as (n & Hn & _). by exists n.
      - exfalso. apply Hok. by exists r, j. }
    destruct (Hsome (root_id c) Hroot) as (root & Hget & _).
    exists h, root, d. rewrite Hrun2, bind_Done.
    rewrite (pydict_getitem_Some _ _ _ Hget).
    split_and!; [done|split_and!; [lia|done|]|done].
    intros i Hi. destruct (Hsome i Hi) as (n & Hn & Hlast).
    pose proof Hlast as ((r & Hr & Hid) & _).
    destruct (Hbare n r Hr) as (t & Ht & Hh1).
    destruct (Hlinked n _ (fr_friends r) (pydict_get_values _ _ _ Hn) Hh1
                eq_refl) as (fs & Hh & Hfs).
    eexists n, r, _. split_and!; [done..| |].
    + exists t. by split_and!.
    + by exists fs.
Qed.
End functional_builder_kept.

(** ** The claims on malformed containers *)

Lemma triangle_records_timestamps_ok :
  timestamps_ok (H:=test_dates) triangle_records.
Proof.
  intros r Hr. unfold triangle_records in Hr. set_unfold.
  destruct Hr as [->|[->|[->|[]]]]; by eexists.
Qed.

Lemma truncated_records_timestamps_ok :
  timestamps_ok (H:=test_dates) truncated_records.
Proof.
  intros r Hr. apply triangle_records_timestamps_ok.
  unfold truncated_records, triangle_records in *. set_solver.
Qed.

Lemma truncated_records_dangling : dangling truncated_records.
Proof.
  exists ivan_record, "id-alexey". unfold truncated_records.
  split_and!; [set_solver|cbn; set_solver|].
  cbn. intros Hin. set_unfold. naive_solver.
Qed.

(** C4, as stated, fails in two ways.  In the functional variant a record
    whose id is repeated by a later record is dropped from the mapping before
    the linking phase, and its dangling friend id with it: the container is
    accepted.  And the timestamps are parsed before anything is linked: a
    text that is no timestamp raises [ValueError], which names no id. *)
Lemma dangling_reference_counterexample :
  (dangling clashing_records ∧
   ∃ h root d,
     Functional.deserialize_functional (H:=test_dates) test_factory
       (mkContainer "id-ivan" clashing_records) = Done (h, root, d) ∧
     ∃ p, h !! root = Some p ∧ Functional.pd_friends p = []) ∧
  (dangling undated_records ∧
   Encapsulated.deserialize (H:=test_dates) undated_records
   = Raise (ValueError "15 May 1990")).
Proof.
  split_and!.
  - exists (mkFlat "id-ivan" "Ivan" "1990-05-15T00:00:00" ["id-ghost"]),
      "id-ghost".
    unfold clashing_records. split_and!; [set_solver|cbn; set_solver|].
    cbn. intros Hin. set_unfold. naive_solver.
  - do 3 eexists. split; [reflexivity|]. eexists. split; reflexivity.
  - exists (mkFlat "id-ivan" "Ivan" "15 May 1990" ["id-ghost"]), "id-ghost".
    unfold undated_records. split_and!; [set_solver|cbn; set_solver|].
    cbn. intros Hin. set_unfold. naive_solver.
  - reflexivity.
Qed.

Lemma clashing_records_timestamps_ok :
  timestamps_ok (H:=test_dates) clashing_records.
Proof.
  intros r Hr. unfold clashing_records in Hr. set_unfold.
  destruct Hr as [->|[->|[]]]; by eexists.
Qed.

Lemma ghost_kept_records_timestamps_ok :
  timestamps_ok (H:=test_dates) ghost_kept_records.
Proof.
  intros r Hr. unfold ghost_kept_records in Hr. set_unfold.
  destruct Hr as [->|[->|[]]]; by eexists.
Qed.

Lemma clashing_records_dangling : dangling clashing_records.
Proof.
  exists (mkFlat "id-ivan" "Ivan" "1990-05-15T00:00:00" ["id-ghost"]),
    "id-ghost".
  unfold clashing_records. split_and!; [set_solver|cbn; set_solver|].
  cbn. intros Hin. set_unfold. naive_solver.
Qed.

Lemma clashing_records_kept_ok : ¬ dangling_kept clashing_records.
Proof.
  intros (r & j & (n & Hn & _ & Hlast) & Hj & _).
  assert (fr_id r = "id-ivan") as Hid.
  { apply list_elem_of_lookup_2 in Hn. unfold clashing_records in Hn.
    set_unfold. by destruct Hn as [->|[->|[]]]. }
  rewrite Hid in Hlast. pose proof (Hlast 1 _ eq_refl eq_refl) as Hle.
  destruct n as [|[|n]]; [lia| |done].
  cbn in Hn. injection Hn as <-. by apply elem_of_nil in Hj.
Qed.

Lemma ghost_kept_records_dangling_kept : dangling_kept ghost_kept_records.
Proof.
  exists (mkFlat "id-ivan" "Ivan" "1990-05-15T00:00:00" ["id-ghost"]),
    "id-ghost".
  split_and!.
  - exists 1. split; [done|]. split; [by eexists|].
    intros m r Hr _. apply lookup_lt_Some in Hr. cbn in Hr. lia.
  - cbn. set_solver.
  - cbn. intros Hin. set_unfold. naive_solver.
Qed.

(** C4, amended.  On a container whose 'born_in' texts are timestamps and in
    which some friend id is no record id, both object-oriented builders
    raise [KeyError] with a friend id that is no record id, and return no
    object at all.  [deserialize_functional] links the records that
    [persons_dict] has kept, the last record of each id: it raises
    [KeyError] with an id that is no record id when a kept record lists such
    an id or the root id is none, whether record ids repeat or not; in every
    other case it returns the root and a mapping in which every person is
    linked to all the friend ids of its kept record.  When the record ids
    are distinct every record is kept, and the functional builder raises on
    every dangling friend id, as the object-oriented ones do. *)
Theorem dangling_reference_rejected `{DateTimeText} :
  (∀ objs,
     timestamps_ok objs → dangling objs →
     ∃ k, Encapsulated.deserialize objs = Raise (KeyError k) ∧
          DirectAccess.deserialize objs = Raise (KeyError k) ∧
          (k ∉ record_ids objs) ∧ ∃ r, r ∈ objs ∧ k ∈ fr_friends r) ∧
  (∀ factory (c : Container),
     timestamps_ok (objects c) →
     (dangling_kept (objects c) ∨ root_id c ∉ record_ids (objects c) →
      ∃ k, Functional.deserialize_functional factory c = Raise (KeyError k) ∧
           (k ∉ record_ids (objects c)) ∧
           (k = root_id c ∨ ∃ r, kept (objects c) r ∧ k ∈ fr_friends r)) ∧
     (¬ dangling_kept (objects c) → root_id c ∈ record_ids (objects c) →
      ∃ h root d,
        Functional.deserialize_functional factory c = Done (h, root, d) ∧
        frebuilt factory (objects c) h d ∧
        pydict_get d (root_id c) = Some root)) ∧
  (∀ objs, NoDup (record_ids objs) → dangling_kept objs ↔ dangling objs).
Proof.
  split_and!.
  - intros objs Hts Hd.
    destruct (deserialize_dangling objs Hts Hd) as (k & Hrun & Hk & Hr).
    exists k. by rewrite direct_access_deserialize.
  - intros factory c. apply deserialize_functional_kept.
  - apply dangling_kept_NoDup.
Qed.

(** The triangle without the record of Alexey is rejected by all builders.
    Of two records with one id, the builders of the object-oriented variants
    reject the missing friend id wherever it stands; the functional builder
    rejects it when the later record lists it, and accepts the container
    when the earlier one does. *)
Lemma dangling_reference_rejected_witness :
  (∃ k, Encapsulated.deserialize (H:=test_dates) truncated_records
        = Raise (KeyError k) ∧ k ∉ record_ids truncated_records) ∧
  (∃ k, Functional.deserialize_functional (H:=test_dates) test_factory
          (mkContainer "id-ivan" truncated_records) = Raise (KeyError k) ∧
        k ∉ record_ids truncated_records) ∧
  (∃ k, Encapsulated.deserialize (H:=test_dates) clashing_records
        = Raise (KeyError k) ∧ k ∉ record_ids clashing_records) ∧
  (∃ k, Functional.deserialize_functional (H:=test_dates) test_factory
          (mkContainer "id-ivan" ghost_kept_records) = Raise (KeyError k) ∧
        k ∉ record_ids ghost_kept_records) ∧
  (∃ h root d,
     Functional.deserialize_functional (H:=test_dates) test_factory
       (mkContainer "id-ivan" clashing_records) = Done (h, root, d)).
Proof.
  pose proof (dangling_reference_rejected (H:=test_dates))
    as (Hoop & Hfun & Hnodup).
  split_and!.
  - destruct (Hoop truncated_records truncated_records_timestamps_ok
                truncated_records_dangling) as (k & Hrun & _ & Hk & _).
    by exists k.
  - destruct (proj1 (Hfun test_factory
                       (mkContainer "id-ivan" truncated_records)
                       truncated_records_timestamps_ok))
      as (k & Hrun & Hk & _).
    + left. apply Hnodup; [|apply truncated_records_dangling].
      cbn. repeat (constructor; [set_solver|]). constructor.
    + by exists k.
  - destruct (Hoop clashing_records clashing_records_timestamps_ok
                clashing_records_dangling) as (k & Hrun & _ & Hk & _).
    by exists k.
  - destruct (proj1 (Hfun test_factory
                       (mkContainer "id-ivan" ghost_kept_records)
                       ghost_kept_records_timestamps_ok))
      as (k & Hrun & Hk & _).
    + left. apply ghost_kept_records_dangling_kept.
    + by exists k.
  - destruct (proj2 (Hfun test_factory
                       (mkContainer "id-ivan" clashing_records)
                       clashing_records_timestamps_ok))
      as (h & root & d & Hrun & _).
    + apply clashing_records_kept_ok.
    + cbn. set_solver.
    + by exists h, root, d.
Defined.

(** C5, as stated, fails: a container in which two records share an id is
    accepted by the three builders; the object returned for the id is the
    one made from the later record. *)
Lemma duplicate_id_counterexample :
  ¬ NoDup (record_ids duplicate_records) ∧
  (∃ h root p,
     Encapsulated.deserialize (H:=test_dates) duplicate_records
     = Done (h, root) ∧ h !! root = Some p ∧ _name p = "Maria") ∧
  (∃ h root p,
     DirectAccess.deserialize (H:=test_dates) duplicate_records
     = Done (h, root) ∧ h !! root = Some p ∧ _name p = "Maria") ∧
  (∃ h root d p,
     Functional.deserialize_functional (H:=test_dates) test_factory
       (mkContainer "id-ivan" duplicate_records)
     = Done (h, root, d) ∧ h !! root = Some p ∧
     Functional.pd_name p = "Maria").
Proof.
  split_and!.
  - cbn. intros Hnd. apply NoDup_cons in Hnd as [Hnd _]. set_solver.
  - do 3 eexists. split_and!; reflexivity.
  - do 3 eexists. split_and!; reflexivity.
  - do 4 eexists. split_and!; reflexivity.
Qed.

(** C5, amended: no builder detects a repeated id.  On every container
    whose 'born_in' texts are timestamps and whose friend ids (and, in the
    functional variant, root id) occur among the record ids, deserialization
    returns; the id-to-object mapping files each id at the object made from
    the last record with that id, which carries the fields of that record
    and is linked to the objects filed under that record's friend ids; an
    object made from an earlier record with the same id is not in the
    mapping.  The root of the object-oriented variants is the object filed
    under the id of the first record. *)
Theorem duplicate_id_last_wins `{DateTimeText} :
  (∀ objs first,
     timestamps_ok objs → references_ok objs → head objs = Some first →
     ∃ h c root,
       Encapsulated.deserialize objs = Done (h, root) ∧
       DirectAccess.deserialize objs = Done (h, root) ∧
       rebuilt objs h c ∧ c !! fr_id first = Some root) ∧
  (∀ factory (c : Container),
     timestamps_ok (objects c) → references_ok (objects c) →
     root_id c ∈ record_ids (objects c) →
     ∃ h d root,
       Functional.deserialize_functional factory c = Done (h, root, d) ∧
       frebuilt factory (objects c) h d ∧
       pydict_get d (root_id c) = Some root).
Proof.
  split.
  - intros objs first Hts Hrefs Hfirst.
    destruct (deserialize_rebuilt objs first Hts Hrefs Hfirst)
      as (h & c & root & Hrun & Hrb & Hroot).
    exists h, c, root. by rewrite direct_access_deserialize.
  - intros factory c. apply deserialize_functional_rebuilt.
Qed.

Lemma duplicate_records_ok :
  timestamps_ok (H:=test_dates) duplicate_records ∧
  references_ok duplicate_records.
Proof.
  split.
  - intros r Hr. unfold duplicate_records in Hr. set_unfold.
    destruct Hr as [->|[->|[]]]; by eexists.
  - intros r j Hr Hj. unfold duplicate_records in Hr. set_unfold.
    destruct Hr as [->|[->|[]]]; cbn in Hj; by apply elem_of_nil in Hj.
Qed.

Lemma duplicate_id_last_wins_witness :
  (∃ h root, Encapsulated.deserialize (H:=test_dates) duplicate_records
             = Done (h, root)) ∧
  (∃ h d root,
     Functional.deserialize_functional (H:=test_dates) test_factory
       (mkContainer "id-ivan" duplicate_records) = Done (h, root, d)).
Proof.
  split.
  - destruct (proj1 (duplicate_id_last_wins (H:=test_dates))
                duplicate_records _ (proj1 duplicate_records_ok)
                (proj2 duplicate_records_ok) eq_refl)
      as (h & c & root & Hrun & _).
    by exists h, root.
  - destruct (proj2 (duplicate_id_last_wins (H:=test_dates))
                test_factory (mkContainer "id-ivan" duplicate_records)
                (proj1 duplicate_records_ok) (proj2 duplicate_records_ok))
      as (h & d & root & Hrun & _).
    + cbn. set_solver.
    + by exists h, d, root.
Defined.

(** ** What the collector hands to the builder *)

Section collector_output.
Context `{DateTimeText}.

Lemma flat_of_Some (h : heap) a r :
  flat_of h a = Some r →
  ∃ p, h !! a = Some p ∧
       r = mkFlat (_id p) (_name p) (isoformat (_born_in p)) (friend_ids h p).
Proof.
  unfold flat_of. destruct (h !! a) as [p|]; [|done]. cbn.
  intros [= <-]. by exists p.
Qed.

Lemma elem_of_friend_ids (h : heap) p j :
  j ∈ friend_ids h p ↔ ∃ f q, f ∈ _friends p ∧ h !! f = Some q ∧ _id q = j.
Proof.
  unfold friend_ids. rewrite list_elem_of_omap. split.
  - intros (f & Hf & Hj). destruct (h !! f) as [q|] eqn:Hq; [|done].
    injection Hj as <-. by exists f, q.
  - intros (f & q & Hf & Hq & <-). exists f. by rewrite Hq.
Qed.

(** The output of the collector has distinct ids, timestamps that parse and
    no dangling friend id. *)
Lemma collected_container_ok (h : heap) root order objs :
  heap_closed h → ids_unique h → iso_reversible →
  preorder (friends_of h) ∅ [root] order →
  Forall2 (λ a r, flat_of h a = Some r) order objs →
  timestamps_ok objs ∧ references_ok objs ∧ NoDup (record_ids objs).
Proof.
  intros Hcl Hu Hiso Hpre Hflat.
  destruct (preorder_root _ _ _ Hpre) as (Hnd & Hreach & _).
  assert (Hrec : ∀ n r, objs !! n = Some r →
            ∃ a p, order !! n = Some a ∧ h !! a = Some p ∧
                   r = mkFlat (_id p) (_name p) (isoformat (_born_in p))
                              (friend_ids h p)).
  { intros n r Hr.
    destruct (Forall2_lookup_r _ _ _ _ _ Hflat Hr) as (a & Ha & Hf).
    destruct (flat_of_Some _ _ _ Hf) as (p & Hp & ->). by exists a, p. }
  split_and!.
  - intros r [n Hn]%list_elem_of_lookup.
    destruct (Hrec n r Hn) as (a & p & _ & _ & ->). cbn. by rewrite Hiso.
  - intros r j [n Hn]%list_elem_of_lookup Hj.
    destruct (Hrec n r Hn) as (a & p & Ha & Hp & ->). cbn in Hj.
    apply elem_of_friend_ids in Hj as (f & q & Hf & Hq & <-).
    assert (Hfo : f ∈ order).
    { apply Hreach. eapply rtc_r.
      - apply Hreach. by eapply list_elem_of_lookup_2.
      - exists (_friends p). unfold friends_of. by rewrite Hp. }
    apply list_elem_of_lookup in Hfo as [m Hm].
    destruct (Forall2_lookup_l _ _ _ _ _ Hflat Hm) as (r' & Hr' & Hf').
    unfold record_ids. apply list_elem_of_fmap. exists r'.
    split; [|by eapply list_elem_of_lookup_2].
    symmetry. by eapply flat_of_id.
  - apply NoDup_alt. intros n m i Hn Hm. unfold record_ids in *.
    rewrite list_lookup_fmap in Hn, Hm.
    destruct (objs !! n) as [rn|] eqn:Hrn; [|done].
    destruct (objs !! m) as [rm|] eqn:Hrm; [|done].
    destruct (Hrec n rn Hrn) as (a & p & Ha & Hp & ->).
    destruct (Hrec m rm Hrm) as (b & q & Hb & Hq & ->).
    cbn in Hn, Hm. assert (a = b) as -> by (eapply Hu; [done..|congruence]).
    by eapply NoDup_lookup.
Qed.

(** The object that a rebuilt heap files under the id of a record, when
    ids do not repeat. *)
Lemma rebuilt_record objs (h : heap) c r :
  rebuilt objs h c → NoDup (record_ids objs) → r ∈ objs →
  ∃ n p, c !! fr_id r = Some n ∧ h !! n = Some p ∧
         carries p r ∧ linked c p (fr_friends r).
Proof.
  intros (_ & _ & Hsome) Hnd Hr.
  destruct (Hsome (fr_id r))
    as (n & r' & p & Hn & ((r'' & Hr'' & Hid) & _) & Hr' & Hp & Hc & Hl).
  { unfold record_ids. set_solver. }
  assert (r' = r) as ->; [|by exists n, p].
  apply list_elem_of_lookup in Hr as [m Hm].
  assert (m = n) as ->; [|congruence].
  eapply NoDup_lookup; [done| |]; unfold record_ids;
    rewrite list_lookup_fmap.
  - by rewrite Hm.
  - rewrite Hr'. cbn. congruence.
Qed.

(** Permuting a container with distinct ids changes neither the outcome of
    the builder nor what its mapping shows under any id. *)
Lemma deserialize_permutation objs objs' first first' :
  timestamps_ok objs → references_ok objs → NoDup (record_ids objs) →
  objs' ≡ₚ objs → head objs = Some first → head objs' = Some first' →
  ∃ h1 c1 r1 h2 c2 r2,
    Encapsulated.deserialize objs = Done (h1, r1) ∧
    Encapsulated.deserialize objs' = Done (h2, r2) ∧
    rebuilt objs h1 c1 ∧ rebuilt objs' h2 c2 ∧
    (∀ i, view h1 c1 i = view h2 c2 i) ∧
    c1 !! fr_id first = Some r1 ∧ c2 !! fr_id first' = Some r2.
Proof.
  intros Hts Hrefs Hnd Hperm Hfirst Hfirst'.
  assert (Hids : record_ids objs' ≡ₚ record_ids objs)
    by (unfold record_ids; by rewrite Hperm).
  assert (Hts' : timestamps_ok objs').
  { intros r Hr. apply Hts. by rewrite <-Hperm. }
  assert (Hrefs' : references_ok objs').
  { intros r j Hr Hj. rewrite Hids. eapply Hrefs; [|done]. by rewrite <-Hperm. }
  assert (Hnd' : NoDup (record_ids objs')) by (by rewrite Hids).
  destruct (deserialize_rebuilt objs first Hts Hrefs Hfirst)
    as (h1 & c1 & r1 & Hrun1 & Hrb1 & Hroot1).
  destruct (deserialize_rebuilt objs' first' Hts' Hrefs' Hfirst')
    as (h2 & c2 & r2 & Hrun2 & Hrb2 & Hroot2).
  exists h1, c1, r1, h2, c2, r2. split_and!; try done.
  intros i. destruct (decide (i ∈ record_ids objs)) as [Hin|Hout].
  - apply list_elem_of_fmap in Hin as (r & -> & Hr).
    destruct (rebuilt_view objs h1 c1 r Hrb1 Hrefs Hnd Hr) as (d1 & Hd1 & ->).
    destruct (rebuilt_view objs' h2 c2 r Hrb2 Hrefs' Hnd')
      as (d2 & Hd2 & ->); [by rewrite Hperm|].
    congruence.
  - unfold view. destruct Hrb1 as (_ & Hnone1 & _).
    destruct Hrb2 as (_ & Hnone2 & _).
    rewrite Hnone1 by done. rewrite Hnone2; [done|]. by rewrite Hids.
Qed.
End collector_output.

Section functional_output.
Context `{DateTimeText}.
Import Functional.
Variable factory : string → datetime → PersonData.

Lemma pflat_of_Some (h : pheap) d i r :
  pflat_of h d i = Some r →
  ∃ p js, person_of h d i = Some p ∧ friend_ids_of h d i = Some js ∧
          r = mkFlat (pd_id p) (pd_name p) (isoformat (pd_born_in p)) js.
Proof.
  unfold pflat_of, friend_ids_of.
  destruct (person_of h d i) as [p|]; [|done]. cbn.
  destruct (mapM as_id (pd_friends p)) as [js|]; [|done]. cbn.
  intros [= <-]. by exists p, js.
Qed.

Lemma registry_person_id (h : pheap) d i p :
  registry_ok h d → person_of h d i = Some p → pd_id p = i.
Proof.
  intros Hreg. unfold person_of.
  destruct (pydict_get d i) as [a|] eqn:Ha; [|done]. cbn. intros Hp.
  destruct (Hreg i a Ha) as (q & Hq & Hid & _). congruence.
Qed.

Lemma registered_container_ok (h : pheap) d i0 order objs :
  registry_ok h d → iso_reversible →
  preorder (friend_ids_of h d) ∅ [i0] order →
  Forall2 (λ i r, pflat_of h d i = Some r) order objs →
  timestamps_ok objs ∧ references_ok objs ∧ NoDup (record_ids objs) ∧
  record_ids objs = order.
Proof.
  intros Hreg Hiso Hpre Hflat.
  destruct (preorder_root _ _ _ Hpre) as (Hnd & Hreach & _).
  assert (Hids : record_ids objs = order).
  { unfold record_ids. clear -Hflat Hreg.
    induction Hflat as [|i r order objs Hr _ IH]; [done|]. cbn.
    rewrite IH. f_equal.
    destruct (pflat_of_Some _ _ _ _ Hr) as (p & js & Hp & _ & ->). cbn.
    by eapply registry_person_id. }
  split_and!; [| |by rewrite Hids|done].
  - intros r [n Hn]%list_elem_of_lookup.
    destruct (Forall2_lookup_r _ _ _ _ _ Hflat Hn) as (i & Hi & Hf).
    destruct (pflat_of_Some _ _ _ _ Hf) as (p & js & _ & _ & ->). cbn.
    by rewrite Hiso.
  - intros r j [n Hn]%list_elem_of_lookup Hj. rewrite Hids.
    destruct (Forall2_lookup_r _ _ _ _ _ Hflat Hn) as (i & Hi & Hf).
    destruct (pflat_of_Some _ _ _ _ Hf) as (p & js & _ & Hjs & ->).
    cbn in Hj. apply Hreach. eapply rtc_r.
    + apply Hreach. by eapply list_elem_of_lookup_2.
    + by exists js.
Qed.

Lemma frebuilt_friend_ids objs (h : pheap) d p js :
  frebuilt factory objs h d → flinked d p js →
  (∀ j, j ∈ js → j ∈ record_ids objs) →
  ffriend_ids h p = js.
Proof.
  intros (_ & _ & Hsome) (fs & Hfs & Hl) Hin. unfold ffriend_ids.
  rewrite Hfs. clear Hfs.
  induction Hl as [|f j fs js Hf _ IH]; [done|]. cbn.
  destruct (Hsome j)
    as (n & r & q & Hn & ((r' & Hr' & Hid) & _) & Hr & Hq & (t & _ & Hqid & _) & _);
    [set_solver|].
  assert (n = f) as -> by congruence. rewrite Hq. cbn.
  rewrite IH by set_solver. f_equal. congruence.
Qed.

Lemma frebuilt_record objs (h : pheap) d r :
  frebuilt factory objs h d → NoDup (record_ids objs) → r ∈ objs →
  ∃ n p, pydict_get d (fr_id r) = Some n ∧ h !! n = Some p ∧
         fcarries factory p r ∧ flinked d p (fr_friends r).
Proof.
  intros (_ & _ & Hsome) Hnd Hr.
  destruct (Hsome (fr_id r))
    as (n & r' & p & Hn & ((r'' & Hr'' & Hid) & _) & Hr' & Hp & Hc & Hl).
  { unfold record_ids. set_solver. }
  assert (r' = r) as ->; [|by exists n, p].
  apply list_elem_of_lookup in Hr as [m Hm].
  assert (m = n) as ->; [|congruence].
  eapply NoDup_lookup; [done| |]; unfold record_ids;
    rewrite list_lookup_fmap.
  - by rewrite Hm.
  - rewrite Hr'. cbn. congruence.
Qed.

Lemma frebuilt_view objs (h : pheap) d r :
  frebuilt factory objs h d → references_ok objs →
  NoDup (record_ids objs) → r ∈ objs →
  ∃ t, fromisoformat (fr_born_in r) = Some t ∧
       fview h d (fr_id r) =
         Some (fr_id r, pd_name (factory (fr_name r) t),
               pd_born_in (factory (fr_name r) t), fr_friends r).
Proof.
  intros Hrb Hrefs Hnd Hr.
  destruct (frebuilt_record objs h d r Hrb Hnd Hr)
    as (n & p & Hn & Hp & (t & Ht & Hid & Hname & Hborn) & Hl).
  exists t. split; [done|]. unfold fview. rewrite Hn. cbn. rewrite Hp. cbn.
  rewrite (frebuilt_friend_ids objs h d p (fr_friends r)); [|done..|].
  - by rewrite Hid, Hname, Hborn.
  - intros j Hj. by eapply Hrefs.
Qed.

(** With the root designated by id, permuting a container with distinct ids
    changes nothing of what [deserialize_functional] returns, as far as ids,
    names, timestamps and friend ids show. *)
Lemma deserialize_functional_permutation rid objs objs' :
  timestamps_ok objs → references_ok objs → NoDup (record_ids objs) →
  rid ∈ record_ids objs → objs' ≡ₚ objs →
  ∃ h1 d1 r1 h2 d2 r2,
    deserialize_functional factory (mkContainer rid objs)
    = Done (h1, r1, d1) ∧
    deserialize_functional factory (mkContainer rid objs')
    = Done (h2, r2, d2) ∧
    frebuilt factory objs h1 d1 ∧ frebuilt factory objs' h2 d2 ∧
    (∀ i, fview h1 d1 i = fview h2 d2 i) ∧
    pydict_get d1 rid = Some r1 ∧ pydict_get d2 rid = Some r2.
Proof.
  intros Hts Hrefs Hnd Hrid Hperm.
  assert (Hids : record_ids objs' ≡ₚ record_ids objs)
    by (unfold record_ids; by rewrite Hperm).
  assert (Hts' : timestamps_ok objs').
  { intros r Hr. apply Hts. by rewrite <-Hperm. }
  assert (Hrefs' : references_ok objs').
  { intros r j Hr Hj. rewrite Hids. eapply Hrefs; [|done]. by rewrite <-Hperm. }
  assert (Hnd' : NoDup (record_ids objs')) by (by rewrite Hids).
  destruct (deserialize_functional_rebuilt factory (mkContainer rid objs))
    as (h1 & d1 & r1 & Hrun1 & Hrb1 & Hroot1); [done..|].
  destruct (deserialize_functional_rebuilt factory (mkContainer rid objs'))
    as (h2 & d2 & r2 & Hrun2 & Hrb2 & Hroot2); [done..|by cbn; rewrite Hids|].
  cbn in *. exists h1, d1, r1, h2, d2, r2. split_and!; try done.
  intros i. destruct (decide (i ∈ record_ids objs)) as [Hin|Hout].
  - apply list_elem_of_fmap in Hin as (r & -> & Hr).
    destruct (frebuilt_view objs h1 d1 r Hrb1 Hrefs Hnd Hr) as (t1 & Ht1 & ->).
    destruct (frebuilt_view objs' h2 d2 r Hrb2 Hrefs' Hnd')
      as (t2 & Ht2 & ->); [by rewrite Hperm|].
    congruence.
  - unfold fview. destruct Hrb1 as (_ & Hnone1 & _).
    destruct Hrb2 as (_ & Hnone2 & _).
    rewrite Hnone1 by done. rewrite Hnone2; [done|]. by rewrite Hids.
Qed.
End functional_output.

(** ** The claim on the order of the records *)

(** C8, as stated, fails for the two object-oriented builders, which take
    the first record for the root: the records of the triangle, collected
    from Ivan, give back Ivan; the same records with Maria's first give back
    Maria. *)
Lemma record_order_counterexample :
  Encapsulated.serialize 4 triangle 0 = Done triangle_records ∧
  [maria_record; ivan_record; alexey_record] ≡ₚ triangle_records ∧
  (∃ h1 r1 p1,
     Encapsulated.deserialize (H:=test_dates) triangle_records
     = Done (h1, r1) ∧ h1 !! r1 = Some p1 ∧ _id p1 = "id-ivan") ∧
  (∃ h2 r2 p2,
     Encapsulated.deserialize (H:=test_dates)
       [maria_record; ivan_record; alexey_record]
     = Done (h2, r2) ∧ h2 !! r2 = Some p2 ∧ _id p2 = "id-maria") ∧
  (∃ h2 r2 p2,
     DirectAccess.deserialize (H:=test_dates)
       [maria_record; ivan_record; alexey_record]
     = Done (h2, r2) ∧ h2 !! r2 = Some p2 ∧ _id p2 = "id-maria").
Proof.
  split_and!.
  - reflexivity.
  - apply perm_swap.
  - do 3 eexists. split_and!; reflexivity.
  - do 3 eexists. split_and!; reflexivity.
  - do 3 eexists. split_and!; reflexivity.
Qed.

(** C8, amended: for the records that the collector produces and every
    permutation of them, deserialization returns, and the id-to-object
    mapping shows the same thing under every id: the same id, name,
    timestamp and friend ids in the same order.  In the functional variant,
    where the root is designated by id, the root is the same as well.  The
    object-oriented builders return the object of whichever record comes
    first in the permuted sequence. *)
Theorem record_order_irrelevant_but_for_root `{DateTimeText} :
  (∀ (h : heap) root fuel objs objs' first',
     heap_closed h → ids_unique h → iso_reversible →
     root < length h → length h < fuel →
     Encapsulated.serialize fuel h root = Done objs →
     objs' ≡ₚ objs → head objs' = Some first' →
     ∃ h1 c1 r1 h2 c2 r2 first,
       Encapsulated.deserialize objs = Done (h1, r1) ∧
       DirectAccess.deserialize objs = Done (h1, r1) ∧
       Encapsulated.deserialize objs' = Done (h2, r2) ∧
       DirectAccess.deserialize objs' = Done (h2, r2) ∧
       rebuilt objs h1 c1 ∧ rebuilt objs' h2 c2 ∧
       (∀ i, view h1 c1 i = view h2 c2 i) ∧
       flat_of h root = Some first ∧
       c1 !! fr_id first = Some r1 ∧ c2 !! fr_id first' = Some r2) ∧
  (∀ factory (h : Functional.pheap) d root p fuel c objs',
     registry_ok h d → iso_reversible → h !! root = Some p →
     is_Some (pydict_get d (Functional.pd_id p)) → length d < fuel →
     Functional.serialize_functional fuel h root d = Done c →
     objs' ≡ₚ objects c →
     ∃ h1 d1 r1 h2 d2 r2,
       Functional.deserialize_functional factory c = Done (h1, r1, d1) ∧
       Functional.deserialize_functional factory
         (mkContainer (root_id c) objs') = Done (h2, r2, d2) ∧
       frebuilt factory (objects c) h1 d1 ∧ frebuilt factory objs' h2 d2 ∧
       (∀ i, fview h1 d1 i = fview h2 d2 i) ∧
       pydict_get d1 (root_id c) = Some r1 ∧
       pydict_get d2 (root_id c) = Some r2).
Proof.
  split.
  - intros h root fuel objs objs' first' Hcl Hu Hiso Hroot Hfuel Hser Hperm Hfirst'.
    destruct (serialize_preorder h root Hcl Hu Hroot)
      as (order & objs0 & Hpre & Hflat & Hrun).
    destruct (Hrun fuel Hfuel) as [Hser0 _].
    assert (objs0 = objs) as -> by congruence.
    destruct (collected_container_ok h root order objs Hcl Hu Hiso Hpre Hflat)
      as (Hts & Hrefs & Hnd).
    destruct (preorder_root _ _ _ Hpre) as (_ & _ & Hhead).
    assert (∃ first, head objs = Some first ∧ flat_of h root = Some first)
      as (first & Hfirst & Hfroot).
    { destruct Hflat as [|a r order objs Hr _]; simplify_eq/=. by exists r. }
    destruct (deserialize_permutation objs objs' first first')
      as (h1 & c1 & r1 & h2 & c2 & r2 & Hd1 & Hd2 & Hrb1 & Hrb2 & Hview & Hr1 & Hr2);
      [done..|].
    exists h1, c1, r1, h2, c2, r2, first.
    rewrite !direct_access_deserialize. by split_and!.
  - intros factory h d root p fuel c objs' Hreg Hiso Hroot Hfiled Hfuel Hser Hperm.
    destruct (serialize_functional_preorder h d root p Hreg Hroot Hfiled)
      as (order & objs & Hpre & Hflat & Hrun).
    rewrite (Hrun fuel Hfuel) in Hser. injection Hser as <-. cbn in *.
    destruct (registered_container_ok h d _ order objs Hreg Hiso Hpre Hflat)
      as (Hts & Hrefs & Hnd & Hids).
    apply deserialize_functional_permutation; try done.
    rewrite Hids. destruct (preorder_root _ _ _ Hpre) as (_ & Hreach & _).
    apply Hreach, rtc_refl.
Qed.

Lemma test_dates_reversible : iso_reversible (H:=test_dates).
Proof. by intros []. Qed.

Lemma record_order_irrelevant_but_for_root_witness :
  (∃ h1 c1 r1 h2 c2 r2,
     Encapsulated.deserialize (H:=test_dates) triangle_records
     = Done (h1, r1) ∧
     Encapsulated.deserialize (H:=test_dates)
       [maria_record; ivan_record; alexey_record] = Done (h2, r2) ∧
     ∀ i, view h1 c1 i = view h2 c2 i) ∧
  (∃ h1 d1 r1 h2 d2 r2,
     Functional.deserialize_functional (H:=test_dates) test_factory
       (mkContainer "id-ivan" triangle_records) = Done (h1, r1, d1) ∧
     Functional.deserialize_functional (H:=test_dates) test_factory
       (mkContainer "id-ivan" [maria_record; ivan_record; alexey_record])
     = Done (h2, r2, d2) ∧
     ∀ i, fview h1 d1 i = fview h2 d2 i).
Proof.
  split.
  - destruct (proj1 (record_order_irrelevant_but_for_root (H:=test_dates))
                triangle 0 4 triangle_records
                [maria_record; ivan_record; alexey_record] maria_record)
      as (h1 & c1 & r1 & h2 & c2 & r2 & first & Hd1 & _ & Hd2 & _ & _ & _ & Hv & _).
    + apply built_invariants, triangle_built.
    + apply built_invariants, triangle_built.
    + apply test_dates_reversible.
    + cbn. lia.
    + cbn. lia.
    + reflexivity.
    + apply perm_swap.
    + reflexivity.
    + by exists h1, c1, r1, h2, c2, r2.
  - destruct (proj2 (record_order_irrelevant_but_for_root (H:=test_dates))
                test_factory triangle_data all_persons 0 _ 4
                (mkContainer "id-ivan" triangle_records)
                [maria_record; ivan_record; alexey_record]
                triangle_registry_ok test_dates_reversible eq_refl)
      as (h1 & d1 & r1 & h2 & d2 & r2 & Hd1 & Hd2 & _ & _ & Hv & _).
    + by eexists.
    + cbn. lia.
    + reflexivity.
    + apply perm_swap.
    + by exists h1, d1, r1, h2, d2, r2.
Defined.

(** ** The round trip *)

Section oop_roundtrip.
Context `{DateTimeText}.

(** Serialization followed by deserialization, on a heap with live
    references and unique ids. *)
Lemma roundtrip_objects (h : heap) root :
  heap_closed h → ids_unique h → iso_reversible → root < length h →
  ∃ objs h' root',
    (∀ fuel, length h < fuel →
       Encapsulated.serialize fuel h root = Done objs ∧
       DirectAccess.serialize fuel h root = Done objs) ∧
    Encapsulated.deserialize objs = Done (h', root') ∧
    restores h root h' root' ∧
    ∀ a, reachable h root a →
         ∃ a', reachable h' root' a' ∧ restores h a h' a'.
Proof.
  intros Hcl Hu Hiso Hroot.
  destruct (serialize_preorder h root Hcl Hu Hroot)
    as (order & objs & Hpre & Hflat & Hrun).
  destruct (collected_container_ok h root order objs Hcl Hu Hiso Hpre Hflat)
    as (Hts & Hrefs & Hnd).
  destruct (preorder_root _ _ _ Hpre) as (_ & Hreach & Hhead).
  assert (∃ first, head objs = Some first ∧ flat_of h root = Some first)
    as (first & Hfirst & Hfroot).
  { destruct Hflat as [|a r order objs Hr _]; simplify_eq/=. by exists r. }
  destruct (deserialize_rebuilt objs first Hts Hrefs Hfirst)
    as (h' & c & root' & Hdes & Hrb & Hcroot).
  (* the object that the mapping files under the id of a reachable node *)
  assert (Hnode : ∀ a p, reachable h root a → h !! a = Some p →
            ∃ a' p', c !! _id p = Some a' ∧ h' !! a' = Some p' ∧
                     same_fields p' p ∧ friend_ids h' p' = friend_ids h p ∧
                     linked c p' (friend_ids h p)).
  { intros a p Ha Hp. apply Hreach in Ha as [n Hn]%list_elem_of_lookup.
    destruct (Forall2_lookup_l _ _ _ _ _ Hflat Hn) as (r & Hr & Hf).
    destruct (flat_of_Some _ _ _ Hf) as (p0 & Hp0 & ->).
    assert (p0 = p) as -> by congruence.
    destruct (rebuilt_record objs h' c _ Hrb Hnd
                (list_elem_of_lookup_2 _ _ _ Hr))
      as (a' & p' & Ha' & Hp' & (Hid & Hname & Hborn) & Hl).
    cbn in *. exists a', p'. split_and!; try done.
    - split_and!; [done..|]. rewrite Hiso in Hborn. congruence.
    - eapply rebuilt_friend_ids; [done..|]. intros j Hj.
      eapply (Hrefs _ j (list_elem_of_lookup_2 _ _ _ Hr)). done. }
  assert (Hpath : ∀ a, reachable h root a → ∀ p, h !! a = Some p →
            ∃ a', c !! _id p = Some a' ∧ reachable h' root' a').
  { apply (rtc_ind_r (λ a, ∀ p, h !! a = Some p →
             ∃ a', c !! _id p = Some a' ∧ reachable h' root' a')).
    - intros p Hp. exists root'. split; [|apply rtc_refl].
      unfold flat_of in Hfroot. rewrite Hp in Hfroot. cbn in Hfroot.
      injection Hfroot as <-. done.
    - intros y z Hy (fs & Hfs & Hz) IH pz Hpz.
      unfold friends_of in Hfs. destruct (h !! y) as [py|] eqn:Hpy; [|done].
      injection Hfs as <-.
      destruct (IH py eq_refl) as (y' & Hy' & Hry').
      destruct (Hnode y py Hy Hpy) as (y'' & p' & Hy'' & Hp' & _ & _ & Hl).
      assert (y'' = y') as -> by congruence.
      assert (Hin : _id pz ∈ friend_ids h py).
      { apply elem_of_friend_ids. by exists z, pz. }
      apply list_elem_of_lookup in Hin as [m Hm].
      destruct (Forall2_lookup_r _ _ _ _ _ Hl Hm) as (z' & Hz' & Hcz).
      exists z'. split; [done|]. eapply rtc_r; [done|].
      exists (_friends p'). unfold friends_of. rewrite Hp'.
      split; [done|]. by eapply list_elem_of_lookup_2. }
  exists objs, h', root'. split_and!; [done..| |].
  - destruct (lookup_lt_is_Some_2 h root Hroot) as [p Hp].
    destruct (Hnode root p (rtc_refl _ _) Hp) as (a' & p' & Ha' & Hp' & ? & ? & _).
    destruct (Hpath root (rtc_refl _ _) p Hp) as (a'' & Ha'' & _).
    assert (a' = root') as ->.
    { unfold flat_of in Hfroot. rewrite Hp in Hfroot. cbn in Hfroot.
      injection Hfroot as <-. cbn in Hcroot. congruence. }
    by exists p, p'.
  - intros a Ha.
    assert (is_Some (h !! a)) as [p Hp].
    { apply lookup_lt_is_Some_2.
      apply rtc_inv_r in Ha as [<-|(y & _ & fs & Hfs & Hin)]; [done|].
      unfold friends_of in Hfs. destruct (h !! y) as [py|] eqn:Hpy; [|done].
      injection Hfs as <-. by eapply Hcl. }
    destruct (Hnode a p Ha Hp) as (a' & p' & Ha' & Hp' & ? & ? & _).
    destruct (Hpath a Ha p Hp) as (a'' & Ha'' & Hra).
    assert (a'' = a') as -> by congruence.
    exists a'. split; [done|]. by exists p, p'.
Qed.
End oop_roundtrip.

Section functional_roundtrip.
Context `{DateTimeText}.
Import Functional.

Lemma functional_add_friend_fields (h h' : pheap) a b d :
  Functional.add_friend h a b d = Done h' →
  length h' = length h ∧
  ∀ c p', h' !! c = Some p' →
    ∃ p, h !! c = Some p ∧ pd_id p' = pd_id p ∧ pd_name p' = pd_name p ∧
         pd_born_in p' = pd_born_in p ∧
         ∀ v, v ∈ pd_friends p' →
              v ∈ pd_friends p ∨ ∃ x q, h !! x = Some q ∧ v = PyStr (pd_id q).
Proof.
  intros Hadd.
  destruct (h !! a) as [p|] eqn:Ha.
  2: { unfold Functional.add_friend, pderef in Hadd. by rewrite Ha in Hadd. }
  destruct (h !! b) as [q|] eqn:Hb.
  2: { unfold Functional.add_friend, pderef in Hadd.
       rewrite Ha in Hadd. cbn in Hadd. by rewrite Hb in Hadd. }
  assert (a < length h) by (by eapply lookup_lt_Some).
  assert (b < length h) by (by eapply lookup_lt_Some).
  assert (Hsame : ∀ c p', h !! c = Some p' →
            ∃ p0, h !! c = Some p0 ∧ pd_id p' = pd_id p0 ∧
              pd_name p' = pd_name p0 ∧ pd_born_in p' = pd_born_in p0 ∧
              ∀ v, v ∈ pd_friends p' → v ∈ pd_friends p0 ∨
                   ∃ x q, h !! x = Some q ∧ v = PyStr (pd_id q)).
  { intros c p' Hp'. exists p'. split_and!; auto. }
  destruct (decide (a = b)) as [->|Hab].
  - rewrite (functional_add_friend_self _ _ _ _ Ha) in Hadd.
    case_decide; injection Hadd as <-; [done|].
    split; [by rewrite length_insert|]. intros c p' Hp'.
    destruct (decide (c = b)) as [->|Hc].
    + rewrite list_lookup_insert_eq in Hp' by done. injection Hp' as <-.
      exists p. split_and!; try done. cbn. intros v Hv.
      rewrite !elem_of_app, !list_elem_of_singleton in Hv.
      destruct Hv as [[?| ->]| ->]; eauto.
    + rewrite list_lookup_insert_ne in Hp' by done. auto.
  - rewrite (functional_add_friend_distinct _ _ _ _ _ _ Hab Ha Hb) in Hadd.
    case_decide; injection Hadd as <-; [done|].
    split; [by rewrite !length_insert|]. intros c p' Hp'.
    destruct (decide (c = b)) as [->|Hcb].
    + rewrite list_lookup_insert_eq in Hp' by (by rewrite length_insert).
      injection Hp' as <-. exists q. split_and!; try done. cbn. intros v Hv.
      rewrite elem_of_app, list_elem_of_singleton in Hv.
      destruct Hv as [?| ->]; eauto.
    + rewrite list_lookup_insert_ne in Hp' by done.
      destruct (decide (c = a)) as [->|Hca].
      * rewrite list_lookup_insert_eq in Hp' by done. injection Hp' as <-.
        exists p. split_and!; try done. cbn. intros v Hv.
        rewrite elem_of_app, list_elem_of_singleton in Hv.
        destruct Hv as [?| ->]; eauto.
      * rewrite list_lookup_insert_ne in Hp' by done. auto.
Qed.

Lemma fbuilt_invariants (h : pheap) d :
  fbuilt h d → registry_ok h d ∧ all_filed h d.
Proof.
  induction 1 as [|h d uid name born_in _ [Hreg Hfiled] Hfresh
                  |h d a b h' _ [Hreg Hfiled] Hadd].
  - split.
    + intros i r Hr. done.
    + intros a p Hp. by rewrite lookup_nil in Hp.
  - split.
    + intros i r. rewrite pydict_get_set.
      destruct (decide (i = uid)) as [->|Hne].
      * intros [= <-]. eexists. split_and!.
        -- by rewrite lookup_app_r, Nat.sub_diag by lia.
        -- done.
        -- intros v Hv. by apply elem_of_nil in Hv.
      * intros Hr. destruct (Hreg i r Hr) as (p & Hp & Hid & Hfr).
        exists p. split_and!; [by apply lookup_app_l_Some|done|].
        intros v Hv. destruct (Hfr v Hv) as (j & -> & Hj). exists j.
        split; [done|]. rewrite pydict_get_set. case_decide; eauto.
    + intros a p Hp. rewrite pydict_get_set.
      apply lookup_app_Some in Hp as [Hp|[Hlen Hp]].
      * rewrite decide_False; [by apply Hfiled|].
        intros Heq. specialize (Hfiled a p Hp). congruence.
      * apply list_lookup_singleton_Some in Hp as [Ha <-]. cbn.
        rewrite decide_True by done. f_equal. lia.
  - destruct (functional_add_friend_fields _ _ _ _ _ Hadd) as [Hlen Hfields].
    assert (Hfiled' : all_filed h' d).
    { intros c p' Hp'. destruct (Hfields c p' Hp') as (p & Hp & -> & _).
      by apply Hfiled. }
    split; [|done]. intros i r Hr.
    destruct (Hreg i r Hr) as (p & Hp & Hid & Hfr).
    destruct (lookup_lt_is_Some_2 h' r) as [p' Hp'].
    { rewrite Hlen. by eapply lookup_lt_Some. }
    destruct (Hfields r p' Hp') as (p0 & Hp0 & Hid' & _ & _ & Hfr').
    assert (p0 = p) as -> by congruence.
    exists p'. split_and!; [done|congruence|].
    intros v Hv. destruct (Hfr' v Hv) as [Hold|(x & q & Hq & ->)]; [auto|].
    exists (pd_id q). split; [done|]. rewrite (Hfiled x q Hq). eauto.
Qed.

Lemma as_id_PyStr vs js : mapM as_id vs = Some js → vs = PyStr <$> js.
Proof.
  intros Hm. symmetry. eapply mapM_fmap_Some_inv; [done|].
  by intros [s|a] y [= ->].
Qed.

(** [serialize_functional] followed by [deserialize_functional], on a
    registry that files every person under its id. *)
Lemma roundtrip_functional factory (h : pheap) d root p :
  registry_ok h d → all_filed h d → factory_keeps factory →
  iso_reversible → h !! root = Some p →
  ∃ c h' root' d',
    (∀ fuel, length d < fuel →
       serialize_functional fuel h root d = Done c) ∧
    deserialize_functional factory c = Done (h', root', d') ∧
    pydict_get d' (pd_id p) = Some root' ∧
    frestores h d (pd_id p) h' root' ∧
    ∀ i, id_reachable h d (pd_id p) i →
         ∃ a', pydict_get d' i = Some a' ∧ frestores h d i h' a'.
Proof.
  intros Hreg Hfiled Hkeeps Hiso Hroot.
  destruct (serialize_functional_preorder h d root p Hreg Hroot)
    as (order & objs & Hpre & Hflat & Hrun); [by rewrite (Hfiled _ _ Hroot)|].
  destruct (registered_container_ok h d _ order objs Hreg Hiso Hpre Hflat)
    as (Hts & Hrefs & Hnd & Hids).
  destruct (preorder_root _ _ _ Hpre) as (_ & Hreach & _).
  destruct (deserialize_functional_rebuilt factory
              (mkContainer (pd_id p) objs))
    as (h' & d' & root' & Hdes & Hrb & Hroot'); [done..| |].
  { cbn [root_id objects]. rewrite Hids. apply Hreach, rtc_refl. }
  cbn [root_id objects] in *.
  assert (Hnode : ∀ i, id_reachable h d (pd_id p) i →
            ∃ a', pydict_get d' i = Some a' ∧ frestores h d i h' a').
  { intros i [n Hn]%Hreach%list_elem_of_lookup.
    destruct (Forall2_lookup_l _ _ _ _ _ Hflat Hn) as (r & Hr & Hf).
    destruct (pflat_of_Some _ _ _ _ Hf) as (q & js & Hq & Hjs & ->).
    pose proof (registry_person_id _ _ _ _ Hreg Hq) as Hqid.
    destruct (frebuilt_record factory objs h' d' _ Hrb Hnd
                (list_elem_of_lookup_2 _ _ _ Hr))
      as (a' & q' & Ha' & Hq' & (t & Ht & Hid & Hname & Hborn) & Hl).
    cbn in *. rewrite Hiso in Ht. injection Ht as <-.
    destruct (Hkeeps (pd_name q) (pd_born_in q)) as [Hkn Hkb].
    exists a'. split; [congruence|]. exists q, q'.
    split_and!; [done|done|done|congruence|congruence|].
    rewrite (frebuilt_friend_ids factory objs h' d' q' js); [| done..|].
    - unfold friend_ids_of in Hjs. rewrite Hq in Hjs. cbn in Hjs.
      symmetry. by apply as_id_PyStr.
    - intros j Hj.
      eapply (Hrefs _ j (list_elem_of_lookup_2 _ _ _ Hr)). done. }
  exists (mkContainer (pd_id p) objs), h', root', d'.
  split_and!; [done..| |done].
  destruct (Hnode (pd_id p) (rtc_refl _ _)) as (a' & Ha' & Hres).
  by assert (a' = root') as -> by congruence.
Qed.
End functional_roundtrip.

Lemma triangle_data_built : fbuilt triangle_data all_persons.
Proof.
  pose (ivan := @Functional.mkData test_dates "id-ivan" "Ivan" born_1990_05_15).
  pose (maria :=
    @Functional.mkData test_dates "id-maria" "Maria" born_1992_08_22).
  pose (alexey :=
    @Functional.mkData test_dates "id-alexey" "Alexey" born_1988_03_10).
  apply (fbuilt_add_friend
           [ivan [PyStr "id-maria"];
            maria [PyStr "id-ivan"; PyStr "id-alexey"];
            alexey [PyStr "id-maria"]] all_persons 2 0); [|reflexivity].
  apply (fbuilt_add_friend
           [ivan [PyStr "id-maria"]; maria [PyStr "id-ivan"]; alexey []]
           all_persons 1 2); [|reflexivity].
  apply (fbuilt_add_friend [ivan []; maria []; alexey []]
           all_persons 0 1); [|reflexivity].
  apply (fbuilt_create (H:=test_dates) [ivan []; maria []]
           [("id-ivan", 0); ("id-maria", 1)]
           "id-alexey" "Alexey" born_1988_03_10); [|reflexivity].
  apply (fbuilt_create (H:=test_dates) [ivan []] [("id-ivan", 0)]
           "id-maria" "Maria" born_1992_08_22); [|reflexivity].
  apply (fbuilt_create (H:=test_dates) [] [] "id-ivan" "Ivan" born_1990_05_15);
    [|reflexivity].
  apply fbuilt_empty.
Qed.

Lemma create_person_with_friends_keeps `{DateTimeText} uid :
  factory_keeps (Functional.create_person_with_friends uid).
Proof. by intros name t. Qed.

(** C1: take a graph built with the constructor and [add_friend] and the
    timestamps' text form reversible, as the standard library has it.  Then
    serialization from a live root followed by deserialization returns an
    object with the id, name and timestamp of the root; and for every node of
    the root's graph, that is every node the root reaches, the returned graph
    has a node, reached from the returned root, with the same id, name and
    timestamp whose friends have the same ids, even in the same order.  The
    first half is for the two serializers on objects, the second for the
    functional pair, with any callback that stores the name and timestamp it
    is given, as [create_person_with_friends] does; there the reconstructed
    node is the one that the returned mapping files under the id. *)
Theorem roundtrip `{DateTimeText} :
  iso_reversible →
  (∀ (h : heap) root,
     built h → root < length h →
     ∃ objs h' root',
       (∀ fuel, length h < fuel →
          Encapsulated.serialize fuel h root = Done objs ∧
          DirectAccess.serialize fuel h root = Done objs) ∧
       Encapsulated.deserialize objs = Done (h', root') ∧
       DirectAccess.deserialize objs = Done (h', root') ∧
       restores h root h' root' ∧
       ∀ a, reachable h root a →
            ∃ a', reachable h' root' a' ∧ restores h a h' a') ∧
  (∀ factory (h : Functional.pheap) d root p,
     fbuilt h d → factory_keeps factory → h !! root = Some p →
     ∃ c h' root' d',
       (∀ fuel, length d < fuel →
          Functional.serialize_functional fuel h root d = Done c) ∧
       Functional.deserialize_functional factory c = Done (h', root', d') ∧
       pydict_get d' (Functional.pd_id p) = Some root' ∧
       frestores h d (Functional.pd_id p) h' root' ∧
       ∀ i, id_reachable h d (Functional.pd_id p) i →
            ∃ a', pydict_get d' i = Some a' ∧ frestores h d i h' a').
Proof.
  intros Hiso. split.
  - intros h root (Hcl & Hu & _)%built_invariants Hroot.
    destruct (roundtrip_objects h root Hcl Hu Hiso Hroot)
      as (objs & h' & root' & Hser & Hdes & Hres & Hall).
    exists objs, h', root'. by rewrite direct_access_deserialize.
  - intros factory h d root p [Hreg Hfiled]%fbuilt_invariants Hkeeps Hroot.
    by apply roundtrip_functional.
Qed.

(** The triangle of the test suite, serialized from Ivan and read back. *)
Lemma roundtrip_witness :
  (∃ objs h' root',
     Encapsulated.serialize 4 triangle 0 = Done objs ∧
     Encapsulated.deserialize objs = Done (h', root') ∧
     restores triangle 0 h' root') ∧
  (∃ c h' root' d',
     Functional.serialize_functional 4 triangle_data 0 all_persons = Done c ∧
     Functional.deserialize_functional (H:=test_dates) test_factory c
     = Done (h', root', d') ∧
     frestores triangle_data all_persons "id-ivan" h' root').
Proof.
  split.
  - destruct (proj1 (roundtrip (H:=test_dates) test_dates_reversible)
                triangle 0 triangle_built)
      as (objs & h' & root' & Hser & Hdes & _ & Hres & _).
    + cbn. lia.
    + exists objs, h', root'. split_and!; [|done..].
      apply (Hser 4). cbn. lia.
  - destruct (proj2 (roundtrip (H:=test_dates) test_dates_reversible)
                test_factory triangle_data all_persons 0 _
                triangle_data_built
                (create_person_with_friends_keeps "fresh-uuid") eq_refl)
      as (c & h' & root' & d' & Hser & Hdes & _ & Hres & _).
    exists c, h', root', d'. split_and!; [|done..].
    apply (Hser 4). cbn. lia.
Defined.

(** ** The claim on the symmetry of [add_friend] *)

Section functional_symmetry.
Context `{DateTimeText}.
Import Functional.

(** Appending a value to the 'friends' entry of one person dict. *)
Lemma lookup_insert_pd_append (h : pheap) a p v z :
  h !! a = Some p →
  (∀ qz, h !! z = Some qz →
     ∃ pz, <[a := pd_append p v]> h !! z = Some pz ∧ pd_id pz = pd_id qz ∧
           pd_friends pz
           = pd_friends qz ++ (if decide (z = a) then [v] else [])) ∧
  (∀ pz, <[a := pd_append p v]> h !! z = Some pz →
     ∃ qz, h !! z = Some qz ∧ pd_id pz = pd_id qz ∧
           pd_friends pz
           = pd_friends qz ++ (if decide (z = a) then [v] else [])).
Proof.
  intros Ha. assert (a < length h) by (by eapply lookup_lt_Some).
  destruct (decide (z = a)) as [->|Hz].
  - rewrite list_lookup_insert_eq by done. split.
    + intros qz Hqz. simplify_eq. by eexists.
    + intros pz [= <-]. by exists p.
  - rewrite list_lookup_insert_ne by done. split.
    + intros qz Hqz. exists qz. by rewrite app_nil_r.
    + intros pz Hpz. exists pz. by rewrite app_nil_r.
Qed.

Lemma has_friend_insert_append (h : pheap) a p v x y :
  h !! a = Some p →
  has_friend (<[a := pd_append p v]> h) x y ↔
  has_friend h x y ∨ (x = a ∧ ∃ q, h !! y = Some q ∧ v = PyStr (pd_id q)).
Proof.
  intros Ha. split.
  - intros (px & py & Hx & Hy & Hin).
    apply (lookup_insert_pd_append h a p v x Ha) in Hx
      as (qx & Hqx & _ & Hfx).
    apply (lookup_insert_pd_append h a p v y Ha) in Hy
      as (qy & Hqy & Hid & _).
    rewrite Hfx, Hid in Hin. apply elem_of_app in Hin as [Hin|Hin].
    + left. by exists qx, qy.
    + case_decide; [|by apply elem_of_nil in Hin].
      apply list_elem_of_singleton in Hin. right. split; [done|].
      by exists qy.
  - intros [(qx & qy & Hqx & Hqy & Hin)|(-> & q & Hq & ->)].
    + destruct (proj1 (lookup_insert_pd_append h a p v x Ha) qx Hqx)
        as (px & Hx & _ & Hfx).
      destruct (proj1 (lookup_insert_pd_append h a p v y Ha) qy Hqy)
        as (py & Hy & Hid & _).
      exists px, py. split_and!; [done..|]. rewrite Hfx, Hid. set_solver.
    + set (v := PyStr (pd_id q)).
      destruct (proj1 (lookup_insert_pd_append h a p v a Ha) p Ha)
        as (px & Hx & _ & Hfx).
      destruct (proj1 (lookup_insert_pd_append h a p v y Ha) q Hq)
        as (py & Hy & Hid & _).
      exists px, py. split_and!; [done..|]. rewrite Hfx, Hid.
      rewrite decide_True by done. set_solver.
Qed.

(** The functional [add_friend] keeps the ids lists mutual: every state
    reached with [create_person_data], registration and [add_friend] has
    [id(B)] in the list of [A] exactly when [id(A)] is in the list of [B]. *)
Lemma fbuilt_symmetric (h : pheap) d : fbuilt h d → pfriends_symmetric h.
Proof.
  induction 1 as [|h d uid name born_in Hb IH Hfresh|h d a b h' Hb IH Hadd].
  - intros a b. unfold has_friend. setoid_rewrite lookup_nil. naive_solver.
  - destruct (fbuilt_invariants h d Hb) as [Hreg Hfiled].
    assert (Hold : ∀ a b,
      has_friend (h ++ [create_person_data uid name born_in]) a b
      ↔ has_friend h a b).
    { intros a b. split.
      - intros (p & q & Hp & Hq & Hin).
        apply lookup_app_Some in Hp as [Hp|[_ Hp]].
        2: { apply list_lookup_singleton_Some in Hp as [_ <-].
             by apply elem_of_nil in Hin. }
        apply lookup_app_Some in Hq as [Hq|[_ Hq]]; [by exists p, q|].
        apply list_lookup_singleton_Some in Hq as [_ <-]. cbn in Hin.
        exfalso. destruct (Hreg _ _ (Hfiled _ _ Hp)) as (p' & Hp' & _ & Hfr).
        assert (p' = p) as -> by congruence.
        destruct (Hfr _ Hin) as (j & [= <-] & [r Hr]). congruence.
      - intros (p & q & Hp & Hq & Hin). exists p, q.
        split_and!; [by apply lookup_app_l_Some..|done]. }
    intros a b. rewrite !Hold. apply IH.
  - destruct (fbuilt_invariants h d Hb) as [_ Hfiled].
    assert (Hu : ∀ x y px py,
      h !! x = Some px → h !! y = Some py → pd_id px = pd_id py → x = y).
    { intros x y px py Hx Hy Hid. pose proof (Hfiled _ _ Hx) as H1.
      pose proof (Hfiled _ _ Hy) as H2. rewrite Hid in H1. congruence. }
    destruct (h !! a) as [p|] eqn:Ha.
    2: { unfold Functional.add_friend, pderef in Hadd. by rewrite Ha in Hadd. }
    destruct (h !! b) as [q|] eqn:Hq.
    2: { unfold Functional.add_friend, pderef in Hadd.
         rewrite Ha in Hadd. cbn in Hadd. by rewrite Hq in Hadd. }
    assert (a < length h) by (by eapply lookup_lt_Some).
    assert (b < length h) by (by eapply lookup_lt_Some).
    assert (Hchar : h' = h ∨ ∀ x y,
      has_friend h' x y ↔
      has_friend h x y ∨ (x = a ∧ y = b) ∨ (x = b ∧ y = a)).
    { destruct (decide (a = b)) as [<-|Hab].
      - rewrite (functional_add_friend_self _ _ _ _ Ha) in Hadd.
        case_decide; injection Hadd as <-; [by left|]. right. intros x y.
        set (i := PyStr (pd_id p)).
        rewrite <- (list_insert_insert_eq h a _ (pd_append p i)).
        assert (Ha1 : <[a := pd_append p i]> h !! a = Some (pd_append p i))
          by (by apply list_lookup_insert_eq).
        rewrite (has_friend_insert_append _ a _ i x y Ha1).
        rewrite (has_friend_insert_append _ a _ i x y Ha).
        split.
        + intros [[?|(-> & q' & Hq' & Hid)]|(-> & q' & Hq' & Hid)].
          * by left.
          * right. left. split; [done|]. subst i. injection Hid as Hid.
            symmetry. apply (Hu a y p q' Ha Hq' Hid).
          * right. left. split; [done|].
            apply (lookup_insert_pd_append h a p i y Ha) in Hq'
              as (q0 & Hq0 & Hid0 & _).
            subst i. injection Hid as Hid. symmetry.
            apply (Hu a y p q0 Ha Hq0). congruence.
        + intros [?|[[-> ->]|[-> ->]]]; [by left; left|..];
            left; right; (split; [done|]); by exists p.
      - rewrite (functional_add_friend_distinct _ _ _ _ _ _ Hab Ha Hq) in Hadd.
        case_decide; injection Hadd as <-; [by left|]. right. intros x y.
        assert (Hb1 : <[a := pd_append p (PyStr (pd_id q))]> h !! b = Some q)
          by (by rewrite list_lookup_insert_ne).
        rewrite (has_friend_insert_append _ b _ _ x y Hb1).
        rewrite (has_friend_insert_append _ a _ _ x y Ha).
        split.
        + intros [[?|(-> & q' & Hq' & [= Hid])]|(-> & q' & Hq' & [= Hid])].
          * by left.
          * right. left. split; [done|]. symmetry.
            apply (Hu b y q q' Hq Hq' Hid).
          * right. right. split; [done|].
            apply (lookup_insert_pd_append h a p _ y Ha) in Hq'
              as (q0 & Hq0 & Hid0 & _).
            symmetry. apply (Hu a y p q0 Ha Hq0). congruence.
        + intros [?|[[-> ->]|[-> ->]]]; [by left; left|..].
          * left. right. split; [done|]. by exists q.
          * right. split; [done|].
            destruct (proj1 (lookup_insert_pd_append h a p
                               (PyStr (pd_id q)) a Ha) p Ha)
              as (p1 & Hp1 & Hid1 & _).
            exists p1. split; [done|]. by rewrite Hid1. }
    destruct Hchar as [->|Hchar]; [done|].
    intros x y. rewrite !Hchar. specialize (IH x y). naive_solver.
Qed.
End functional_symmetry.

(** C3, as stated, fails on a one-way link.  The builder restores the
    friends lists as the records give them: from records in which Ivan lists
    Maria and Maria lists nobody it returns such a pair.  [add_friend(Ivan,
    Maria)] finds Maria in the list of Ivan, stops at its first test and
    changes nothing: Ivan is not in the list of Maria afterwards. *)
Lemma add_friend_one_way_counterexample :
  ∃ (h : list (@Person test_dates)) ivan maria,
    Encapsulated.deserialize one_way_records
    = Done (h, ivan) ∧
    DirectAccess.deserialize one_way_records = Done (h, ivan) ∧
    ivan ≠ maria ∧
    (@_name test_dates <$> h !! ivan) = Some "Ivan" ∧
    (@_name test_dates <$> h !! maria) = Some "Maria" ∧
    add_friend h ivan maria = Done h ∧
    DirectAccess.add_friend h ivan maria = Done h ∧
    is_friend h ivan maria ∧ ¬ is_friend h maria ivan.
Proof.
  eexists _, 0, 1. split_and!; [reflexivity|reflexivity|done|reflexivity..| |].
  - eexists. split; [reflexivity|]. cbn. set_solver.
  - intros (p & Hp & Hin). cbn in Hp. injection Hp as <-.
    by apply elem_of_nil in Hin.
Qed.

(** C3, amended: [add_friend(A, B)] on two distinct live persons returns,
    and afterwards [B] is in the friends list of [A].  [A] is in the friends
    list of [B] afterwards exactly when it was there before or [B] was not in
    the list of [A] before: a link from [A] to [B] that [B] does not return
    is left as it is.  On every heap built with the constructor and
    [add_friend] alone the links are mutual, so there both memberships hold.
    A second [add_friend(A, B)] returns the heap unchanged, in every case.
    The first half is the method shared by [Person] and
    [PersonDirectAccess], for every recursion budget of at least two calls;
    the second half is the function of the functional variant, where
    membership is membership of the id, and [fbuilt] its states reached
    with [create_person_data], registration and [add_friend]. *)
Theorem add_friend_mutual_unless_one_way `{DateTimeText} :
  (∀ (h : heap) a b,
     a ≠ b → a < length h → b < length h →
     ∃ h', (∀ fuel, 2 ≤ fuel → add_friend_rec fuel h a b = Done h') ∧
           DirectAccess.add_friend h a b = Done h' ∧
           is_friend h' a b ∧
           (is_friend h' b a ↔ is_friend h b a ∨ ¬ is_friend h a b) ∧
           (built h → is_friend h' b a) ∧
           (∀ fuel, 2 ≤ fuel → add_friend_rec fuel h' a b = Done h') ∧
           DirectAccess.add_friend h' a b = Done h') ∧
  (∀ (h : Functional.pheap) a b d,
     a ≠ b → a < length h → b < length h →
     ∃ h', Functional.add_friend h a b d = Done h' ∧
           has_friend h' a b ∧
           (has_friend h' b a ↔ has_friend h b a ∨ ¬ has_friend h a b) ∧
           (∀ d0, fbuilt h d0 → has_friend h' b a) ∧
           Functional.add_friend h' a b d = Done h').
Proof.
  split.
  - intros h a b Hab [s Ha]%lookup_lt_is_Some [f Hb]%lookup_lt_is_Some.
    assert (a < length h) by (by eapply lookup_lt_Some).
    assert (b < length h) by (by eapply lookup_lt_Some).
    assert (Hdec : is_friend h a b ∨ ¬ is_friend h a b).
    { destruct (decide (b ∈ _friends s)) as [Hin|Hin].
      - left. by exists s.
      - right. intros (s' & Hs' & Hin'). by simplify_eq. }
    assert (Hok : ∃ h', add_friend h a b = Done h' ∧ is_friend h' a b ∧
                        (is_friend h' b a ↔
                         is_friend h b a ∨ ¬ is_friend h a b) ∧
                        add_friend h' a b = Done h').
    { rewrite (add_friend_distinct _ _ _ _ _ Hab Ha Hb).
      destruct (decide (b ∈ _friends s)) as [Hin|Hin].
      - exists h. assert (Hfr : is_friend h a b) by (by exists s).
        split_and!; [done|done|naive_solver|].
        rewrite (add_friend_distinct _ _ _ _ _ Hab Ha Hb).
        by rewrite decide_True.
      - assert (Hno : ¬ is_friend h a b).
        { intros (s' & Hs' & Hin'). by simplify_eq. }
        set (s' := friends_append s b).
        assert (Hs' : b ∈ _friends s') by (cbn; set_solver).
        destruct (decide (a ∈ _friends f)) as [Hf|Hf].
        + exists (<[a:=s']> h).
          assert (Ha' : <[a:=s']> h !! a = Some s')
            by (by apply list_lookup_insert_eq).
          assert (Hb' : <[a:=s']> h !! b = Some f)
            by (by rewrite list_lookup_insert_ne).
          assert (is_friend (<[a:=s']> h) b a) by (by exists f).
          split_and!; [done|by exists s'|naive_solver|].
          rewrite (add_friend_distinct _ _ _ _ _ Hab Ha' Hb').
          by rewrite decide_True.
        + set (f' := friends_append f a).
          exists (<[b:=f']> (<[a:=s']> h)).
          assert (Ha' : <[b:=f']> (<[a:=s']> h) !! a = Some s').
          { rewrite list_lookup_insert_ne by done.
            by apply list_lookup_insert_eq. }
          assert (Hb' : <[b:=f']> (<[a:=s']> h) !! b = Some f').
          { apply list_lookup_insert_eq. by rewrite length_insert. }
          assert (is_friend (<[b:=f']> (<[a:=s']> h)) b a).
          { exists f'. split; [done|]. cbn. set_solver. }
          split_and!; [done|by exists s'|naive_solver|].
          rewrite (add_friend_distinct _ _ _ _ _ Hab Ha' Hb').
          by rewrite decide_True. }
    destruct Hok as (h' & Hadd & ? & Hiff & Hadd'). exists h'.
    split_and!; try done.
    + intros fuel Hfuel. by rewrite add_friend_rec_fuel.
    + intros Hbuilt. apply Hiff.
      destruct (built_invariants h Hbuilt) as (_ & _ & Hsym).
      destruct Hdec as [Hfr|Hno]; [left; by apply Hsym|by right].
    + intros fuel Hfuel. by rewrite add_friend_rec_fuel.
  - intros h a b d Hab [p Ha]%lookup_lt_is_Some [q Hb]%lookup_lt_is_Some.
    rewrite (functional_add_friend_distinct _ _ _ _ _ _ Hab Ha Hb).
    assert (a < length h) by (by eapply lookup_lt_Some).
    assert (b < length h) by (by eapply lookup_lt_Some).
    assert (Hiff : ∀ h', has_friend h' a b →
      (has_friend h' b a ↔ has_friend h b a ∨ ¬ has_friend h a b) →
      (∀ d0, fbuilt h d0 → has_friend h' b a)).
    { intros h' _ Hiff d0 Hbuilt. apply Hiff.
      destruct (decide (PyStr (Functional.pd_id q)
                        ∈ Functional.pd_friends p)) as [Hin|Hin].
      - left. apply (fbuilt_symmetric h d0 Hbuilt). by exists p, q.
      - right. intros (p' & q' & Hp' & Hq' & Hin'). by simplify_eq. }
    destruct (decide (PyStr (Functional.pd_id q) ∈ Functional.pd_friends p))
      as [Hin|Hin].
    + exists h. assert (Hfr : has_friend h a b) by (by exists p, q).
      assert (has_friend h b a ↔ has_friend h b a ∨ ¬ has_friend h a b)
        by naive_solver.
      split_and!; [done|done|done|by apply Hiff|].
      rewrite (functional_add_friend_distinct _ _ _ _ _ _ Hab Ha Hb).
      by rewrite decide_True.
    + assert (Hno : ¬ has_friend h a b).
      { intros (p' & q' & Hp' & Hq' & Hin'). by simplify_eq. }
      eexists. split; [done|].
      set (p' := Functional.pd_append p (PyStr (Functional.pd_id q))).
      set (q' := Functional.pd_append q (PyStr (Functional.pd_id p))).
      assert (Ha' : <[b:=q']> (<[a:=p']> h) !! a = Some p').
      { rewrite list_lookup_insert_ne by done.
        by rewrite list_lookup_insert_eq. }
      assert (Hb' : <[b:=q']> (<[a:=p']> h) !! b = Some q').
      { by rewrite list_lookup_insert_eq by (by rewrite length_insert). }
      assert (PyStr (Functional.pd_id q') ∈ Functional.pd_friends p')
        by (cbn; set_solver).
      assert (PyStr (Functional.pd_id p') ∈ Functional.pd_friends q')
        by (cbn; set_solver).
      assert (has_friend (<[b:=q']> (<[a:=p']> h)) a b) by (by exists p', q').
      assert (has_friend (<[b:=q']> (<[a:=p']> h)) b a) by (by exists q', p').
      assert (has_friend (<[b:=q']> (<[a:=p']> h)) b a
              ↔ has_friend h b a ∨ ¬ has_friend h a b) by naive_solver.
      split_and!; [done|done|by apply Hiff|].
      rewrite (functional_add_friend_distinct _ _ _ _ _ _ Hab Ha' Hb').
      by rewrite decide_True.
Qed.

(** Ivan and Maria, not friends yet: both lists are extended.  And the pair
    restored from the records in which only Ivan lists Maria: nothing is
    changed, and Ivan is not in the list of Maria. *)
Lemma add_friend_mutual_unless_one_way_witness :
  (∃ h', add_friend ivan_maria 0 1 = Done h' ∧
         is_friend h' 0 1 ∧ is_friend h' 1 0 ∧
         add_friend h' 0 1 = Done h') ∧
  (∃ h', add_friend
           [@mkPerson test_dates "Ivan" [1] born_1990_05_15 "id-ivan";
            @mkPerson test_dates "Maria" [] born_1992_08_22 "id-maria"] 0 1
         = Done h' ∧
         is_friend h' 0 1 ∧ ¬ is_friend h' 1 0) ∧
  (∃ h', Functional.add_friend ivan_maria_data 0 1 [] = Done h' ∧
         has_friend h' 0 1 ∧ has_friend h' 1 0 ∧
         Functional.add_friend h' 0 1 [] = Done h').
Proof.
  split_and!.
  - destruct (proj1 (add_friend_mutual_unless_one_way (H:=test_dates))
                ivan_maria 0 1)
      as (h' & Hadd & _ & ? & Hiff & _ & Hadd' & _); [done|cbn; lia|cbn; lia|].
    exists h'. split_and!; [by apply (Hadd 2)|done| |by apply (Hadd' 2)].
    apply Hiff. right. intros (p & Hp & Hin). injection Hp as <-.
    by apply elem_of_nil in Hin.
  - destruct (proj1 (add_friend_mutual_unless_one_way (H:=test_dates))
                [@mkPerson test_dates "Ivan" [1] born_1990_05_15 "id-ivan";
                 @mkPerson test_dates "Maria" [] born_1992_08_22 "id-maria"]
                0 1)
      as (h' & Hadd & _ & ? & Hiff & _); [done|cbn; lia|cbn; lia|].
    exists h'. split_and!; [by apply (Hadd 2)|done|].
    intros [(p & Hp & Hin)|Hno]%Hiff.
    + injection Hp as <-. by apply elem_of_nil in Hin.
    + apply Hno. eexists. split; [reflexivity|]. cbn. set_solver.
  - destruct (proj2 (add_friend_mutual_unless_one_way (H:=test_dates))
                ivan_maria_data 0 1 []) as (h' & ? & ? & Hiff & _ & ?);
      [done|cbn; lia|cbn; lia|].
    exists h'. split_and!; [done|done| |done].
    apply Hiff. right. intros (p & q & Hp & _ & Hin). injection Hp as <-.
    by apply elem_of_nil in Hin.
Defined.

(** ** The copy returned by [get_friends] *)

Section aliasing.
Context `{DateTimeText}.
Local Abbreviation heap_add_friend_rec := add_friend_rec.
Local Abbreviation heap_Person_init := Person_init.
Import Aliasing.

Lemma get_friends_Done (s s1 : store) self l :
  Aliasing.get_friends s self = Done (s1, l) →
  ∃ o xs, persons s !! self = Some o ∧ lists s !! o_friends o = Some xs ∧
          s1 = mkStore (persons s) (lists s ++ [xs]) ∧ l = length (lists s).
Proof.
  unfold Aliasing.get_friends, person_at, list_at.
  destruct (persons s !! self) as [o|] eqn:Ho; [|done]. cbn.
  destruct (lists s !! o_friends o) as [xs|] eqn:Hxs; [|done]. cbn.
  intros [= <- <-]. by exists o, xs.
Qed.

(** The snapshot depends on the persons and on their own lists only. *)
Lemma snapshot_ext (s s' : store) :
  persons s' = persons s →
  (∀ o, o ∈ persons s → lists s' !! o_friends o = lists s !! o_friends o) →
  snapshot s' = snapshot s.
Proof.
  intros Hp Hl. unfold snapshot. rewrite Hp.
  apply list_fmap_ext. intros n o Ho.
  by rewrite Hl by (by eapply list_elem_of_lookup_2).
Qed.

(** Changes of a list object leave the persons and every other list object
    as they are. *)
Lemma list_mutations_frame (s : store) l fs :
  persons (list_mutations s l fs) = persons s ∧
  length (lists (list_mutations s l fs)) = length (lists s) ∧
  ∀ k, k ≠ l → lists (list_mutations s l fs) !! k = lists s !! k.
Proof.
  revert s. induction fs as [|f fs IH]; intros s; [done|].
  change (list_mutations s l (f :: fs))
    with (list_mutations (list_mutate s l f) l fs).
  destruct (IH (list_mutate s l f)) as (Hp & Hlen & Hl).
  rewrite Hp, Hlen. split_and!.
  - done.
  - cbn. by rewrite length_alter.
  - intros k Hk. rewrite Hl by done. cbn.
    by rewrite list_lookup_alter_ne.
Qed.

Lemma snapshot_lookup (s : store) a o :
  persons s !! a = Some o →
  snapshot s !! a =
    Some (mkPerson (o_name o) (default [] (lists s !! o_friends o))
                   (o_born_in o) (o_id o)).
Proof. intros Ho. unfold snapshot. by rewrite list_lookup_fmap, Ho. Qed.

Lemma snapshot_deref (s : store) a :
  deref (snapshot s) a =
  (λ o, mkPerson (o_name o) (default [] (lists s !! o_friends o))
                 (o_born_in o) (o_id o)) <$> person_at s a.
Proof.
  unfold deref, person_at, snapshot. rewrite list_lookup_fmap.
  by destruct (persons s !! a).
Qed.

Lemma person_at_Some (s : store) a o :
  persons s !! a = Some o → person_at s a = Done o.
Proof. unfold person_at. by intros ->. Qed.

Lemma person_at_None (s : store) a :
  persons s !! a = None → person_at s a = Raise (InvalidReference a).
Proof. unfold person_at. by intros ->. Qed.

Lemma list_at_Some (s : store) l xs :
  lists s !! l = Some xs → list_at s l = Done xs.
Proof. unfold list_at. by intros ->. Qed.

Lemma comprehension_ids_snapshot (s : store) xs :
  comprehension (λ friend, o_id <$> person_at s friend) xs =
  comprehension (λ friend, _id <$> deref (snapshot s) friend) xs.
Proof.
  induction xs as [|x xs IH]; [done|].
  rewrite !comprehension_cons, IH, snapshot_deref.
  by destruct (person_at s x).
Qed.

Lemma to_dict_snapshot (s : store) a :
  store_ok s →
  Aliasing.to_dict s a = Encapsulated.to_dict (snapshot s) a.
Proof.
  intros Hok. unfold Aliasing.to_dict, Encapsulated.to_dict.
  rewrite snapshot_deref.
  destruct (persons s !! a) as [o|] eqn:Ho.
  2: { by rewrite (person_at_None _ _ Ho). }
  rewrite (person_at_Some _ _ _ Ho). cbn.
  destruct (lookup_lt_is_Some_2 (lists s) (o_friends o)) as [xs Hxs].
  { apply Hok. by eapply list_elem_of_lookup_2. }
  rewrite (list_at_Some _ _ _ Hxs), Hxs. cbn.
  by rewrite comprehension_ids_snapshot.
Qed.

(** The collector on the store walks the snapshot: what it visits and emits
    is what the collector on the heap does, and the copies it leaves in the
    store change no person. *)
Lemma collect_snapshot fuel :
  ∀ p (s : store) visited out,
    store_ok s →
    match Aliasing.collect_objects fuel p (s, visited, out) with
    | Done (s', visited', out') =>
        Encapsulated.collect_objects fuel (snapshot s) p (visited, out)
        = Done (visited', out') ∧
        store_ok s' ∧ snapshot s' = snapshot s
    | Raise e =>
        Encapsulated.collect_objects fuel (snapshot s) p (visited, out)
        = Raise e
    | OutOfFuel =>
        Encapsulated.collect_objects fuel (snapshot s) p (visited, out)
        = OutOfFuel
    end.
Proof.
  induction fuel as [|fuel IH]; intros p s visited out Hok; [done|].
  cbn [Aliasing.collect_objects Encapsulated.collect_objects].
  unfold Aliasing.get_id, Encapsulated.get_id, Encapsulated.get_friends.
  rewrite snapshot_deref, <-to_dict_snapshot by done.
  destruct (persons s !! p) as [o|] eqn:Ho.
  2: { by rewrite (person_at_None _ _ Ho). }
  rewrite (person_at_Some _ _ _ Ho). cbn.
  destruct (decide (o_id o ∈ visited)); [done|].
  destruct (Aliasing.to_dict s p) as [d| |]; cbn; [|done..].
  destruct (lookup_lt_is_Some_2 (lists s) (o_friends o)) as [xs Hxs].
  { apply Hok. by eapply list_elem_of_lookup_2. }
  unfold Aliasing.get_friends.
  rewrite (person_at_Some _ _ _ Ho), bind_Done.
  rewrite (list_at_Some _ _ _ Hxs), bind_Done, bind_Done. cbn [fst snd].
  set (s1 := mkStore (persons s) (lists s ++ [xs])).
  assert (Hs1l : list_at s1 (length (lists s)) = Done xs).
  { apply list_at_Some. cbn. by rewrite lookup_app_r, Nat.sub_diag by lia. }
  rewrite Hs1l, bind_Done, Hxs. cbn [default].
  assert (Hok1 : store_ok s1).
  { intros o' Ho'. cbn. rewrite length_app. specialize (Hok o' Ho'). lia. }
  assert (Hs1 : snapshot s1 = snapshot s).
  { apply snapshot_ext; [done|]. intros o' Ho'. cbn.
    apply lookup_app_l. by apply Hok. }
  rewrite <-Hs1. unfold id. generalize Hok1. generalize s1.
  generalize ({[o_id o]} ∪ visited) (out ++ [d]). clear -IH.
  induction xs as [|x xs IHxs]; intros vis0 out0 s0 Hok0; [done|].
  rewrite !for_each_cons. specialize (IH x s0 vis0 out0 Hok0).
  destruct (Aliasing.collect_objects fuel x (s0, vis0, out0))
    as [[[s' vis'] out']| |]; [|by rewrite IH..].
  destruct IH as (-> & Hok' & Hsnap). rewrite !bind_Done.
  specialize (IHxs vis' out' s' Hok'). rewrite Hsnap in IHxs.
  destruct (for_each (Aliasing.collect_objects fuel) xs (s', vis', out'))
    as [[[s'' vis''] out'']| |]; [|done..].
  destruct IHxs as (-> & Hok'' & Hsnap''). split_and!; [done..|congruence].
Qed.

(** Appending to the list object of a person is appending to the friends
    list of that person alone, since no other person refers to the object. *)
Lemma snapshot_append (s : store) a o xs x :
  unshared s → persons s !! a = Some o →
  lists s !! o_friends o = Some xs →
  snapshot (list_append s (o_friends o) x) =
  <[a := friends_append
           (mkPerson (o_name o) xs (o_born_in o) (o_id o)) x]> (snapshot s).
Proof.
  intros Hun Ho Hxs. apply list_eq. intros k.
  assert (Ha : a < length (snapshot s)).
  { unfold snapshot. rewrite length_fmap. by eapply lookup_lt_Some. }
  destruct (decide (k = a)) as [->|Hk].
  - rewrite list_lookup_insert_eq by done.
    rewrite (snapshot_lookup _ _ o) by done. cbn.
    by rewrite list_lookup_alter_eq, Hxs.
  - rewrite list_lookup_insert_ne by done.
    destruct (persons s !! k) as [ok|] eqn:Hok'.
    + rewrite (snapshot_lookup _ _ ok), (snapshot_lookup s _ ok) by done.
      cbn. rewrite list_lookup_alter_ne; [done|].
      intros Heq. apply Hk. by eapply Hun.
    + unfold snapshot. cbn. by rewrite !list_lookup_fmap, Hok'.
Qed.

Lemma list_append_invariants (s : store) l x :
  store_ok s → unshared s →
  store_ok (list_append s l x) ∧ unshared (list_append s l x).
Proof.
  intros Hok Hun. split.
  - intros o Ho. cbn. rewrite length_alter. by apply Hok.
  - done.
Qed.

(** [add_friend] on the store is [add_friend] on the heap that the store
    stands for. *)
Lemma add_friend_snapshot fuel :
  ∀ (s : store) a b,
    store_ok s → unshared s →
    match Aliasing.add_friend_rec fuel s a b with
    | Done s' =>
        heap_add_friend_rec fuel (snapshot s) a b = Done (snapshot s') ∧
        store_ok s' ∧ unshared s'
    | Raise e => heap_add_friend_rec fuel (snapshot s) a b = Raise e
    | OutOfFuel => heap_add_friend_rec fuel (snapshot s) a b = OutOfFuel
    end.
Proof.
  induction fuel as [|fuel IH]; intros s a b Hok Hun; [done|].
  cbn [Aliasing.add_friend_rec heap_add_friend_rec]. rewrite snapshot_deref.
  destruct (persons s !! a) as [o|] eqn:Ho.
  2: { by rewrite (person_at_None _ _ Ho). }
  rewrite (person_at_Some _ _ _ Ho), fmap_Done, !bind_Done.
  destruct (lookup_lt_is_Some_2 (lists s) (o_friends o)) as [xs Hxs].
  { apply Hok. by eapply list_elem_of_lookup_2. }
  rewrite (list_at_Some _ _ _ Hxs), Hxs, !bind_Done. cbn [_friends default].
  unfold id.
  destruct (decide (b ∈ xs)); [done|]. cbv zeta.
  rewrite <-(snapshot_append s a o xs b Hun Ho Hxs).
  destruct (list_append_invariants s (o_friends o) b Hok Hun) as [Hok1 Hun1].
  generalize dependent (list_append s (o_friends o) b). intros s1 Hok1 Hun1.
  rewrite snapshot_deref.
  destruct (persons s1 !! b) as [f|] eqn:Hf.
  2: { by rewrite (person_at_None _ _ Hf). }
  rewrite (person_at_Some _ _ _ Hf), fmap_Done, !bind_Done.
  destruct (lookup_lt_is_Some_2 (lists s1) (o_friends f)) as [ys Hys].
  { apply Hok1. by eapply list_elem_of_lookup_2. }
  rewrite (list_at_Some _ _ _ Hys), Hys, !bind_Done. cbn [_friends default].
  unfold id.
  destruct (decide (a ∈ ys)); [done|].
  apply (IH s1 b a Hok1 Hun1).
Qed.

Lemma Person_init_snapshot (s : store) name born_in uid :
  store_ok s → unshared s →
  snapshot (Aliasing.Person_init s name born_in uid).1
  = (heap_Person_init (snapshot s) name born_in uid).1 ∧
  store_ok (Aliasing.Person_init s name born_in uid).1 ∧
  unshared (Aliasing.Person_init s name born_in uid).1.
Proof.
  intros Hok Hun. split_and!.
  - unfold snapshot. cbn. rewrite fmap_app. cbn.
    rewrite lookup_app_r, Nat.sub_diag by lia. cbn. f_equal.
    apply list_fmap_ext. intros k o Hk. f_equal.
    rewrite lookup_app_l; [done|]. apply Hok. by eapply list_elem_of_lookup_2.
  - intros o. cbn. rewrite length_app. cbn.
    intros [Ho| ->%list_elem_of_singleton]%elem_of_app; [|cbn; lia].
    specialize (Hok o Ho). lia.
  - intros a b oa ob. cbn.
    intros [Ha|[Hla Ha]]%lookup_app_Some [Hb|[Hlb Hb]]%lookup_app_Some Heq.
    + by eapply Hun.
    + apply list_lookup_singleton_Some in Hb as [_ <-]. cbn in Heq.
      pose proof (Hok oa (list_elem_of_lookup_2 _ _ _ Ha)). lia.
    + apply list_lookup_singleton_Some in Ha as [_ <-]. cbn in Heq.
      pose proof (Hok ob (list_elem_of_lookup_2 _ _ _ Hb)). lia.
    + apply list_lookup_singleton_Some in Ha as [? _].
      apply list_lookup_singleton_Some in Hb as [? _]. lia.
Qed.

Lemma serialize_snapshot fuel (s : store) p :
  store_ok s →
  Aliasing.serialize fuel s p = Encapsulated.serialize fuel (snapshot s) p.
Proof.
  intros Hok. unfold Aliasing.serialize, Encapsulated.serialize.
  pose proof (collect_snapshot fuel p s ∅ [] Hok) as Hsim.
  destruct (Aliasing.collect_objects fuel p (s, ∅, []))
    as [[[s' vis'] out']| |]; [|by rewrite Hsim..].
  by destruct Hsim as (-> & _).
Qed.
End aliasing.

(** C10: [get_friends] returns a new list object that holds the elements
    of the person's friends list.  Whatever in-place changes the caller then
    makes to that object, appending and removing among them, the friends list
    of the person (and of every other person) holds what it held, and
    serialization from any root gives what it gave before the call. *)
Theorem get_friends_returns_copy `{DateTimeText}
    (s s1 : Aliasing.store) (P l : addr)
    (changes : list (list addr → list addr)) :
  Aliasing.store_ok s →
  Aliasing.get_friends s P = Done (s1, l) →
  let s2 := Aliasing.list_mutations s1 l changes in
  (∃ o xs, Aliasing.persons s !! P = Some o ∧
           Aliasing.lists s !! Aliasing.o_friends o = Some xs ∧
           Aliasing.lists s1 !! l = Some xs ∧
           l ≠ Aliasing.o_friends o ∧
           Aliasing.lists s2 !! Aliasing.o_friends o = Some xs) ∧
  Aliasing.snapshot s2 = Aliasing.snapshot s ∧
  ∀ fuel root,
    Aliasing.serialize fuel s2 root = Aliasing.serialize fuel s root.
Proof.
  intros Hok (o & xs & Ho & Hxs & -> & ->)%get_friends_Done s2.
  destruct (list_mutations_frame
              (Aliasing.mkStore (Aliasing.persons s) (Aliasing.lists s ++ [xs]))
              (length (Aliasing.lists s)) changes) as (Hp & Hlen & Hl).
  fold s2 in Hp, Hlen, Hl. cbn in Hp, Hlen, Hl.
  assert (Hown : ∀ o', o' ∈ Aliasing.persons s →
            Aliasing.lists s2 !! Aliasing.o_friends o'
            = Aliasing.lists s !! Aliasing.o_friends o').
  { intros o' Ho'. specialize (Hok o' Ho').
    rewrite Hl by lia. by apply lookup_app_l. }
  assert (Hin : o ∈ Aliasing.persons s) by (by eapply list_elem_of_lookup_2).
  assert (Hsnap : Aliasing.snapshot s2 = Aliasing.snapshot s)
    by (by apply snapshot_ext).
  split_and!.
  - exists o, xs. split_and!; [done|done| | |].
    + cbn. by rewrite lookup_app_r, Nat.sub_diag by lia.
    + specialize (Hok o Hin). lia.
    + by rewrite Hown.
  - done.
  - intros fuel root. rewrite !serialize_snapshot, Hsnap; [done|done|].
    intros o' Ho'. rewrite Hp in Ho'. rewrite Hlen, length_app.
    specialize (Hok o' Ho'). lia.
Qed.

Lemma pair_store_ok : Aliasing.store_ok pair_store.
Proof.
  intros o Ho. unfold pair_store in Ho. cbn in Ho. set_unfold.
  destruct Ho as [->|[->|[]]]; cbn; lia.
Qed.

(** A caller appends Maria once more to the list it got for Ivan and then
    removes Ivan's only friend from it: Ivan's list is as it was. *)
Lemma get_friends_returns_copy_witness :
  ∃ s1 l,
    Aliasing.get_friends pair_store 0 = Done (s1, l) ∧
    Aliasing.lists
      (Aliasing.list_mutations s1 l
         [(λ xs, xs ++ [1]); Aliasing.remove_first 1]) !! 0 = Some [1] ∧
    Aliasing.snapshot
      (Aliasing.list_mutations s1 l
         [(λ xs, xs ++ [1]); Aliasing.remove_first 1])
    = Aliasing.snapshot pair_store.
Proof.
  eexists _, _. split; [reflexivity|].
  destruct (get_friends_returns_copy (H:=test_dates) pair_store _ 0 _
              [(λ xs, xs ++ [1]); Aliasing.remove_first 1]
              pair_store_ok eq_refl)
    as ((o & xs & Ho & Hxs & _ & _ & Hkept) & Hsnap & _).
  split; [|exact Hsnap].
  injection Ho as <-. cbn in Hxs. injection Hxs as <-. exact Hkept.
Defined.

(** The list object itself, handed out by reading [_friends], is shared: an
    append through that reference is an append to the friends list of the
    person. *)
Lemma friends_field_is_shared :
  ∃ l, Aliasing.friends_field pair_store 0 = Done l ∧
       Aliasing.snapshot (Aliasing.list_append pair_store l 0) !! 0
       = Some (@mkPerson test_dates "Ivan" [1; 0] born_1990_05_15 "id-ivan").
Proof. eexists. split; reflexivity. Qed.

(** ** The assertions of lab3_test.py and the scenario of the specification

    The triangle Ivan, Maria, Alexey, serialized from Ivan and read back:
    three records with two friend ids each; the restored root is Ivan, born
    1990-05-15, with two friends; the second friend of his first friend is
    Alexey; the functional variant restores three persons. *)

Example test_serialize_triangle :
  Encapsulated.serialize 4 triangle 0 = Done triangle_records ∧
  DirectAccess.serialize 4 triangle 0 = Done triangle_records ∧
  Functional.serialize_functional 4 triangle_data 0 all_persons
  = Done (mkContainer "id-ivan" triangle_records) ∧
  length triangle_records = 3 ∧
  Forall (λ r, length (fr_friends r) = 2) triangle_records.
Proof. split_and!; try reflexivity. repeat constructor. Qed.

Example test_oop_restored :
  ∃ h root ivan first second,
    Encapsulated.deserialize (H:=test_dates) triangle_records
    = Done (h, root) ∧
    DirectAccess.deserialize (H:=test_dates) triangle_records
    = Done (h, root) ∧
    h !! root = Some ivan ∧
    _name ivan = "Ivan" ∧ _born_in ivan = born_1990_05_15 ∧
    length (_friends ivan) = 2 ∧
    (_friends ivan !! 0 ≫= (h !!.)) = Some first ∧
    (_friends first !! 1 ≫= (h !!.)) = Some second ∧
    _name second = "Alexey".
Proof. do 5 eexists. split_and!; reflexivity. Qed.

Example test_functional_restored :
  ∃ h root all_restored ivan,
    Functional.deserialize_functional (H:=test_dates) test_factory
      (mkContainer "id-ivan" triangle_records)
    = Done (h, root, all_restored) ∧
    h !! root = Some ivan ∧
    Functional.pd_name ivan = "Ivan" ∧
    Functional.pd_born_in ivan = born_1990_05_15 ∧
    length (Functional.pd_friends ivan) = 2 ∧
    length all_restored = 3.
Proof. do 4 eexists. split_and!; reflexivity. Qed.

(** An isolated person: one record with an empty friends list, and back a
    person without friends. *)
Example test_isolated_person :
  Encapsulated.serialize 2 ivan_alone 0
  = Done [mkFlat "id-ivan" "Ivan" "1990-05-15T00:00:00" []] ∧
  Encapsulated.deserialize (H:=test_dates)
    [mkFlat "id-ivan" "Ivan" "1990-05-15T00:00:00" []]
  = Done (ivan_alone, 0).
Proof. split; reflexivity. Qed.

(** With the recursion budget used up the model says so; it never returns
    a partial output. *)
Example test_out_of_fuel : Encapsulated.serialize 3 triangle 0 = OutOfFuel.
Proof. reflexivity. Qed.

(** * Further properties *)

(** ** More on [add_friend] *)

(** X1: [add_friend(A, B)] on two live persons, the same person included,
    returns for every recursion budget of at least two calls, in whatever
    state the two friends lists are.  Afterwards [B] is a friend of [A].
    [A] is a friend of [B] afterwards unless [B] was a friend of [A] before
    and [A] was not a friend of [B]: the call returns at its first test and
    leaves a one-way link one-way.  When neither is a friend of the other,
    the reciprocal call is made: a budget of one call is not enough. *)
Theorem add_friend_links `{DateTimeText} (h : heap) a b :
  a < length h → b < length h →
  ∃ h', (∀ fuel, 2 ≤ fuel → add_friend_rec fuel h a b = Done h') ∧
        DirectAccess.add_friend h a b = Done h' ∧
        is_friend h' a b ∧
        (is_friend h' b a ↔ is_friend h b a ∨ ¬ is_friend h a b) ∧
        (a ≠ b → ¬ is_friend h a b → ¬ is_friend h b a →
         add_friend_rec 1 h a b = OutOfFuel).
Proof.
  intros [s Ha]%lookup_lt_is_Some [f Hb]%lookup_lt_is_Some.
  assert (Hla : a < length h) by (by eapply lookup_lt_Some).
  assert (Hlb : b < length h) by (by eapply lookup_lt_Some).
  assert (Hfa : ∀ x, is_friend h a x ↔ x ∈ _friends s).
  { intros x. split; [intros (p & Hp & Hx); by simplify_eq|by exists s]. }
  assert (Hfb : ∀ x, is_friend h b x ↔ x ∈ _friends f).
  { intros x. split; [intros (p & Hp & Hx); by simplify_eq|by exists f]. }
  assert (Hone : a ≠ b → ¬ is_friend h a b → ¬ is_friend h b a →
                 add_friend_rec 1 h a b = OutOfFuel).
  { intros Hab Hnab Hnba. cbn [add_friend_rec].
    rewrite (deref_Some _ _ _ Ha), bind_Done.
    rewrite decide_False by (by rewrite <-Hfa). cbv zeta.
    rewrite (deref_Some _ b f) by (by rewrite list_lookup_insert_ne).
    rewrite bind_Done. by rewrite decide_False by (by rewrite <-Hfb). }
  assert (Hok : ∃ h', add_friend h a b = Done h' ∧ is_friend h' a b ∧
            (is_friend h' b a ↔ is_friend h b a ∨ ¬ is_friend h a b)).
  { destruct (decide (a = b)) as [<-|Hab].
    - rewrite (add_friend_self _ _ _ Ha).
      destruct (decide (a ∈ _friends s)) as [Hin|Hin].
      + exists h. rewrite Hfa. tauto.
      + eexists. split; [done|].
        assert (is_friend (<[a:=friends_append s a]> h) a a).
        { eexists. split; [by apply list_lookup_insert_eq|]. cbn. set_solver. }
        rewrite Hfa. tauto.
    - rewrite (add_friend_distinct _ _ _ _ _ Hab Ha Hb).
      destruct (decide (b ∈ _friends s)) as [Hin|Hin].
      + exists h. rewrite !Hfa, Hfb. tauto.
      + destruct (decide (a ∈ _friends f)) as [Hf|Hf].
        * eexists. split; [done|]. split.
          -- eexists. split; [by apply list_lookup_insert_eq|]. cbn. set_solver.
          -- rewrite Hfa, Hfb. split; [tauto|]. intros _.
             exists f. by rewrite list_lookup_insert_ne.
        * eexists. split; [done|]. split.
          -- eexists. split.
             ++ rewrite list_lookup_insert_ne by done.
                by apply list_lookup_insert_eq.
             ++ cbn. set_solver.
          -- rewrite Hfa, Hfb. split; [tauto|]. intros _.
             eexists. split.
             ++ apply list_lookup_insert_eq. by rewrite length_insert.
             ++ cbn. set_solver. }
  destruct Hok as (h' & Hadd & Hab & Hba). exists h'.
  split_and!; [|done..]. intros fuel Hfuel. by rewrite add_friend_rec_fuel.
Qed.

(** Ivan and Maria are not friends yet: the call links them both ways, and
    one call of budget does not suffice. *)
Lemma add_friend_links_witness :
  ∃ h', add_friend ivan_maria 0 1 = Done h' ∧
        is_friend h' 0 1 ∧ is_friend h' 1 0 ∧
        add_friend_rec 1 ivan_maria 0 1 = OutOfFuel.
Proof.
  destruct (add_friend_links (H:=test_dates) ivan_maria 0 1)
    as (h' & Hrun & _ & Hab & Hba & Hone); [cbn; lia..|].
  assert (Hnot : ∀ x y, ¬ is_friend ivan_maria x y).
  { intros x y (p & Hp & Hin). destruct x as [|[|x]]; simplify_eq/=;
      by apply elem_of_nil in Hin. }
  exists h'. split_and!; [by apply (Hrun 2)|done| |].
  - apply Hba. right. apply Hnot.
  - apply Hone; [done|apply Hnot..].
Defined.

(** X2: what [add_friend] changes.  When [add_friend(A, B)] returns, no
    object was created or deleted, every person has the name, timestamp and
    id it had, and every friends list is as it was, except that the list of
    [A] may have [B] appended and the list of [B] may have [A] appended:
    nothing is removed or reordered, and no third person is touched. *)
Theorem add_friend_only_appends `{DateTimeText} (h h' : heap) a b :
  add_friend h a b = Done h' →
  length h' = length h ∧
  ∀ c p, h !! c = Some p →
    ∃ p', h' !! c = Some p' ∧ same_fields p' p ∧
      (_friends p' = _friends p ∨
       (c = a ∧ (b ∉ _friends p) ∧ _friends p' = _friends p ++ [b]) ∨
       (c = b ∧ (a ∉ _friends p) ∧ _friends p' = _friends p ++ [a])).
Proof.
  intros (s & Ha & Hcases)%add_friend_Done.
  assert (Hla : a < length h) by (by eapply lookup_lt_Some).
  destruct Hcases as [[Hb ->]|[(Hb & <- & ->)|(f & Hab & Hf & Hb & Hc)]].
  - split; [done|]. intros c p Hp. exists p. split; [done|]. split; [done|]. by left.
  - split; [by rewrite length_insert|]. intros c p Hp.
    destruct (decide (c = a)) as [->|Hc].
    + simplify_eq. eexists. split; [by apply list_lookup_insert_eq|].
      split; [done|]. right. left. done.
    + exists p. rewrite list_lookup_insert_ne by done.
      split; [done|]. split; [done|]. by left.
  - assert (Hlb : b < length h) by (by eapply lookup_lt_Some).
    destruct Hc as [[Hin ->]|[Hin ->]].
    + split; [by rewrite length_insert|]. intros c p Hp.
      destruct (decide (c = a)) as [->|Hc].
      * simplify_eq. eexists. split; [by apply list_lookup_insert_eq|].
        split; [done|]. right. left. done.
      * exists p. rewrite list_lookup_insert_ne by done.
      split; [done|]. split; [done|]. by left.
    + split; [by rewrite !length_insert|]. intros c p Hp.
      destruct (decide (c = b)) as [->|Hcb].
      * simplify_eq. eexists. split.
        { apply list_lookup_insert_eq. by rewrite length_insert. }
        split; [done|]. right. right. done.
      * rewrite list_lookup_insert_ne by done.
        destruct (decide (c = a)) as [->|Hca].
        -- simplify_eq. eexists. split; [by apply list_lookup_insert_eq|].
           split; [done|]. right. left. done.
        -- exists p. rewrite list_lookup_insert_ne by done.
           split; [done|]. split; [done|]. by left.
Qed.

(** In the pair of Ivan and Maria, not friends yet, Ivan gets Maria at the
    end of his list and Maria gets Ivan; name, timestamp and id stay. *)
Lemma add_friend_only_appends_witness :
  ∃ h' : list (@Person test_dates),
    add_friend ivan_maria 0 1 = Done h' ∧
    length h' = 2 ∧
    (∃ p', h' !! 0 = Some p' ∧ _friends p' = [1] ∧ _id p' = "id-ivan" ∧
           _name p' = "Ivan") ∧
    (∃ p', h' !! 1 = Some p' ∧ _friends p' = [0] ∧ _id p' = "id-maria" ∧
           _name p' = "Maria").
Proof.
  eexists. split; [reflexivity|].
  destruct (add_friend_only_appends (H:=test_dates) ivan_maria _ 0 1 eq_refl)
    as [Hlen Hall].
  split; [exact Hlen|]. split.
  - destruct (Hall 0 _ eq_refl)
      as (p' & Hp' & (Hid & Hname & _) & [Hfr|[(_ & _ & Hfr)|(Hc & _)]]).
    + cbn in Hp'. injection Hp' as <-. discriminate Hfr.
    + exists p'. by split_and!.
    + discriminate Hc.
  - destruct (Hall 1 _ eq_refl)
      as (p' & Hp' & (Hid & Hname & _) & [Hfr|[(Hc & _)|(_ & _ & Hfr)]]).
    + cbn in Hp'. injection Hp' as <-. discriminate Hfr.
    + discriminate Hc.
    + exists p'. by split_and!.
Defined.

(** X3: friends lists without repetition.  In the object-oriented variants
    each append is guarded by a membership test on the list it extends: if
    no friends list has a repeated entry before [add_friend], none has one
    afterwards, whatever the two arguments are.  The functional [add_friend]
    tests the first list only; it keeps the lists free of repetition when the
    two persons are distinct and the second does not already list the first
    without being listed by it. *)
Theorem add_friend_no_repetition `{DateTimeText} :
  (∀ (h h' : heap) a b,
     (∀ p, p ∈ h → NoDup (_friends p)) →
     add_friend h a b = Done h' →
     ∀ p, p ∈ h' → NoDup (_friends p)) ∧
  (∀ (h h' : Functional.pheap) a b d,
     a ≠ b → (has_friend h b a → has_friend h a b) →
     (∀ p, p ∈ h → NoDup (Functional.pd_friends p)) →
     Functional.add_friend h a b d = Done h' →
     ∀ p, p ∈ h' → NoDup (Functional.pd_friends p)).
Proof.
  split.
  - intros h h' a b Hnd Hadd p' [c Hc]%list_elem_of_lookup.
    destruct (add_friend_Done _ _ _ _ Hadd) as (s & Ha & Hcases).
    assert (Hstep : ∀ (g : heap) x y q r,
              (∀ p, p ∈ g → NoDup (_friends p)) → g !! x = Some q →
              y ∉ _friends q → r ∈ <[x := friends_append q y]> g →
              NoDup (_friends r)).
    { intros g x y q r Hg Hq Hy [k Hk]%list_elem_of_lookup.
      assert (x < length g) by (by eapply lookup_lt_Some).
      destruct (decide (k = x)) as [->|Hkx].
      - rewrite list_lookup_insert_eq in Hk by done. injection Hk as <-. cbn.
        apply NoDup_app. split_and!; [|set_solver|apply NoDup_singleton].
        apply Hg. by eapply list_elem_of_lookup_2.
      - rewrite list_lookup_insert_ne in Hk by done.
        apply Hg. by eapply list_elem_of_lookup_2. }
    assert (Hin : p' ∈ h') by (by eapply list_elem_of_lookup_2).
    destruct Hcases as [[Hb ->]|[(Hb & <- & ->)|(f & Hab & Hf & Hb & Hd)]].
    + by apply Hnd.
    + by apply (Hstep h a a s).
    + destruct Hd as [[Hfa ->]|[Hfa ->]]; [by apply (Hstep h a b s)|].
      eapply (Hstep (<[a:=friends_append s b]> h) b a f); [| |done|done].
      * intros r Hr. by apply (Hstep h a b s).
      * by rewrite list_lookup_insert_ne.
  - intros h h' a b d Hab Hone Hnd Hadd p' [c Hc]%list_elem_of_lookup.
    destruct (h !! a) as [p|] eqn:Ha.
    2: { unfold Functional.add_friend, Functional.pderef in Hadd.
         by rewrite Ha in Hadd. }
    destruct (h !! b) as [q|] eqn:Hb.
    2: { unfold Functional.add_friend, Functional.pderef in Hadd.
         rewrite Ha in Hadd. cbn in Hadd. by rewrite Hb in Hadd. }
    assert (a < length h) by (by eapply lookup_lt_Some).
    assert (b < length h) by (by eapply lookup_lt_Some).
    rewrite (functional_add_friend_distinct _ _ _ _ _ _ Hab Ha Hb) in Hadd.
    destruct (decide (PyStr (Functional.pd_id q) ∈ Functional.pd_friends p))
      as [Hin|Hin]; injection Hadd as <-.
    { apply Hnd. by eapply list_elem_of_lookup_2. }
    assert (Hq : PyStr (Functional.pd_id p) ∉ Functional.pd_friends q).
    { intros Hqp. apply Hin.
      destruct Hone as (p0 & q0 & ? & ? & ?); [by exists q, p|].
      by simplify_eq. }
    destruct (decide (c = b)) as [->|Hcb].
    + rewrite list_lookup_insert_eq in Hc by (by rewrite length_insert).
      injection Hc as <-. cbn.
      apply NoDup_app. split_and!; [|set_solver|apply NoDup_singleton].
      apply Hnd. by eapply list_elem_of_lookup_2.
    + rewrite list_lookup_insert_ne in Hc by done.
      destruct (decide (c = a)) as [->|Hca].
      * rewrite list_lookup_insert_eq in Hc by done. injection Hc as <-. cbn.
        apply NoDup_app. split_and!; [|set_solver|apply NoDup_singleton].
        apply Hnd. by eapply list_elem_of_lookup_2.
      * rewrite list_lookup_insert_ne in Hc by done.
        apply Hnd. by eapply list_elem_of_lookup_2.
Qed.

(** After [add_friend] on Ivan and Maria, in both styles, no list has a
    repeated entry. *)
Lemma add_friend_no_repetition_witness :
  (∃ h', add_friend ivan_maria 0 1 = Done h' ∧
         ∀ p, p ∈ h' → NoDup (_friends p)) ∧
  (∃ h', Functional.add_friend ivan_maria_data 0 1 [] = Done h' ∧
         ∀ p, p ∈ h' → NoDup (Functional.pd_friends p)).
Proof.
  split.
  - eexists. split; [reflexivity|].
    apply (proj1 (add_friend_no_repetition (H:=test_dates)) ivan_maria _ 0 1);
      [|reflexivity].
    intros p Hp. unfold ivan_maria, ivan_alone in Hp. cbn in Hp. set_unfold.
    destruct Hp as [->|[->|[]]]; constructor.
  - eexists. split; [reflexivity|].
    apply (proj2 (add_friend_no_repetition (H:=test_dates))
             ivan_maria_data _ 0 1 []); [done| | |reflexivity].
    + intros (p & q & Hp & _ & Hin). injection Hp as <-.
      by apply elem_of_nil in Hin.
    + intros p Hp. unfold ivan_maria_data, ivan_alone_data in Hp.
      cbn in Hp. set_unfold. destruct Hp as [->|[->|[]]]; constructor.
Defined.

(** X4: who calls [add_friend] on whom does not matter.  On two live
    persons that are friends of each other or not friends at all,
    [a.add_friend(b)] and [b.add_friend(a)] leave the same heap; so do
    [add_friend(p1, p2, _)] and [add_friend(p2, p1, _)] of the functional
    variant, whatever mapping is passed. *)
Theorem add_friend_commutes `{DateTimeText} :
  (∀ (h : heap) a b,
     a < length h → b < length h →
     (is_friend h a b ↔ is_friend h b a) →
     add_friend h a b = add_friend h b a ∧
     DirectAccess.add_friend h a b = DirectAccess.add_friend h b a) ∧
  (∀ (h : Functional.pheap) a b d d',
     a < length h → b < length h →
     (has_friend h a b ↔ has_friend h b a) →
     Functional.add_friend h a b d = Functional.add_friend h b a d').
Proof.
  split.
  - intros h a b [s Ha]%lookup_lt_is_Some [f Hb]%lookup_lt_is_Some Hsym.
    assert (add_friend h a b = add_friend h b a); [|done].
    destruct (decide (a = b)) as [->|Hab]; [done|].
    assert (Hba : b ≠ a) by done.
    rewrite (add_friend_distinct _ _ _ _ _ Hab Ha Hb).
    rewrite (add_friend_distinct _ _ _ _ _ Hba Hb Ha).
    assert (Hiff : b ∈ _friends s ↔ a ∈ _friends f).
    { split; intros Hin.
      - destruct (proj1 Hsym) as (f' & ? & ?); [by exists s|]. by simplify_eq.
      - destruct (proj2 Hsym) as (s' & ? & ?); [by exists f|]. by simplify_eq. }
    destruct (decide (b ∈ _friends s)) as [Hin|Hin].
    + by rewrite decide_True by (by apply Hiff).
    + rewrite !(decide_False (P:=a ∈ _friends f)) by (by rewrite <-Hiff).
      by rewrite list_insert_insert_ne.
  - intros h a b d d' [p Ha]%lookup_lt_is_Some [q Hb]%lookup_lt_is_Some Hsym.
    destruct (decide (a = b)) as [->|Hab].
    { simplify_eq. by rewrite !(functional_add_friend_self _ _ _ _ Ha). }
    assert (Hba : b ≠ a) by done.
    rewrite (functional_add_friend_distinct _ _ _ _ _ _ Hab Ha Hb).
    rewrite (functional_add_friend_distinct _ _ _ _ _ _ Hba Hb Ha).
    assert (Hiff : PyStr (Functional.pd_id q) ∈ Functional.pd_friends p
                   ↔ PyStr (Functional.pd_id p) ∈ Functional.pd_friends q).
    { split; intros Hin.
      - destruct (proj1 Hsym) as (q' & p' & ? & ? & ?); [by exists p, q|].
        by simplify_eq.
      - destruct (proj2 Hsym) as (p' & q' & ? & ? & ?); [by exists q, p|].
        by simplify_eq. }
    destruct (decide (PyStr (Functional.pd_id q) ∈ Functional.pd_friends p))
      as [Hin|Hin].
    + by rewrite decide_True by (by apply Hiff).
    + rewrite decide_False by (by rewrite <-Hiff).
      by rewrite list_insert_insert_ne.
Qed.

Lemma add_friend_commutes_witness :
  add_friend ivan_maria 0 1 = add_friend ivan_maria 1 0 ∧
  Functional.add_friend ivan_maria_data 0 1 []
  = Functional.add_friend ivan_maria_data 1 0 [].
Proof.
  split.
  - apply (proj1 (add_friend_commutes (H:=test_dates)) ivan_maria 0 1);
      [cbn; lia..|].
    split; intros (p & Hp & Hin); simplify_eq/=; by apply elem_of_nil in Hin.
  - apply (proj2 (add_friend_commutes (H:=test_dates)) ivan_maria_data 0 1);
      [cbn; lia..|].
    split; intros (p & q & Hp & _ & Hin); simplify_eq/=;
      by apply elem_of_nil in Hin.
Defined.

(** ** More on the collector *)

Lemma for_each_preserves {A S} (f : A → S → outcome S) (P : S → Prop) l s s' :
  (∀ x s s', P s → f x s = Done s' → P s') →
  P s → for_each f l s = Done s' → P s'.
Proof.
  intros Hstep. revert s. induction l as [|x l IH]; intros s Hs; cbn.
  - by intros [= <-].
  - destruct (f x s) as [s1| |] eqn:Hx; cbn; [|done..].
    apply IH. by eapply Hstep.
Qed.

Section collector_output_shape.
Context `{DateTimeText}.

(** One call of the closure that returns. *)
Lemma collect_objects_step fuel (h : heap) p vis out st' :
  Encapsulated.collect_objects (S fuel) h p (vis, out) = Done st' →
  ∃ s, h !! p = Some s ∧
    ((_id s ∈ vis ∧ st' = (vis, out)) ∨
     ((_id s ∉ vis) ∧
      ∃ d, Encapsulated.to_dict h p = Done d ∧ fr_id d = _id s ∧
           for_each (Encapsulated.collect_objects fuel h) (_friends s)
                    ({[_id s]} ∪ vis, out ++ [d]) = Done st')).
Proof.
  cbn [Encapsulated.collect_objects]. cbn [fst snd].
  unfold Encapsulated.get_id, Encapsulated.get_friends.
  destruct (h !! p) as [s|] eqn:Hp.
  2: { by rewrite (deref_None _ _ Hp). }
  rewrite (deref_Some _ _ _ Hp), !fmap_Done, bind_Done.
  intros Hrun. exists s. split; [done|].
  destruct (decide (_id s ∈ vis)) as [Hin|Hin].
  { left. split; [done|]. by injection Hrun as <-. }
  right. split; [done|].
  destruct (Encapsulated.to_dict h p) as [d| |] eqn:Hd; cbn in Hrun; [|done..].
  exists d. split_and!; [done| |done].
  unfold Encapsulated.to_dict in Hd.
  rewrite (deref_Some _ _ _ Hp), bind_Done in Hd.
  destruct (comprehension _ (_friends s)); cbn in Hd; [|done..].
  by injection Hd as <-.
Qed.

Lemma collect_objects_collected fuel (h : heap) p st st' :
  collected st →
  Encapsulated.collect_objects fuel h p st = Done st' →
  collected st' ∧ st.2 `prefix_of` st'.2.
Proof.
  revert p st st'. induction fuel as [|fuel IH]; intros p [vis out] st'; [done|].
  intros [Hvis Hnd] (s & Hp & [[_ ->]|(Hnew & d & Hd & Hid & Hrun)])%collect_objects_step.
  { done. }
  cbn [fst snd] in *.
  apply (for_each_preserves _
           (λ st, collected st ∧ (out ++ [d]) `prefix_of` st.2)) in Hrun.
  - destruct Hrun as [Hc Hpre]. split; [done|].
    etrans; [|done]. by apply prefix_app_r.
  - intros x s1 s2 [Hc Hpre] Hx. destruct (IH x s1 s2 Hc Hx) as [Hc2 Hpre2].
    split; [done|]. by etrans.
  - split; [|done].
    split; cbn [fst snd]; unfold record_ids in *; rewrite fmap_app; cbn.
    + intros i. rewrite elem_of_union, elem_of_app, Hvis.
      rewrite elem_of_singleton, list_elem_of_singleton, Hid. tauto.
    + apply NoDup_app. split_and!; [done| |apply NoDup_singleton].
      intros i Hi ->%list_elem_of_singleton. rewrite Hid in Hi.
      by apply Hnew, Hvis.
Qed.
End collector_output_shape.

Section collector_closure.
Context `{DateTimeText}.

(** The friend ids of a [to_dict] record are the ids of the friends. *)
Lemma to_dict_friends (h : heap) p s d :
  h !! p = Some s → Encapsulated.to_dict h p = Done d →
  ∀ j, j ∈ fr_friends d → ∃ f q, f ∈ _friends s ∧ h !! f = Some q ∧ _id q = j.
Proof.
  intros Hp. unfold Encapsulated.to_dict.
  rewrite (deref_Some _ _ _ Hp), bind_Done.
  destruct (comprehension _ (_friends s)) as [js| |] eqn:Hjs; cbn; [|done..].
  intros [= <-] j. cbn. revert js Hjs.
  induction (_friends s) as [|f fs IH]; intros js; cbn.
  { intros [= <-] Hj. by apply elem_of_nil in Hj. }
  destruct (h !! f) as [q|] eqn:Hq.
  2: { by rewrite (deref_None _ _ Hq). }
  rewrite (deref_Some _ _ _ Hq), fmap_Done, bind_Done.
  destruct (comprehension _ fs) as [js'| |]; cbn; [|done..].
  intros [= <-] [->|Hj]%elem_of_cons.
  - exists f, q. split_and!; [set_solver|done..].
  - destruct (IH js' eq_refl Hj) as (f' & q' & ? & ? & ?).
    exists f', q'. split_and!; [set_solver|done..].
Qed.

(** When a call of the closure returns, the person it was called on is
    visited, and every friend id in a record written by the call is
    visited. *)
Lemma collect_objects_closed fuel (h : heap) p st st' :
  Encapsulated.collect_objects fuel h p st = Done st' →
  st.1 ⊆ st'.1 ∧ (∃ s, h !! p = Some s ∧ _id s ∈ st'.1) ∧
  ∃ new, st'.2 = st.2 ++ new ∧
         ∀ r j, r ∈ new → j ∈ fr_friends r → j ∈ st'.1.
Proof.
  revert p st st'. induction fuel as [|fuel IH]; intros p [vis out] st'; [done|].
  intros (s & Hp & [[Hin ->]|(Hnew & d & Hd & Hid & Hrun)])%collect_objects_step.
  { split_and!; [done|by exists s|]. exists []. rewrite app_nil_r.
    split; [done|]. intros r j Hr. by apply elem_of_nil in Hr. }
  cbn [fst snd].
  assert (Hloop : ∀ fs st1 st2,
    for_each (Encapsulated.collect_objects fuel h) fs st1 = Done st2 →
    st1.1 ⊆ st2.1 ∧
    (∀ f, f ∈ fs → ∃ q, h !! f = Some q ∧ _id q ∈ st2.1) ∧
    ∃ new, st2.2 = st1.2 ++ new ∧
           ∀ r j, r ∈ new → j ∈ fr_friends r → j ∈ st2.1).
  { clear -IH. induction fs as [|f fs IHfs]; intros st1 st2; cbn.
    - intros [= <-]. split_and!; [done|set_solver|]. exists [].
      rewrite app_nil_r. split; [done|]. intros r j Hr.
      by apply elem_of_nil in Hr.
    - destruct (Encapsulated.collect_objects fuel h f st1) as [st1'| |] eqn:Hf;
        cbn; [|done..].
      intros Hrest.
      destruct (IH _ _ _ Hf) as (Hs1 & (q & Hq & Hqv) & new1 & Hn1 & Hc1).
      destruct (IHfs _ _ Hrest) as (Hs2 & Hall & new2 & Hn2 & Hc2).
      split_and!; [set_solver| |].
      + intros x [->|Hx]%elem_of_cons; [|by apply Hall].
        exists q. split; [done|]. set_solver.
      + exists (new1 ++ new2). rewrite Hn2, Hn1, app_assoc. split; [done|].
        intros r j [Hr|Hr]%elem_of_app Hj; [|by eapply Hc2].
        apply Hs2. by eapply Hc1. }
  destruct (Hloop _ _ _ Hrun) as (Hs & Hall & new & Hn & Hc).
  cbn [fst snd] in *. split_and!; [set_solver|exists s; set_solver|].
  exists (d :: new). rewrite Hn, <-app_assoc. split; [done|].
  intros r j [->|Hr]%elem_of_cons Hj; [|by eapply Hc].
  destruct (to_dict_friends h p s d Hp Hd j Hj) as (f & q & Hf & Hq & <-).
  destruct (Hall f Hf) as (q' & Hq' & Hv). by simplify_eq.
Qed.
End collector_closure.

(** X5: the shape of every output.  Whenever an object-oriented serializer
    returns (on any heap: ids may even repeat among the objects), the first
    record is the [to_dict] record of the root, no two records have the same
    id (an object whose id was already visited is skipped), and every friend
    id in a record is the id of a record: the output refers to nothing
    outside itself. *)
Theorem serialize_self_contained `{DateTimeText} fuel (h : heap) root objs :
  Encapsulated.serialize fuel h root = Done objs →
  DirectAccess.serialize fuel h root = Done objs ∧
  NoDup (record_ids objs) ∧ references_ok objs ∧
  ∃ r rest, objs = r :: rest ∧ Encapsulated.to_dict h root = Done r.
Proof.
  intros Hser. split; [by rewrite direct_access_serialize|].
  unfold Encapsulated.serialize in Hser.
  destruct (Encapsulated.collect_objects fuel h root (∅, []))
    as [[vis objs']| |] eqn:Hrun; cbn in Hser; [|done..].
  injection Hser as ->.
  assert (Hempty : collected (∅, [])).
  { split; [|constructor]. intros i. cbn. set_solver. }
  destruct (collect_objects_collected _ _ _ _ _ Hempty Hrun)
    as [[Hvis Hnd] _].
  destruct (collect_objects_closed _ _ _ _ _ Hrun)
    as (_ & _ & new & Hnew & Hclosed).
  cbn in Hvis, Hnd, Hnew. subst new. split_and!; [done| |].
  - intros r j Hr Hj. apply Hvis. by eapply Hclosed.
  - destruct fuel as [|fuel]; [done|].
    apply collect_objects_step in Hrun
      as (s & Hp & [[Hin _]|(_ & d & Hd & _ & Hrun)]); [set_solver|].
    apply (for_each_preserves _ (λ st, [d] `prefix_of` st.2)) in Hrun.
    + destruct Hrun as [rest Hrest]. cbn in Hrest. by exists d, rest.
    + intros x s1 s2 Hpre Hx.
      destruct (collect_objects_closed _ _ _ _ _ Hx)
        as (_ & _ & new & -> & _).
      etrans; [done|]. by apply prefix_app_r.
    + done.
Qed.

(** Two objects with the same id that list each other: the second one is
    skipped, one record is written, and it lists its own id. *)
Lemma serialize_self_contained_witness :
  ∃ objs,
    Encapsulated.serialize 3
      [@mkPerson test_dates "Ivan" [1] born_1990_05_15 "id-ivan";
       @mkPerson test_dates "Maria" [0] born_1992_08_22 "id-ivan"] 0
    = Done objs ∧
    NoDup (record_ids objs) ∧ references_ok objs ∧ length objs = 1.
Proof.
  eexists. split; [reflexivity|].
  destruct (serialize_self_contained (H:=test_dates) 3
              [@mkPerson test_dates "Ivan" [1] born_1990_05_15 "id-ivan";
               @mkPerson test_dates "Maria" [0] born_1992_08_22 "id-ivan"]
              0 _ eq_refl) as (_ & Hnd & Hrefs & _).
  split_and!; [exact Hnd|exact Hrefs|reflexivity].
Defined.

(** X6: the depth of the recursion.  On a heap with live references and
    unique ids the collector returns as soon as the recursion budget
    exceeds the number of records it writes, that is the number of persons
    the root reaches: the depth of the nested calls does not depend on the
    other objects of the heap. *)
Theorem serialize_depth_bound `{DateTimeText} (h : heap) root :
  heap_closed h → ids_unique h → root < length h →
  ∃ objs, ∀ fuel, length objs < fuel →
    Encapsulated.serialize fuel h root = Done objs ∧
    DirectAccess.serialize fuel h root = Done objs.
Proof.
  intros Hcl Hu Hroot.
  destruct (serialize_preorder h root Hcl Hu Hroot)
    as (order & objs & Hpre & Hflat & Hrun).
  destruct (preorder_sound _ _ _ _ Hpre) as (Hnd & _ & _ & Htodo & Hclosed).
  set (U := list_to_set order : gset nat).
  assert (Hlive : ∀ a, a ∈ U → a ∈ live h).
  { intros a [n Hn]%elem_of_list_to_set%list_elem_of_lookup.
    destruct (Forall2_lookup_l _ _ _ _ _ Hflat Hn) as (r & _ & Hr).
    apply elem_of_live. unfold flat_of in Hr.
    destruct (h !! a) eqn:Ha; [|done]. by eapply lookup_lt_Some. }
  assert (Hok : walk_graph_ok Done (Encapsulated.get_id h)
                  (Encapsulated.to_dict h) (Encapsulated.get_friends h)
                  (friends_of h) U).
  { intros a Ha.
    destruct (heap_walk_graph_ok h Hcl a (Hlive a Ha))
      as (k & r & vs & ns & Hk & Hr & Hvs & Hns & Hden & _).
    exists k, r, vs, ns. split_and!; try done.
    intros m Hm. apply elem_of_list_to_set.
    apply elem_of_list_to_set in Ha.
    destruct (Hclosed a m) as [?|?]; [done|by exists ns|set_solver|done]. }
  assert (Hinj : keys_injective (Encapsulated.get_id h) U).
  { intros a b k Ha Hb. apply (heap_keys_injective h Hu); auto. }
  destruct (walk_root Done (Encapsulated.get_id h) (Encapsulated.to_dict h)
              (Encapsulated.get_friends h) (friends_of h) U Hok Hinj
              root root eq_refl)
    as (order' & objs' & visited & _ & _ & _ & Hrun').
  { apply elem_of_list_to_set. destruct (Htodo root); set_solver. }
  assert (Hsize : size U = length objs).
  { unfold U. rewrite size_list_to_set by done.
    by eapply Forall2_length. }
  assert (objs' = objs) as ->.
  { pose (fuel := S (length h + length objs)).
    destruct (Hrun fuel) as [Hser _]; [unfold fuel; lia|].
    unfold Encapsulated.serialize in Hser.
    rewrite encapsulated_collect_walk, Hrun' in Hser
      by (unfold fuel; lia).
    cbn in Hser. congruence. }
  exists objs. intros fuel Hfuel. rewrite direct_access_serialize.
  assert (Encapsulated.serialize fuel h root = Done objs); [|done].
  unfold Encapsulated.serialize.
  by rewrite encapsulated_collect_walk, Hrun' by lia.
Qed.

(** Ivan alone is serialized within two nested calls, however many other
    persons exist. *)
Lemma serialize_depth_bound_witness :
  ∃ objs, Encapsulated.serialize 2 three_persons 0 = Done objs ∧
          length objs = 1.
Proof.
  assert (Hb : built three_persons).
  { change three_persons with
      (Person_init (Person_init (Person_init (H:=test_dates) []
         "Ivan" born_1990_05_15 "id-ivan").1
         "Maria" born_1992_08_22 "id-maria").1
         "Alexey" born_1988_03_10 "id-alexey").1.
    repeat (apply built_init; [|intros p Hp; set_unfold; naive_solver]).
    apply built_empty. }
  destruct (built_invariants _ Hb) as (Hcl & Hu & _).
  destruct (serialize_depth_bound (H:=test_dates) three_persons 0 Hcl Hu)
    as (objs & Hrun); [cbn; lia|].
  exists objs.
  assert (Hlen : length objs = 1).
  { destruct (Hrun (S (length objs))) as [Hser _]; [lia|].
    destruct objs as [|r [|r' objs]]; [done|done|].
    exfalso. cbn in Hser. discriminate Hser. }
  split; [|done]. apply Hrun. lia.
Defined.



(** X8: the two object-oriented variants are the same program.  Reading
    the fields directly instead of through the accessors changes nothing that
    can be observed: for every heap, root and recursion budget the two
    serializers have the same outcome, and for every container the two
    builders have the same outcome, exceptions included. *)
Theorem direct_access_same_behaviour `{DateTimeText} :
  (∀ fuel (h : heap) root,
     DirectAccess.serialize fuel h root = Encapsulated.serialize fuel h root) ∧
  (∀ objs, DirectAccess.deserialize objs = Encapsulated.deserialize objs).
Proof.
  split.
  - intros fuel h root. unfold DirectAccess.serialize, Encapsulated.serialize.
    by rewrite direct_access_collect.
  - intros objs. unfold DirectAccess.deserialize, Encapsulated.deserialize.
    by rewrite (for_each_ext _ _ _ _ direct_access_create_object).
Qed.

(** X9: [to_dict] and [from_dict].  [to_dict] of a person whose friends are
    live returns a record with as many friend ids as the person has friends;
    [from_dict] of that record returns a person with the same id, name and
    timestamp and with no friends: the friends are not restored by
    [from_dict]. *)
Theorem from_dict_to_dict `{DateTimeText} (h : heap) a p :
  iso_reversible → heap_closed h → h !! a = Some p →
  ∃ r, Encapsulated.to_dict h a = Done r ∧
       length (fr_friends r) = length (_friends p) ∧
       Encapsulated.from_dict r
       = Done (mkPerson (_name p) [] (_born_in p) (_id p)).
Proof.
  intros Hiso Hcl Ha.
  destruct (to_dict_flat_of h a p Hcl Ha) as (r & Hr & Hflat).
  exists r. split; [done|]. unfold flat_of in Hflat. rewrite Ha in Hflat.
  cbn in Hflat. injection Hflat as <-. cbn. split.
  - unfold friend_ids.
    assert (Hlive : ∀ f, f ∈ _friends p → is_Some (h !! f)).
    { intros f Hf. apply lookup_lt_is_Some. by eapply Hcl. }
    revert Hlive. generalize (_friends p). intros fs.
    induction fs as [|f fs IH]; intros Hlive; [done|]. cbn.
    destruct (Hlive f) as [q Hq]; [set_solver|]. rewrite Hq. cbn.
    rewrite IH; [done|]. intros f' Hf'. apply Hlive. set_solver.
  - unfold Encapsulated.from_dict, parse_datetime. cbn. by rewrite Hiso.
Qed.

Lemma from_dict_to_dict_witness :
  ∃ r, Encapsulated.to_dict triangle 0 = Done r ∧
       length (fr_friends r) = 2 ∧
       Encapsulated.from_dict r
       = Done (@mkPerson test_dates "Ivan" [] born_1990_05_15 "id-ivan").
Proof.
  destruct (from_dict_to_dict (H:=test_dates) triangle 0 _
              test_dates_reversible
              (proj1 (built_invariants _ triangle_built)) eq_refl)
    as (r & Hr & Hlen & Hfrom).
  by exists r.
Defined.

(** ** More on the two-phase builder *)

Lemma for_each_raises {A S} (f : A → S → outcome S) (P : exn → Prop) l s e :
  (∀ x s e, f x s = Raise e → P e) → for_each f l s = Raise e → P e.
Proof.
  intros Hstep. revert s. induction l as [|x l IH]; intros s; cbn; [done|].
  destruct (f x s) as [s1| |] eqn:Hx; cbn; [apply IH| |done].
  intros [= <-]. by eapply Hstep.
Qed.

Lemma comprehension_raises {A B} (f : A → outcome B) (P : exn → Prop) l e :
  (∀ x e, f x = Raise e → P e) → comprehension f l = Raise e → P e.
Proof.
  intros Hstep. induction l as [|x l IH]; cbn; [done|].
  destruct (f x) as [y| |] eqn:Hx; cbn.
  - destruct (comprehension f l); cbn; [done|auto|done].
  - intros [= <-]. by eapply Hstep.
  - done.
Qed.

Lemma pydict_set_fresh {V} (d : pydict V) k v :
  k ∉ d.*1 → pydict_set d k v = d ++ [(k, v)].
Proof.
  induction d as [|[k' v'] d IH]; cbn; [done|]. intros Hk.
  rewrite decide_False by set_solver. rewrite IH by set_solver. done.
Qed.

Section builder_outcomes.
Context `{DateTimeText}.

(** Phase 1 returns only if every 'born_in' text is a timestamp. *)
Lemma create_objects_timestamps objs st st' :
  for_each Encapsulated.create_object objs st = Done st' →
  timestamps_ok objs.
Proof.
  revert st. induction objs as [|r objs IH]; intros st Hrun r' Hr'.
  { by apply elem_of_nil in Hr'. }
  rewrite for_each_cons in Hrun.
  destruct (Encapsulated.create_object r st) as [st1| |] eqn:Hr;
    cbn in Hrun; [|done..].
  apply elem_of_cons in Hr' as [->|Hr']; [|by eapply IH].
  unfold Encapsulated.create_object, Encapsulated.from_dict,
    parse_datetime in Hr.
  by destruct (fromisoformat (fr_born_in r)).
Qed.

(** The builder returns only on a container that is not empty, whose
    timestamps parse and whose friend ids are record ids. *)
Lemma deserialize_Done_inv objs (h : heap) root :
  Encapsulated.deserialize objs = Done (h, root) →
  timestamps_ok objs ∧ references_ok objs ∧ ∃ first, head objs = Some first.
Proof.
  intros Hrun.
  assert (Hts : timestamps_ok objs).
  { unfold Encapsulated.deserialize in Hrun.
    destruct (for_each Encapsulated.create_object objs ([], ∅))
      as [st| |] eqn:H1; [|done..].
    by eapply create_objects_timestamps. }
  split_and!; [done| |].
  - intros r j Hr Hj.
    destruct (decide (j ∈ record_ids objs)) as [|Hout]; [done|].
    destruct (deserialize_dangling objs Hts) as (k & Hk & _);
      [by exists r, j|congruence].
  - destruct objs as [|first objs]; [done|by exists first].
Qed.

(** What a returned builder leaves, whether or not ids repeat. *)
Lemma deserialize_Done_rebuilt objs (h : heap) root :
  Encapsulated.deserialize objs = Done (h, root) →
  ∃ first c, head objs = Some first ∧ rebuilt objs h c ∧
             c !! fr_id first = Some root ∧
             timestamps_ok objs ∧ references_ok objs.
Proof.
  intros Hrun.
  destruct (deserialize_Done_inv _ _ _ Hrun) as (Hts & Hrefs & first & Hfirst).
  destruct (deserialize_rebuilt objs first Hts Hrefs Hfirst)
    as (h0 & c & root0 & Hrun0 & Hrb & Hroot).
  rewrite Hrun in Hrun0. injection Hrun0 as <- <-. by exists first, c.
Qed.

(** In a rebuilt heap the object filed under an id has that id. *)
Lemma rebuilt_filed objs (h : heap) c i a :
  rebuilt objs h c → c !! i = Some a →
  ∃ r p, objs !! a = Some r ∧ fr_id r = i ∧ h !! a = Some p ∧
         carries p r ∧ linked c p (fr_friends r).
Proof.
  intros (_ & Hnone & Hsome) Ha.
  destruct (decide (i ∈ record_ids objs)) as [Hin|Hout].
  2: { rewrite Hnone in Ha by done. done. }
  destruct (Hsome i Hin)
    as (n & r & p & Hn & ((r' & Hr' & Hid) & _) & Hr & Hp & Hc & Hl).
  assert (n = a) as -> by congruence. exists r, p.
  split_and!; [done|congruence|done..].
Qed.

(** Every object that the returned root reaches is filed in the cache. *)
Lemma rebuilt_reachable_filed objs (h : heap) c i0 root a :
  rebuilt objs h c → c !! i0 = Some root → reachable h root a →
  ∃ i, c !! i = Some a.
Proof.
  intros Hrb Hroot Hreach. revert a Hreach. apply rtc_ind_r; [by exists i0|].
  intros y z _ (fs & Hfs & Hz) [i Hi].
  destruct (rebuilt_filed _ _ _ _ _ Hrb Hi) as (r & p & _ & _ & Hp & _ & Hl).
  unfold friends_of in Hfs. rewrite Hp in Hfs. injection Hfs as <-.
  apply list_elem_of_lookup in Hz as [n Hn].
  destruct (Forall2_lookup_l _ _ _ _ _ Hl Hn) as (j & _ & Hj). by exists j.
Qed.
End builder_outcomes.

(** X10: a text that is no timestamp.  The timestamps are parsed while the
    objects are created, before anything is linked and before the root is
    looked up: at the first record whose 'born_in' text is no timestamp the
    three builders raise [ValueError] for that text, whatever else is wrong
    or right with the container. *)
Theorem deserialize_bad_timestamp `{DateTimeText} pre r post :
  timestamps_ok pre → fromisoformat (fr_born_in r) = None →
  Encapsulated.deserialize (pre ++ r :: post)
  = Raise (ValueError (fr_born_in r)) ∧
  DirectAccess.deserialize (pre ++ r :: post)
  = Raise (ValueError (fr_born_in r)) ∧
  ∀ factory rid,
    Functional.deserialize_functional factory
      (mkContainer rid (pre ++ r :: post))
    = Raise (ValueError (fr_born_in r)).
Proof.
  intros Hts Hbad.
  assert (Henc : Encapsulated.deserialize (pre ++ r :: post)
                 = Raise (ValueError (fr_born_in r))).
  { destruct (phase1_created pre Hts) as (h1 & c & Hrun & _).
    unfold Encapsulated.deserialize.
    rewrite for_each_app, Hrun, bind_Done, for_each_cons.
    assert (Encapsulated.create_object r (h1, c)
            = Raise (ValueError (fr_born_in r))) as ->; [|done].
    unfold Encapsulated.create_object, Encapsulated.from_dict,
      parse_datetime. by rewrite Hbad. }
  split_and!; [done|by rewrite direct_access_deserialize|].
  intros factory rid.
  destruct (fphase1_created factory pre Hts) as (h1 & d & Hrun & _).
  unfold Functional.deserialize_functional. cbn [objects].
  rewrite for_each_app, Hrun, bind_Done, for_each_cons.
  assert (Functional.create_object factory r (h1, d)
          = Raise (ValueError (fr_born_in r))) as ->; [|done].
  unfold Functional.create_object, parse_datetime. by rewrite Hbad.
Qed.

(** After the well-formed record of Ivan, a record dated "15 May 1990". *)
Lemma deserialize_bad_timestamp_witness :
  Encapsulated.deserialize (H:=test_dates) (ivan_record :: undated_records)
  = Raise (ValueError "15 May 1990") ∧
  Functional.deserialize_functional (H:=test_dates) test_factory
    (mkContainer "id-ivan" (ivan_record :: undated_records))
  = Raise (ValueError "15 May 1990").
Proof.
  destruct (deserialize_bad_timestamp (H:=test_dates) [ivan_record]
              (mkFlat "id-ivan" "Ivan" "15 May 1990" ["id-ghost"]) [])
    as (Henc & _ & Hfun).
  - intros r Hr. apply triangle_records_timestamps_ok.
    unfold triangle_records. set_solver.
  - reflexivity.
  - split; [exact Henc|]. exact (Hfun test_factory "id-ivan").
Defined.

(** X11: the empty container.  The object-oriented builders raise
    [IndexError] on the empty list of records, where there is no first
    record to take the root from, and on no other input;
    [deserialize_functional] looks the root up by id and raises [KeyError]
    with the root id on a container without records; it never raises
    [IndexError]. *)
Theorem deserialize_empty `{DateTimeText} :
  (∀ objs, Encapsulated.deserialize objs = Raise IndexError ↔ objs = []) ∧
  (∀ objs, DirectAccess.deserialize objs = Raise IndexError ↔ objs = []) ∧
  (∀ factory rid,
     Functional.deserialize_functional factory (mkContainer rid [])
     = Raise (KeyError rid)) ∧
  (∀ factory c,
     Functional.deserialize_functional factory c ≠ Raise IndexError).
Proof.
  assert (Henc : ∀ objs,
            Encapsulated.deserialize objs = Raise IndexError ↔ objs = []).
  { intros objs. split; [|by intros ->].
    unfold Encapsulated.deserialize. intros Hrun.
    destruct (for_each Encapsulated.create_object objs ([], ∅))
      as [st| |] eqn:H1; cbn in Hrun; [| |done].
    - destruct (for_each (Encapsulated.link_object st.2) objs st.1)
        as [h| |] eqn:H2; cbn in Hrun; [| |done].
      + destruct objs as [|first objs]; [done|]. exfalso.
        unfold getitem in Hrun. by destruct (st.2 !! fr_id first).
      + exfalso. injection Hrun as ->.
        apply (for_each_raises _ (λ e, e ≠ IndexError)) in H2; [done|].
        intros r h0 e. unfold Encapsulated.link_object, getitem, deref.
        destruct (st.2 !! fr_id r); cbn; [|by intros [= <-]].
        destruct (comprehension _ (fr_friends r)) as [fs|e'|] eqn:Hfs; cbn.
        * destruct (h0 !! _); cbn; [done|by intros [= <-]].
        * intros [= <-]. apply (comprehension_raises _ (λ e, e ≠ IndexError)) in Hfs; [done|].
          intros j e. destruct (st.2 !! j); [done|by intros [= <-]].
        * done.
    - exfalso. injection Hrun as ->. apply (for_each_raises _ (λ e, e ≠ IndexError)) in H1; [done|].
      intros r st e.
      unfold Encapsulated.create_object, Encapsulated.from_dict,
        parse_datetime.
      destruct (fromisoformat (fr_born_in r)); cbn; [done|by intros [= <-]]. }
  split_and!; [done| |done|].
  - intros objs. by rewrite direct_access_deserialize.
  - intros factory c. unfold Functional.deserialize_functional. intros Hrun.
    destruct (for_each (Functional.create_object factory) (objects c) ([], []))
      as [st| |] eqn:H1; cbn in Hrun; [| |done].
    + destruct (for_each (Functional.link_object st.2) (pydict_values st.2)
                  st.1) as [h| |] eqn:H2; cbn in Hrun; [| |done].
      * unfold pydict_getitem in Hrun.
        by destruct (pydict_get st.2 (root_id c)).
      * injection Hrun as ->. apply (for_each_raises _ (λ e, e ≠ IndexError)) in H2; [done|].
        intros a h0 e. unfold Functional.link_object, Functional.pderef.
        destruct (h0 !! a) as [p|]; cbn; [|by intros [= <-]].
        destruct (comprehension _ (Functional.pd_friends p))
          as [fs|e'|] eqn:Hfs; cbn; [done| |done].
        intros [= <-]. apply (comprehension_raises _ (λ e, e ≠ IndexError)) in Hfs; [done|].
        intros [j|f] e; [|by intros [= <-]]. unfold pydict_getitem.
        destruct (pydict_get st.2 j); [done|by intros [= <-]].
    + injection Hrun as ->. apply (for_each_raises _ (λ e, e ≠ IndexError)) in H1; [done|].
      intros r st e. unfold Functional.create_object, parse_datetime.
      destruct (fromisoformat (fr_born_in r)); cbn; [done|by intros [= <-]].
Qed.

(** X12: one object per id.  The builder turns ids back into references
    through its cache: in the graph it returns, two persons that the root
    reaches and that have the same id are the same object, also when the
    records repeat an id.  A person met along two paths, or again at the end
    of a cycle, is met as one object. *)
Theorem deserialize_one_object_per_id `{DateTimeText} objs (h : heap) root :
  Encapsulated.deserialize objs = Done (h, root) →
  DirectAccess.deserialize objs = Done (h, root) ∧
  ∀ a b p q, reachable h root a → reachable h root b →
             h !! a = Some p → h !! b = Some q → _id p = _id q → a = b.
Proof.
  intros Hrun. split; [by rewrite direct_access_deserialize|].
  destruct (deserialize_Done_rebuilt _ _ _ Hrun)
    as (first & c & _ & Hrb & Hroot & _).
  intros a b p q Ha Hb Hp Hq Hid.
  destruct (rebuilt_reachable_filed _ _ _ _ _ _ Hrb Hroot Ha) as [i Hi].
  destruct (rebuilt_reachable_filed _ _ _ _ _ _ Hrb Hroot Hb) as [j Hj].
  destruct (rebuilt_filed _ _ _ _ _ Hrb Hi) as (r & p' & _ & Hri & Hp' & (Hpi & _) & _).
  destruct (rebuilt_filed _ _ _ _ _ Hrb Hj) as (s & q' & _ & Hsj & Hq' & (Hqj & _) & _).
  assert (i = j) as -> by congruence. congruence.
Qed.

(** In the triangle read back from its records, the first friend of the
    first friend of Ivan is Ivan himself, not a second object. *)
Lemma deserialize_one_object_per_id_witness :
  ∃ h root,
    Encapsulated.deserialize (H:=test_dates) triangle_records
    = Done (h, root) ∧
    ∀ a b p q, reachable h root a → reachable h root b →
               h !! a = Some p → h !! b = Some q → _id p = _id q → a = b.
Proof.
  eexists _, _. split; [reflexivity|].
  apply (deserialize_one_object_per_id (H:=test_dates) triangle_records).
  reflexivity.
Defined.

Section functional_builder_outcomes.
Context `{DateTimeText}.
Import Functional.
Variable factory : string → datetime → PersonData.

Lemma fcreate_objects_timestamps objs st st' :
  for_each (create_object factory) objs st = Done st' → timestamps_ok objs.
Proof.
  revert st. induction objs as [|r objs IH]; intros st Hrun r' Hr'.
  { by apply elem_of_nil in Hr'. }
  rewrite for_each_cons in Hrun.
  destruct (create_object factory r st) as [st1| |] eqn:Hr;
    cbn in Hrun; [|done..].
  apply elem_of_cons in Hr' as [->|Hr']; [|by eapply IH].
  unfold create_object, parse_datetime in Hr.
  by destruct (fromisoformat (fr_born_in r)).
Qed.

(** What [deserialize_functional] leaves when it returns, whether or not
    ids repeat: the mapping of phase 1, and behind each of its values a dict
    whose 'friends' entry holds references to the dicts filed under the
    friend ids of its record. *)
Lemma deserialize_functional_Done (c : Container) (h : pheap) root d :
  deserialize_functional factory c = Done (h, root, d) →
  ∃ h1, fcreated factory (objects c) h1 d ∧
        length h = length h1 ∧
        pydict_get d (root_id c) = Some root ∧
        ∀ a, a ∈ pydict_values d →
          ∃ r t fs, objects c !! a = Some r ∧
                    pydict_get d (fr_id r) = Some a ∧
                    h !! a = Some (mkData (fr_id r)
                                     (pd_name (factory (fr_name r) t))
                                     (pd_born_in (factory (fr_name r) t))
                                     (PyRef <$> fs)) ∧
                    Forall2 (λ f j, pydict_get d j = Some f) fs (fr_friends r).
Proof.
  unfold deserialize_functional. intros Hrun.
  destruct (for_each (create_object factory) (objects c) ([], []))
    as [[h1 d1]| |] eqn:Hph1; [|by cbn in Hrun..].
  rewrite bind_Done in Hrun. cbn [fst snd] in Hrun.
  pose proof (fcreate_objects_timestamps _ _ _ Hph1) as Hts.
  destruct (fphase1_created factory (objects c) Hts) as (h1' & d' & Hph1' & Hcr).
  rewrite Hph1 in Hph1'. injection Hph1' as <- <-.
  destruct (for_each (link_object d1) (pydict_values d1) h1)
    as [h2| |] eqn:Hph2; [|by cbn in Hrun..].
  rewrite bind_Done in Hrun. unfold pydict_getitem in Hrun.
  destruct (pydict_get d1 (root_id c)) as [root1|] eqn:Hroot; [|done].
  injection Hrun as <- <- <-.
  destruct (fcreated_values _ _ _ _ Hcr) as (Hndv & Hvals).
  assert (Hids : ∀ a, a ∈ pydict_values d1 →
            ∃ p js, h1 !! a = Some p ∧ pd_friends p = PyStr <$> js).
  { intros a Ha. destruct (Hvals a Ha) as (r & t & _ & _ & Hh).
    by exists (fbare factory r t), (fr_friends r). }
  destruct (fphase2_outcome factory d1 (pydict_values d1) h1 Hndv Hids)
    as [(h' & Hrun2 & Hres)|(k & Hrun2 & _)]; [|congruence].
  destruct (fphase2_linked d1 (pydict_values d1) h1 Hndv)
    as (h'' & Hrun2' & Hlen & _ & Hlinked).
  { intros a Ha. destruct (Hvals a Ha) as (r & t & _ & _ & Hh).
    exists (fbare factory r t), (fr_friends r). split_and!; [done..|].
    intros j Hj. by eapply (Hres a _ (fr_friends r)). }
  assert (h'' = h2) as -> by congruence.
  exists h1. split_and!; [done..|]. intros a Ha.
  destruct (Hvals a Ha) as (r & t & Hr & Hd & Hh).
  destruct (Hlinked a _ (fr_friends r) Ha Hh eq_refl) as (fs & Hfs & Hl).
  by exists r, t, fs.
Qed.

(** With distinct ids, phase 1 files the records in their order. *)
Lemma fphase1_order objs (h : pheap) d :
  NoDup (record_ids objs) →
  for_each (create_object factory) objs ([], []) = Done (h, d) →
  d.*1 = record_ids objs ∧ pydict_values d = seq 0 (length objs) ∧
  length h = length objs.
Proof.
  revert h d. induction objs as [|r objs IH] using rev_ind; intros h d Hnd.
  { by intros [= <- <-]. }
  rewrite for_each_snoc.
  destruct (for_each (create_object factory) objs ([], []))
    as [[h0 d0]| |] eqn:Hph0; cbn; [|done..].
  unfold record_ids in *. rewrite fmap_app in Hnd.
  apply NoDup_app in Hnd as (Hnd & Hfresh & _).
  destruct (IH h0 d0 Hnd eq_refl) as (Hk & Hv & Hl).
  unfold create_object, parse_datetime.
  destruct (fromisoformat (fr_born_in r)); cbn; [|done].
  intros [= <- <-]. rewrite pydict_set_fresh.
  2: { rewrite Hk. intros Hin. apply (Hfresh _ Hin). cbn. set_solver. }
  unfold pydict_values in *.
  rewrite !fmap_app, Hk, Hv, !length_app, Hl. cbn.
  split_and!; [done| |done]. by rewrite Nat.add_1_r, seq_S.
Qed.
End functional_builder_outcomes.

(** X13: the mapping returned by [deserialize_functional].  It has one key
    per record id, each once, so no more entries than there are records;
    when the record ids are distinct its keys are the record ids in the order
    of the records, and its values, in that order, are the persons made from
    the records. *)
Theorem deserialize_functional_registry `{DateTimeText} factory c
    (h : Functional.pheap) root d :
  Functional.deserialize_functional factory c = Done (h, root, d) →
  NoDup d.*1 ∧
  (∀ i, i ∈ d.*1 ↔ i ∈ record_ids (objects c)) ∧
  length d ≤ length (objects c) ∧
  (NoDup (record_ids (objects c)) →
   d.*1 = record_ids (objects c) ∧
   Forall2 (λ a r, ∃ p, h !! a = Some p ∧ Functional.pd_id p = fr_id r ∧
                        length (Functional.pd_friends p)
                        = length (fr_friends r))
           (pydict_values d) (objects c)).
Proof.
  intros Hrun.
  destruct (deserialize_functional_Done _ _ _ _ _ Hrun)
    as (h1 & Hcr & Hlen & Hroot & Hvals).
  pose proof Hcr as (Hlen1 & Hbare & Hnd & Hnone & Hsome).
  assert (Hkeys : ∀ i, i ∈ d.*1 ↔ i ∈ record_ids (objects c)).
  { intros i. split.
    - intros [a Ha]%pydict_get_keys.
      destruct (decide (i ∈ record_ids (objects c))) as [|Hout]; [done|].
      rewrite Hnone in Ha by done. done.
    - intros (n & Hn & _)%Hsome. by eapply pydict_get_Some_keys. }
  split_and!; [done..| |].
  - rewrite <-(length_fmap fst d), <-(length_fmap fr_id (objects c)).
    apply submseteq_length, NoDup_submseteq; [done|].
    intros i Hi. by apply Hkeys.
  - intros Hdistinct. unfold Functional.deserialize_functional in Hrun.
    destruct (for_each (Functional.create_object factory) (objects c) ([], []))
      as [[h0 d0]| |] eqn:Hph1; [|by cbn in Hrun..].
    rewrite bind_Done in Hrun. cbn [fst snd] in Hrun.
    assert (d0 = d) as ->.
    { destruct (for_each _ (pydict_values d0) h0); [|by cbn in Hrun..].
      rewrite bind_Done in Hrun.
      destruct (pydict_getitem d0 (root_id c)); cbn in Hrun; [|done..].
      congruence. }
    destruct (fphase1_order factory _ _ _ Hdistinct Hph1) as (Hk & Hv & Hl).
    split; [done|]. rewrite Hv.
    apply Forall2_same_length_lookup_2; [by rewrite length_seq|].
    intros n a r Ha Hr. apply lookup_seq in Ha as [-> _].
    destruct (Hvals n) as (r' & t & fs & Hr' & _ & Hp & Hfs).
    { rewrite Hv. apply elem_of_seq. apply lookup_lt_Some in Hr. lia. }
    assert (r' = r) as -> by congruence.
    eexists. split; [exact Hp|]. cbn. split; [done|].
    rewrite length_fmap. by eapply Forall2_length.
Qed.

(** The three records of the triangle give three entries, in record
    order. *)
Lemma deserialize_functional_registry_witness :
  ∃ h root d,
    Functional.deserialize_functional (H:=test_dates) test_factory
      (mkContainer "id-ivan" triangle_records) = Done (h, root, d) ∧
    d.*1 = ["id-ivan"; "id-maria"; "id-alexey"] ∧ length d = 3.
Proof.
  eexists _, _, _. split; [reflexivity|].
  destruct (deserialize_functional_registry (H:=test_dates) test_factory
              (mkContainer "id-ivan" triangle_records) _ _ _ eq_refl)
    as (_ & _ & _ & Hord).
  destruct Hord as [Hkeys _].
  - cbn. repeat (constructor; [set_solver|]). constructor.
  - split; [exact Hkeys|reflexivity].
Defined.

(** X14: the graph returned by [deserialize_functional].  The returned
    root is the person filed under the root id.  Every person of the
    returned mapping is filed under its own id, and every element of its
    'friends' entry is a reference to a person of the mapping, not a copy:
    the person that the mapping files under that friend's id. *)
Theorem deserialize_functional_references `{DateTimeText} factory c
    (h : Functional.pheap) root d :
  Functional.deserialize_functional factory c = Done (h, root, d) →
  pydict_get d (root_id c) = Some root ∧
  ∀ i a, pydict_get d i = Some a →
    ∃ p, h !! a = Some p ∧ Functional.pd_id p = i ∧
         ∀ v, v ∈ Functional.pd_friends p →
           ∃ f q, v = PyRef f ∧ h !! f = Some q ∧
                  pydict_get d (Functional.pd_id q) = Some f.
Proof.
  intros (h1 & Hcr & Hlen & Hroot & Hvals)%deserialize_functional_Done.
  split; [done|]. intros i a Ha.
  pose proof Hcr as (_ & _ & _ & Hnone & Hsome).
  assert (Hkey : ∀ j f, pydict_get d j = Some f →
            ∃ r t fs, objects c !! f = Some r ∧ fr_id r = j ∧
              h !! f = Some (Functional.mkData (fr_id r)
                       (Functional.pd_name (factory (fr_name r) t))
                       (Functional.pd_born_in (factory (fr_name r) t))
                       (PyRef <$> fs)) ∧
              Forall2 (λ f j, pydict_get d j = Some f) fs (fr_friends r)).
  { intros j f Hf.
    destruct (Hvals f) as (r & t & fs & Hr & _ & Hp & Hfs).
    { by eapply pydict_get_values. }
    exists r, t, fs. split_and!; [done| |done..].
    destruct (decide (j ∈ record_ids (objects c))) as [Hin|Hout].
    2: { rewrite Hnone in Hf by done. done. }
    destruct (Hsome j Hin) as (n & Hn & (r' & Hr' & Hid) & _).
    assert (n = f) as -> by congruence. congruence. }
  destruct (Hkey i a Ha) as (r & t & fs & Hr & Hid & Hp & Hfs).
  eexists. split; [exact Hp|]. split; [done|]. cbn.
  intros v (f & -> & [n Hn]%list_elem_of_lookup)%list_elem_of_fmap.
  destruct (Forall2_lookup_l _ _ _ _ _ Hfs Hn) as (j & _ & Hj).
  destruct (Hkey j f Hj) as (r' & t' & fs' & _ & Hid' & Hq & _).
  eexists f, _. split_and!; [done|exact Hq|]. cbn. by rewrite Hid'.
Qed.

Lemma deserialize_functional_references_witness :
  ∃ h root d,
    Functional.deserialize_functional (H:=test_dates) test_factory
      (mkContainer "id-ivan" triangle_records) = Done (h, root, d) ∧
    pydict_get d "id-ivan" = Some root.
Proof.
  eexists _, _, _. split; [reflexivity|].
  eapply (deserialize_functional_references (H:=test_dates) test_factory
            (mkContainer "id-ivan" triangle_records)).
  reflexivity.
Defined.

(** ** The walk of an isomorphic graph *)

Section preorder_map.
Context {N M : Type} `{Countable N} `{Countable M}.
Variable succs : N → option (list N).
Variable succs' : M → option (list M).
Variable g : N → M.
Variable D : gset N.
Hypothesis Hinj : ∀ a b, a ∈ D → b ∈ D → g a = g b → a = b.
Hypothesis Hsucc : ∀ a fs, a ∈ D → succs a = Some fs →
  succs' (g a) = Some (g <$> fs) ∧ ∀ x, x ∈ fs → x ∈ D.

(** A renaming of the nodes that is one-to-one on [D] and carries successor
    lists to successor lists carries the depth-first order along. *)
Lemma preorder_map seen todo out :
  preorder succs seen todo out →
  (∀ x, x ∈ seen → x ∈ D) → (∀ x, x ∈ todo → x ∈ D) →
  preorder succs' (set_map g seen) (g <$> todo) (g <$> out).
Proof.
  induction 1 as [seen|seen a todo out Ha _ IH|seen a fs todo out Ha Hfs _ IH];
    intros Hseen Htodo; cbn.
  - constructor.
  - apply preorder_seen; [|apply IH; set_solver].
    apply elem_of_map. by exists a.
  - destruct (Hsucc a fs) as [Hg HD]; [set_solver|done|].
    eapply preorder_new; [|done|].
    + intros (b & Hab & Hb)%elem_of_map. apply Ha.
      assert (a = b) as ->; [|done]. apply Hinj; set_solver.
    + rewrite <-fmap_app.
      replace ({[g a]} ∪ set_map g seen : gset M)
        with (set_map g ({[a]} ∪ seen) : gset M)
        by (by rewrite set_map_union_L, set_map_singleton_L).
      apply IH; [set_solver|].
      intros x [?|?]%elem_of_app; [auto|set_solver].
Qed.
End preorder_map.

Lemma Forall2_Some_det {A B} (f : A → option B) l k1 k2 :
  Forall2 (λ a r, f a = Some r) l k1 → Forall2 (λ a r, f a = Some r) l k2 →
  k1 = k2.
Proof.
  intros H1. revert k2. induction H1; intros k2 H2; inversion H2; simplify_eq;
    f_equal; auto; congruence.
Qed.

(** ** Serializing a restored graph *)

Section reserialize.
Context `{DateTimeText}.

(** With distinct ids, the builder puts the object of the record at position
    [n] at address [n] and files it under the id of the record. *)
Lemma rebuilt_positions objs (h : heap) c n r :
  rebuilt objs h c → NoDup (record_ids objs) → objs !! n = Some r →
  c !! fr_id r = Some n ∧
  ∃ p, h !! n = Some p ∧ carries p r ∧ linked c p (fr_friends r).
Proof.
  intros Hrb Hnd Hr.
  destruct (rebuilt_record objs h c r Hrb Hnd)
    as (n' & p & Hn' & Hp & Hc & Hl); [by eapply list_elem_of_lookup_2|].
  destruct (rebuilt_filed _ _ _ _ _ Hrb Hn') as (r' & _ & Hr' & Hid & _).
  assert (n' = n) as ->; [|by eauto].
  eapply NoDup_lookup; [exact Hnd| |]; unfold record_ids;
    rewrite list_lookup_fmap.
  - by rewrite Hr'.
  - rewrite Hr. cbn. congruence.
Qed.

(** A heap rebuilt from records with distinct ids and no dangling friend id
    has live references and unique ids. *)
Lemma rebuilt_invariants objs (h : heap) c :
  rebuilt objs h c → NoDup (record_ids objs) → references_ok objs →
  heap_closed h ∧ ids_unique h.
Proof.
  intros Hrb Hnd Hrefs. pose proof Hrb as (Hlen & _).
  assert (Hat : ∀ a p, h !! a = Some p →
            ∃ r, objs !! a = Some r ∧ carries p r ∧ linked c p (fr_friends r)).
  { intros a p Hp.
    destruct (lookup_lt_is_Some_2 objs a) as [r Hr].
    { rewrite <-Hlen. by eapply lookup_lt_Some. }
    destruct (rebuilt_positions _ _ _ _ _ Hrb Hnd Hr) as (_ & p' & Hp' & ? & ?).
    exists r. by simplify_eq. }
  split.
  - intros a p f Hp Hf. destruct (Hat a p Hp) as (r & Hr & _ & Hl).
    apply list_elem_of_lookup in Hf as [k Hk].
    destruct (Forall2_lookup_l _ _ _ _ _ Hl Hk) as (j & _ & Hj).
    destruct (rebuilt_filed _ _ _ _ _ Hrb Hj) as (r' & _ & Hr' & _).
    rewrite Hlen. by eapply lookup_lt_Some.
  - intros a b p q Hp Hq Hid.
    destruct (Hat a p Hp) as (ra & Hra & (Hia & _) & _).
    destruct (Hat b q Hq) as (rb & Hrb' & (Hib & _) & _).
    eapply NoDup_lookup; [exact Hnd| |]; unfold record_ids;
      rewrite list_lookup_fmap.
    + by rewrite Hra.
    + rewrite Hrb'. cbn. congruence.
Qed.

(** The friends of a linked object are the images of the friends of the
    original. *)
Lemma linked_images (h : heap) (c : gmap string addr) (g : addr → addr)
    (fs fs' : list addr) :
  (∀ f, f ∈ fs → ∃ q, h !! f = Some q ∧ c !! _id q = Some (g f)) →
  Forall2 (λ f' j, c !! j = Some f') fs' (omap (λ f, _id <$> h !! f) fs) →
  fs' = g <$> fs.
Proof.
  revert fs'. induction fs as [|f fs IH]; intros fs' Hfs Hl; cbn in *.
  { by inversion Hl. }
  destruct (Hfs f) as (q & Hq & Hc); [set_solver|]. rewrite Hq in Hl.
  cbn in Hl. inversion Hl as [|f' j fs'' js Hf' Hl']; simplify_eq.
  f_equal. apply IH; [|done]. intros x Hx. apply Hfs. set_solver.
Qed.
End reserialize.

(** X15: a restored graph serializes to the same records.  Take a heap
    with live references and unique ids, serialize it from a root and read
    the records back: the object-oriented serializers, run on the restored
    root, write exactly the records that were read, in the same order.  A
    round trip loses nothing that serialization writes. *)
Theorem reserialize_same_records `{DateTimeText} (h : heap) root :
  iso_reversible → heap_closed h → ids_unique h → root < length h →
  ∃ objs h' root',
    (∀ fuel, length h < fuel →
       Encapsulated.serialize fuel h root = Done objs) ∧
    Encapsulated.deserialize objs = Done (h', root') ∧
    (∀ fuel, length objs < fuel →
       Encapsulated.serialize fuel h' root' = Done objs ∧
       DirectAccess.serialize fuel h' root' = Done objs).
Proof.
  intros Hiso Hcl Hu Hroot.
  destruct (serialize_preorder h root Hcl Hu Hroot)
    as (order & objs & Hpre & Hflat & Hrun).
  destruct (collected_container_ok h root order objs Hcl Hu Hiso Hpre Hflat)
    as (Hts & Hrefs & Hnd).
  destruct (preorder_root _ _ _ Hpre) as (Hndo & Hreach & Hhead).
  assert (∃ first, head objs = Some first ∧ objs !! 0 = Some first)
    as (first & Hfirst & Hfirst0).
  { destruct Hflat as [|a r order objs Hr _]; simplify_eq/=. by exists r. }
  destruct (deserialize_rebuilt objs first Hts Hrefs Hfirst)
    as (h' & c & root' & Hdes & Hrb & Hcroot).
  pose proof Hrb as (Hlen & _).
  destruct (rebuilt_invariants objs h' c Hrb Hnd Hrefs) as [Hcl' Hu'].
  assert (root' = 0) as ->.
  { destruct (rebuilt_positions _ _ _ _ _ Hrb Hnd Hfirst0) as [Hc0 _].
    congruence. }
  (* the address of the restored copy of an object *)
  pose (g := λ a, match h !! a with
                  | Some p => default 0 (c !! _id p)
                  | None => 0
                  end).
  assert (Hat : ∀ n a, order !! n = Some a →
            ∃ p r p', h !! a = Some p ∧ objs !! n = Some r ∧
              r = mkFlat (_id p) (_name p) (isoformat (_born_in p))
                         (friend_ids h p) ∧
              c !! _id p = Some n ∧ g a = n ∧ h' !! n = Some p' ∧
              carries p' r ∧ linked c p' (fr_friends r)).
  { intros n a Hn.
    destruct (Forall2_lookup_l _ _ _ _ _ Hflat Hn) as (r & Hr & Hf).
    destruct (flat_of_Some _ _ _ Hf) as (p & Hp & ->).
    destruct (rebuilt_positions _ _ _ _ _ Hrb Hnd Hr)
      as (Hc & p' & Hp' & Hcar & Hl).
    cbn in Hc. eexists p, _, p'. split_and!; try done.
    unfold g. by rewrite Hp, Hc. }
  set (D := list_to_set order : gset nat).
  assert (HD : ∀ x, x ∈ D ↔ x ∈ order).
  { intros x. unfold D. apply elem_of_list_to_set. }
  assert (Hmap : preorder (friends_of h') (set_map g (∅ : gset nat))
                   (g <$> [root]) (g <$> order)).
  { apply (preorder_map (friends_of h) (friends_of h') g D);
      [| |done|set_solver|].
    - intros a b [n Hn]%HD%list_elem_of_lookup
        [m Hm]%HD%list_elem_of_lookup Hg.
      destruct (Hat n a Hn) as (? & ? & ? & _ & _ & _ & _ & Hga & _).
      destruct (Hat m b Hm) as (? & ? & ? & _ & _ & _ & _ & Hgb & _).
      assert (n = m) as -> by congruence. congruence.
    - intros a fs Ha Hfs.
      assert (Hin : ∀ x, x ∈ fs → x ∈ D).
      { intros x Hx. apply HD, Hreach. eapply rtc_r.
        - by apply Hreach, HD.
        - by exists fs. }
      split; [|done].
      apply HD, list_elem_of_lookup in Ha as [n Hn].
      destruct (Hat n a Hn)
        as (p & r & p' & Hp & Hr & -> & Hc & Hga & Hp' & Hcar & Hl).
      unfold friends_of in Hfs. rewrite Hp in Hfs. injection Hfs as <-.
      unfold friends_of. rewrite Hga, Hp'. cbn. f_equal.
      apply (linked_images h c); [|exact Hl].
      intros f [m Hm]%Hin%HD%list_elem_of_lookup.
      destruct (Hat m f Hm) as (q & ? & ? & Hq & _ & _ & Hcq & Hgf & _).
      exists q. by rewrite Hgf.
    - intros x ->%list_elem_of_singleton. apply HD, Hreach, rtc_refl. }
  rewrite set_map_empty in Hmap.
  assert (Hg0 : g root = 0).
  { destruct order as [|a order]; [done|]. injection Hhead as ->.
    by destruct (Hat 0 root eq_refl) as (? & ? & ? & _ & _ & _ & _ & ? & _). }
  cbn in Hmap. rewrite Hg0 in Hmap.
  destruct (serialize_preorder h' 0 Hcl' Hu')
    as (order' & objs' & Hpre' & Hflat' & Hrun').
  { rewrite Hlen. by eapply lookup_lt_Some. }
  assert (order' = g <$> order) as -> by (by eapply preorder_det).
  assert (objs' = objs) as ->.
  { eapply Forall2_Some_det; [exact Hflat'|].
    apply Forall2_same_length_lookup_2.
    { rewrite length_fmap. by eapply Forall2_length. }
    intros n a' r Ha' Hr. rewrite list_lookup_fmap in Ha'.
    destruct (order !! n) as [a|] eqn:Hn; [|done]. injection Ha' as <-.
    destruct (Hat n a Hn)
      as (p & r0 & p' & Hp & Hr0 & Hr0eq & Hc & Hga & Hp' & Hcar & Hl).
    assert (r0 = r) as -> by congruence.
    rewrite Hga. unfold flat_of. rewrite Hp'. cbn. f_equal.
    rewrite (rebuilt_friend_ids objs h' c p' (fr_friends r) Hrb Hl).
    2: { intros j Hj. eapply Hrefs; [|done]. by eapply list_elem_of_lookup_2. }
    destruct Hcar as (Hid & Hname & Hborn). rewrite Hid, Hname.
    rewrite Hr0eq in Hborn. cbn in Hborn. rewrite Hiso in Hborn.
    injection Hborn as <-. by rewrite Hr0eq. }
  exists objs, h', 0. split_and!; [|done|].
  - intros fuel Hfuel. by apply Hrun.
  - intros fuel Hfuel. apply Hrun'. lia.
Qed.

(** The triangle: its three records, read back and serialized again, are
    its three records. *)
Lemma reserialize_same_records_witness :
  ∃ h' root',
    Encapsulated.serialize 4 triangle 0 = Done triangle_records ∧
    Encapsulated.deserialize (H:=test_dates) triangle_records
    = Done (h', root') ∧
    Encapsulated.serialize 4 h' root' = Done triangle_records.
Proof.
  destruct (reserialize_same_records (H:=test_dates) triangle 0)
    as (objs & h' & root' & Hser & Hdes & Hagain).
  - apply test_dates_reversible.
  - apply built_invariants, triangle_built.
  - apply built_invariants, triangle_built.
  - cbn. lia.
  - assert (objs = triangle_records) as ->.
    { specialize (Hser 4). cbn in Hser. symmetry.
      by injection (Hser ltac:(lia)). }
    exists h', root'. split_and!; [reflexivity|done|].
    apply (Hagain 4). cbn. lia.
Defined.

(** X16: a restored graph of the functional variant cannot be serialized
    again.  After [deserialize_functional] the 'friends' entry of a person
    holds dicts, not ids, and a dict cannot be looked up in the set of
    visited ids: [serialize_functional] on the returned root and mapping
    raises [TypeError] as soon as the root has a friend.  For a root without
    friends it returns the one record of the root. *)
Theorem reserialize_functional_raises `{DateTimeText} factory c
    (h : Functional.pheap) root d :
  Functional.deserialize_functional factory c = Done (h, root, d) →
  ∃ p, h !! root = Some p ∧
    (Functional.pd_friends p ≠ [] →
     ∀ fuel, 2 ≤ fuel →
       Functional.serialize_functional fuel h root d = Raise TypeError) ∧
    (Functional.pd_friends p = [] →
     ∀ fuel, 1 ≤ fuel →
       Functional.serialize_functional fuel h root d
       = Done (mkContainer (Functional.pd_id p)
                 [mkFlat (Functional.pd_id p) (Functional.pd_name p)
                         (isoformat (Functional.pd_born_in p)) []])).
Proof.
  intros (h1 & Hcr & Hlen & Hroot & Hvals)%deserialize_functional_Done.
  destruct (Hvals root) as (r & t & fs & Hr & Hd & Hp & Hfs).
  { by eapply pydict_get_values. }
  eexists. split; [exact Hp|]. cbn [Functional.pd_friends Functional.pd_id
    Functional.pd_name Functional.pd_born_in].
  assert (Hstep : ∀ fuel,
    Functional.serialize_functional (S fuel) h root d =
      st ← for_each (Functional.collect_objects fuel h d) (PyRef <$> fs)
             ({[fr_id r]} ∪ ∅,
              [] ++ [Functional.mkCopy (fr_id r)
                       (Functional.pd_name (factory (fr_name r) t))
                       (isoformat
                          (Functional.pd_born_in (factory (fr_name r) t)))
                       (PyRef <$> fs)]);
      objs ← comprehension Functional.dump_object st.2;
      Done (mkContainer (fr_id r) objs)).
  { intros fuel. unfold Functional.serialize_functional.
    rewrite (pderef_Some _ _ _ Hp), bind_Done.
    cbn [Functional.collect_objects Functional.pd_id fst snd].
    rewrite decide_False by set_solver.
    rewrite (pydict_getitem_Some _ _ _ Hd), bind_Done.
    by rewrite (pderef_Some _ _ _ Hp), bind_Done. }
  split.
  - intros Hne fuel Hfuel. destruct fuel as [|[|fuel]]; [lia..|].
    rewrite Hstep. destruct fs as [|f fs]; [done|]. done.
  - intros Hnil fuel Hfuel. destruct fuel as [|fuel]; [lia|].
    rewrite Hstep. by destruct fs.
Qed.

(** The triangle, read back, has Ivan with two friends: serializing the
    result again fails. *)
Lemma reserialize_functional_raises_witness :
  ∃ h root d,
    Functional.deserialize_functional (H:=test_dates) test_factory
      (mkContainer "id-ivan" triangle_records) = Done (h, root, d) ∧
    Functional.serialize_functional 4 h root d = Raise TypeError.
Proof.
  eexists _, _, _. split; [reflexivity|].
  destruct (reserialize_functional_raises (H:=test_dates) test_factory
              (mkContainer "id-ivan" triangle_records) _ _ _ eq_refl)
    as (p & Hp & Hraise & _).
  injection Hp as <-. apply Hraise; [done|lia].
Defined.

(** ** The same program in the two styles *)

Section lockstep_facts.
Context `{DateTimeText}.

Lemma friend_ids_ext (h h' : heap) p :
  (∀ x, x ∈ _friends p → _id <$> h' !! x = _id <$> h !! x) →
  friend_ids h' p = friend_ids h p.
Proof.
  unfold friend_ids. induction (_friends p) as [|f fs IH]; intros Hx; [done|].
  cbn. rewrite Hx by set_solver. rewrite IH; [done|].
  intros x Hin. apply Hx. set_solver.
Qed.

Lemma friend_ids_append (h : heap) p x q :
  h !! x = Some q →
  friend_ids h (friends_append p x) = friend_ids h p ++ [_id q].
Proof.
  intros Hq. unfold friend_ids, friends_append. cbn.
  rewrite omap_app. cbn. by rewrite Hq.
Qed.

(** On a heap with live references the friend ids are read without
    failure. *)
Lemma friend_ids_total (h : heap) (fs : list addr) :
  (∀ f, f ∈ fs → f < length h) →
  omap (λ f, _id <$> h !! f) fs = (λ f, default "" (_id <$> h !! f)) <$> fs.
Proof.
  induction fs as [|f fs IH]; intros Hlive; [done|]. cbn.
  destruct (lookup_lt_is_Some_2 h f) as [q Hq]; [apply Hlive; set_solver|].
  rewrite Hq. cbn. rewrite IH; [done|]. intros x Hx. apply Hlive. set_solver.
Qed.

Lemma mapM_as_id js : mapM as_id (PyStr <$> js) = Some js.
Proof.
  apply mapM_Some. induction js; constructor; auto.
Qed.

Lemma as_data_append (h h' : heap) p x q :
  h !! x = Some q → (∀ p0, friend_ids h' p0 = friend_ids h p0) →
  as_data h' (friends_append p x)
  = Functional.pd_append (as_data h p) (PyStr (_id q)).
Proof.
  intros Hq Hext. unfold as_data, Functional.pd_append.
  cbn [Functional.pd_id Functional.pd_name Functional.pd_born_in
       Functional.pd_friends _id _name _born_in friends_append].
  by rewrite Hext, (friend_ids_append h p x q Hq), fmap_app.
Qed.

Lemma lockstep_mirror (h : heap) ph d :
  lockstep h ph d →
  built h ∧ fbuilt ph d ∧ length d = length h ∧
  ∀ a, ph !! a = as_data h <$> h !! a.
Proof.
  induction 1 as [|h ph d name born_in uid _ (Hb & Hfb & Hld & Hm) Hfresh
                  |h ph d a b h' ph' _ (Hb & Hfb & Hld & Hm) Hab Hadd Hfadd].
  - split_and!; [constructor|constructor|done|done].
  - destruct (built_invariants _ Hb) as (Hcl & Hu & Hsym).
    destruct (fbuilt_invariants _ _ Hfb) as (Hreg & Hfiled).
    assert (Hlen : length ph = length h).
    { destruct (decide (length ph = length h)) as [|Hne]; [done|]. exfalso.
      destruct (decide (length ph < length h)).
      - specialize (Hm (length ph)).
        rewrite (lookup_ge_None_2 ph) in Hm by lia.
        destruct (lookup_lt_is_Some_2 h (length ph)) as [q Hq]; [lia|].
        by rewrite Hq in Hm.
      - specialize (Hm (length h)).
        rewrite (lookup_ge_None_2 h) in Hm by lia.
        destruct (lookup_lt_is_Some_2 ph (length h)) as [q Hq]; [lia|].
        by rewrite Hq in Hm. }
    assert (Hnone : pydict_get d uid = None).
    { destruct (pydict_get d uid) as [r|] eqn:Hr; [|done]. exfalso.
      destruct (Hreg uid r Hr) as (q & Hq & Hid & _).
      rewrite Hm in Hq. destruct (h !! r) as [p|] eqn:Hp; [|done].
      injection Hq as <-. cbn in Hid.
      eapply Hfresh; [|done]. by eapply list_elem_of_lookup_2. }
    split_and!.
    + by constructor.
    + by constructor.
    + cbn. rewrite pydict_set_fresh, !length_app; [cbn; lia|].
      intros [r Hr]%pydict_get_keys. congruence.
    + intros a. cbn. destruct (decide (a < length h)) as [Hlt|Hge].
      * rewrite !lookup_app_l by lia. rewrite Hm.
        destruct (h !! a) as [p|] eqn:Hp; [|done]. cbn. f_equal.
        unfold as_data. f_equal. f_equal. apply friend_ids_ext.
        intros x Hx. rewrite lookup_app_l; [done|]. by eapply Hcl.
      * destruct (decide (a = length h)) as [->|Hne].
        -- rewrite lookup_app_r by lia. rewrite lookup_app_r by lia.
           by rewrite Hlen, Nat.sub_diag.
        -- rewrite !lookup_ge_None_2; [done|..]; rewrite length_app; cbn; lia.
  - destruct (built_invariants _ Hb) as (Hcl & Hu & Hsym).
    assert (Hb' : built h') by (by eapply built_add_friend).
    assert (Hfb' : fbuilt ph' d) by (by eapply fbuilt_add_friend).
    split_and!; [done|done|by rewrite (add_friend_length _ _ _ _ Hadd)|].
    destruct (ph !! a) as [p|] eqn:Hpa.
    2: { unfold Functional.add_friend, Functional.pderef in Hfadd.
         by rewrite Hpa in Hfadd. }
    destruct (ph !! b) as [q|] eqn:Hpb.
    2: { unfold Functional.add_friend, Functional.pderef in Hfadd.
         rewrite Hpa in Hfadd. cbn in Hfadd. by rewrite Hpb in Hfadd. }
    pose proof (Hm a) as Hma. pose proof (Hm b) as Hmb.
    rewrite Hpa in Hma. rewrite Hpb in Hmb.
    destruct (h !! a) as [s|] eqn:Ha; [|done].
    destruct (h !! b) as [f|] eqn:Hb0; [|done].
    injection Hma as ->. injection Hmb as ->.
    assert (Hla : a < length h) by (by eapply lookup_lt_Some).
    assert (Hlb : b < length h) by (by eapply lookup_lt_Some).
    rewrite (add_friend_distinct _ _ _ _ _ Hab Ha Hb0) in Hadd.
    rewrite (functional_add_friend_distinct _ _ _ _ _ _ Hab Hpa Hpb) in Hfadd.
    assert (Hmem : PyStr (Functional.pd_id (as_data h f))
                     ∈ Functional.pd_friends (as_data h s)
                   ↔ b ∈ _friends s).
    { cbn. rewrite list_elem_of_fmap. split.
      - intros (j & [= <-] & (x & q & Hx & Hq & Hid)%elem_of_friend_ids).
        assert (x = b) as <-; [|done]. by eapply Hu.
      - intros Hin. exists (_id f). split; [done|].
        apply elem_of_friend_ids. by exists b, f. }
    destruct (decide (b ∈ _friends s)) as [Hin|Hin].
    { rewrite decide_True in Hfadd by (by apply Hmem).
      injection Hadd as <-. injection Hfadd as <-. done. }
    rewrite decide_False in Hfadd by (by rewrite Hmem).
    rewrite decide_False in Hadd.
    2: { intros Hf. apply Hin.
         assert (Hba : is_friend h b a) by (by exists f).
         apply Hsym in Hba as (s' & ? & ?). by simplify_eq. }
    injection Hadd as <-. injection Hfadd as <-.
    set (h1 := <[a:=friends_append s b]> h).
    assert (Hids : ∀ x, _id <$> <[b:=friends_append f a]> h1 !! x
                        = _id <$> h !! x).
    { intros x. unfold h1. destruct (decide (x = b)) as [->|Hxb].
      - rewrite list_lookup_insert_eq by (by rewrite length_insert).
        by rewrite Hb0.
      - rewrite list_lookup_insert_ne by done.
        destruct (decide (x = a)) as [->|Hxa].
        + rewrite list_lookup_insert_eq by done. by rewrite Ha.
        + by rewrite list_lookup_insert_ne by done. }
    assert (Hext : ∀ p0, friend_ids (<[b:=friends_append f a]> h1) p0
                         = friend_ids h p0).
    { intros p0. apply friend_ids_ext. intros x _. apply Hids. }
    assert (Hpla : a < length ph) by (by eapply lookup_lt_Some).
    assert (Hplb : b < length ph) by (by eapply lookup_lt_Some).
    intros x. destruct (decide (x = b)) as [->|Hxb].
    + rewrite (list_lookup_insert_eq (<[a:=_]> ph))
        by (by rewrite length_insert).
      rewrite (list_lookup_insert_eq h1) by (unfold h1; by rewrite length_insert).
      cbn [fmap option_fmap option_map]. f_equal. symmetry.
      by apply as_data_append.
    + rewrite (list_lookup_insert_ne (<[a:=_]> ph)) by done.
      rewrite (list_lookup_insert_ne h1) by done.
      destruct (decide (x = a)) as [->|Hxa].
      * unfold h1. rewrite (list_lookup_insert_eq ph) by done.
        rewrite (list_lookup_insert_eq h) by done.
        cbn [fmap option_fmap option_map]. f_equal. symmetry.
        by apply as_data_append.
      * unfold h1. rewrite (list_lookup_insert_ne ph) by done.
        rewrite (list_lookup_insert_ne h) by done. rewrite Hm.
        destruct (h !! x) as [p0|]; [|done].
        cbn [fmap option_fmap option_map]. f_equal.
        unfold as_data. by rewrite Hext.
Qed.
End lockstep_facts.

(** X17: the three serializers write the same records.  Let a program
    create the same persons and call [add_friend] on the same pairs of
    distinct persons in the object-oriented and in the functional style.
    Then, from every root, the two object-oriented serializers and
    [serialize_functional] return the same list of records in the same
    order; the functional container adds the id of the root. *)
Theorem variants_write_same_records `{DateTimeText} (h : heap)
    (ph : Functional.pheap) d root :
  lockstep h ph d → root < length h →
  ∃ objs p,
    h !! root = Some p ∧
    ∀ fuel, length h < fuel →
      Encapsulated.serialize fuel h root = Done objs ∧
      DirectAccess.serialize fuel h root = Done objs ∧
      Functional.serialize_functional fuel ph root d
      = Done (mkContainer (_id p) objs).
Proof.
  intros (Hb & Hfb & Hld & Hm)%lockstep_mirror Hroot.
  destruct (built_invariants _ Hb) as (Hcl & Hu & _).
  destruct (fbuilt_invariants _ _ Hfb) as (Hreg & Hfiled).
  destruct (serialize_preorder h root Hcl Hu Hroot)
    as (order & objs & Hpre & Hflat & Hrun).
  destruct (lookup_lt_is_Some_2 h root Hroot) as [p Hp].
  assert (Hdata : ∀ a q, h !! a = Some q →
            ph !! a = Some (as_data h q) ∧
            person_of ph d (_id q) = Some (as_data h q)).
  { intros a q Hq. assert (Hpa : ph !! a = Some (as_data h q))
      by (by rewrite Hm, Hq).
    split; [done|]. unfold person_of.
    pose proof (Hfiled a _ Hpa) as Hf. cbn in Hf. by rewrite Hf. }
  destruct (Hdata root p Hp) as [Hproot _].
  destruct (serialize_functional_preorder ph d root _ Hreg Hproot)
    as (order_f & objs_f & Hpre_f & Hflat_f & Hrun_f).
  { by rewrite (Hfiled root _ Hproot). }
  cbn [as_data Functional.pd_id] in Hpre_f, Hrun_f.
  pose (g := λ a, default "" (_id <$> h !! a)).
  assert (Hg : ∀ a q, h !! a = Some q → g a = _id q).
  { intros a q Hq. unfold g. by rewrite Hq. }
  assert (Hmap : preorder (friend_ids_of ph d) (set_map g (∅ : gset nat))
                   (g <$> [root]) (g <$> order)).
  { apply (preorder_map (friends_of h) (friend_ids_of ph d) g (live h));
      [| |done|set_solver|].
    - intros a b [q Ha]%elem_of_live%lookup_lt_is_Some
        [q' Hb']%elem_of_live%lookup_lt_is_Some.
      rewrite (Hg a q Ha), (Hg b q' Hb'). by eapply Hu.
    - intros a fs [q Ha]%elem_of_live%lookup_lt_is_Some Hfs.
      unfold friends_of in Hfs. rewrite Ha in Hfs. injection Hfs as <-.
      assert (Hlive : ∀ x, x ∈ _friends q → x < length h)
        by (intros x Hx; by eapply Hcl).
      split; [|intros x Hx; by apply elem_of_live, Hlive].
      rewrite (Hg a q Ha). unfold friend_ids_of.
      destruct (Hdata a q Ha) as [_ ->]. cbn.
      rewrite mapM_as_id. f_equal. by apply friend_ids_total.
    - intros x ->%list_elem_of_singleton. by apply elem_of_live. }
  rewrite set_map_empty in Hmap. cbn in Hmap. rewrite (Hg root p Hp) in Hmap.
  assert (order_f = g <$> order) as -> by (by eapply preorder_det).
  assert (objs_f = objs) as ->.
  { eapply Forall2_Some_det; [exact Hflat_f|].
    apply Forall2_fmap_l. eapply Forall2_impl; [exact Hflat|].
    intros a r Hr. cbn in Hr.
    destruct (flat_of_Some _ _ _ Hr) as (q & Hq & ->).
    unfold compose. rewrite (Hg a q Hq). unfold pflat_of.
    destruct (Hdata a q Hq) as [_ ->]. cbn. by rewrite mapM_as_id. }
  exists objs, p. split; [done|]. intros fuel Hfuel.
  destruct (Hrun fuel Hfuel) as [-> ->]. split_and!; [done..|].
  apply Hrun_f. lia.
Qed.

(** The triangle of the test suite, built in the two styles. *)
Lemma triangle_lockstep : lockstep triangle triangle_data all_persons.
Proof.
  pose (ivan := @Functional.mkData test_dates "id-ivan" "Ivan" born_1990_05_15).
  pose (maria :=
    @Functional.mkData test_dates "id-maria" "Maria" born_1992_08_22).
  pose (alexey :=
    @Functional.mkData test_dates "id-alexey" "Alexey" born_1988_03_10).
  apply (lockstep_add_friend
           [@mkPerson test_dates "Ivan" [1] born_1990_05_15 "id-ivan";
            @mkPerson test_dates "Maria" [0; 2] born_1992_08_22 "id-maria";
            @mkPerson test_dates "Alexey" [1] born_1988_03_10 "id-alexey"]
           [ivan [PyStr "id-maria"];
            maria [PyStr "id-ivan"; PyStr "id-alexey"];
            alexey [PyStr "id-maria"]] all_persons 2 0);
    [|done|reflexivity..].
  apply (lockstep_add_friend
           [@mkPerson test_dates "Ivan" [1] born_1990_05_15 "id-ivan";
            @mkPerson test_dates "Maria" [0] born_1992_08_22 "id-maria";
            @mkPerson test_dates "Alexey" [] born_1988_03_10 "id-alexey"]
           [ivan [PyStr "id-maria"]; maria [PyStr "id-ivan"]; alexey []]
           all_persons 1 2); [|done|reflexivity..].
  apply (lockstep_add_friend three_persons [ivan []; maria []; alexey []]
           all_persons 0 1); [|done|reflexivity..].
  apply (lockstep_create (H:=test_dates)
           [@mkPerson test_dates "Ivan" [] born_1990_05_15 "id-ivan";
            @mkPerson test_dates "Maria" [] born_1992_08_22 "id-maria"]
           [ivan []; maria []] [("id-ivan", 0); ("id-maria", 1)]
           "Alexey" born_1988_03_10 "id-alexey").
  2: { intros p Hp. set_unfold. naive_solver. }
  apply (lockstep_create (H:=test_dates)
           [@mkPerson test_dates "Ivan" [] born_1990_05_15 "id-ivan"]
           [ivan []] [("id-ivan", 0)] "Maria" born_1992_08_22 "id-maria").
  2: { intros p Hp. set_unfold. naive_solver. }
  apply (lockstep_create (H:=test_dates) [] [] []
           "Ivan" born_1990_05_15 "id-ivan").
  2: { intros p Hp. set_unfold. naive_solver. }
  apply lockstep_empty.
Qed.

Lemma variants_write_same_records_witness :
  ∃ objs,
    Encapsulated.serialize 4 triangle 0 = Done objs ∧
    Functional.serialize_functional 4 triangle_data 0 all_persons
    = Done (mkContainer "id-ivan" objs).
Proof.
  destruct (variants_write_same_records (H:=test_dates) triangle
              triangle_data all_persons 0 triangle_lockstep)
    as (objs & p & Hp & Hrun); [cbn; lia|].
  injection Hp as <-. destruct (Hrun 4) as (Henc & _ & Hfun); [cbn; lia|].
  by exists objs.
Defined.

(** ** [serialize_functional] on an incomplete mapping *)

Section functional_errors.
Context `{DateTimeText}.
Import Functional.
Variable h : pheap.
Variable d : pydict addr.
Variable i0 : string.
Hypothesis Hids : ∀ i r, pydict_get d i = Some r →
  ∃ q js, h !! r = Some q ∧ pd_friends q = PyStr <$> js.

Lemma comprehension_PyStr (js : list string) :
  comprehension
    (λ v, match v with PyStr s => Done s | PyRef _ => Raise TypeError end)
    (PyStr <$> js) = Done js.
Proof. induction js as [|j js IH]; [done|]. cbn. by rewrite IH. Qed.

Lemma dump_objects_ids (out : list ObjCopy) :
  Forall (λ c, ∃ js, oc_friends c = PyStr <$> js) out →
  ∃ objs, comprehension dump_object out = Done objs.
Proof.
  induction 1 as [|c out [js Hjs] _ [objs IH]]; [by exists []|].
  assert (dump_object c
          = Done (mkFlat (oc_id c) (oc_name c) (oc_born_in c) js)) as Hc.
  { unfold dump_object. by rewrite Hjs, comprehension_PyStr. }
  eexists. by rewrite comprehension_cons, Hc, IH.
Qed.

Lemma registered_measure (vis : gset string) i r :
  pydict_get d i = Some r → i ∉ vis →
  size (registered d ∖ ({[i]} ∪ vis)) < size (registered d ∖ vis).
Proof.
  intros Hr Hi. apply subset_size.
  assert (i ∈ registered d) by (apply elem_of_registered; eauto).
  set_solver.
Qed.

(** With more fuel than there are unvisited keys, the closure returns or
    stops at an id that is no key of the mapping: the id it was started
    with, or an id in the 'friends' entry of a person of the mapping. *)
Lemma collect_objects_outcome fuel :
  ∀ i vis out,
    size (registered d ∖ vis) < fuel →
    (i = i0 ∨ ∃ i' r q, pydict_get d i' = Some r ∧ h !! r = Some q ∧
                        PyStr i ∈ pd_friends q) →
    Forall (λ c, ∃ js, oc_friends c = PyStr <$> js) out →
    (∃ vis' out',
       collect_objects fuel h d (PyStr i) (vis, out) = Done (vis', out') ∧
       vis ⊆ vis' ∧
       Forall (λ c, ∃ js, oc_friends c = PyStr <$> js) out') ∨
    (∃ k, collect_objects fuel h d (PyStr i) (vis, out) = Raise (KeyError k) ∧
          pydict_get d k = None ∧
          (k = i0 ∨ ∃ i' r q, pydict_get d i' = Some r ∧ h !! r = Some q ∧
                              PyStr k ∈ pd_friends q)).
Proof.
  induction fuel as [|fuel IH]; intros i vis out Hsize Hi Hout; [lia|].
  cbn [collect_objects fst snd].
  destruct (decide (i ∈ vis)) as [Hin|Hin].
  { left. by exists vis, out. }
  destruct (pydict_get d i) as [r|] eqn:Hr.
  2: { right. exists i. by rewrite (pydict_getitem_None _ _ Hr). }
  rewrite (pydict_getitem_Some _ _ _ Hr), bind_Done.
  destruct (Hids i r Hr) as (q & js & Hq & Hjs).
  rewrite (pderef_Some _ _ _ Hq), bind_Done.
  pose proof (registered_measure vis i r Hr Hin) as Hlt.
  assert (Hlisted : ∀ j, j ∈ js →
            ∃ i' r q, pydict_get d i' = Some r ∧ h !! r = Some q ∧
                      PyStr j ∈ pd_friends q).
  { intros j Hj. exists i, r, q. split_and!; [done..|].
    rewrite Hjs. by apply list_elem_of_fmap_2. }
  rewrite Hjs.
  assert (Hstart : Forall (λ c, ∃ js, oc_friends c = PyStr <$> js)
            (out ++ [mkCopy (pd_id q) (pd_name q) (isoformat (pd_born_in q))
                       (PyStr <$> js)])).
  { apply Forall_app. split; [done|]. constructor; [|done]. by exists js. }
  assert (Hsz : size (registered d ∖ ({[i]} ∪ vis)) < fuel) by lia.
  assert (Hsub : vis ⊆ {[i]} ∪ vis) by set_solver.
  revert Hlisted Hstart Hsz Hsub.
  generalize ({[i]} ∪ vis).
  generalize (out ++ [mkCopy (pd_id q) (pd_name q)
                        (isoformat (pd_born_in q)) (PyStr <$> js)]).
  clear Hjs Hlt Hout. induction js as [|j js IHjs];
    intros out1 vis1 Hlisted Hout1 Hsz Hsub.
  { left. by exists vis1, out1. }
  rewrite fmap_cons, for_each_cons.
  destruct (IH j vis1 out1 Hsz) as
    [(vis2 & out2 & -> & Hsub2 & Hout2)|(k & -> & Hk)];
    [right; apply Hlisted; set_solver|done| |by right; exists k].
  rewrite bind_Done. apply IHjs; [|done| |set_solver].
  - intros j' Hj'. apply Hlisted. set_solver.
  - assert (size (registered d ∖ vis2) ≤ size (registered d ∖ vis1))
      by (apply subseteq_size; set_solver).
    lia.
Qed.
End functional_errors.

(** X18: [serialize_functional] and the mapping it is given.  The
    function reads every person through [persons_dict].  When the 'friends'
    entries of the persons of the mapping hold ids, the only way it can
    fail is [KeyError] for an id that is no key of the mapping: the id of
    the root, or an id listed by a person of the mapping; and with a budget
    above the number of keys it returns or fails so.  A root that was not
    registered fails at once, with its own id. *)
Theorem serialize_functional_errors `{DateTimeText} (h : Functional.pheap)
    d root p :
  h !! root = Some p →
  (∀ i r, pydict_get d i = Some r →
     ∃ q js, h !! r = Some q ∧ Functional.pd_friends q = PyStr <$> js) →
  (pydict_get d (Functional.pd_id p) = None →
   ∀ fuel, 1 ≤ fuel →
     Functional.serialize_functional fuel h root d
     = Raise (KeyError (Functional.pd_id p))) ∧
  ∀ fuel, length d < fuel →
    (∃ c, Functional.serialize_functional fuel h root d = Done c) ∨
    (∃ k, Functional.serialize_functional fuel h root d
          = Raise (KeyError k) ∧
          pydict_get d k = None ∧
          (k = Functional.pd_id p ∨
           ∃ i r q, pydict_get d i = Some r ∧ h !! r = Some q ∧
                    PyStr k ∈ Functional.pd_friends q)).
Proof.
  intros Hp Hids. split.
  - intros Hnone fuel Hfuel. destruct fuel as [|fuel]; [lia|].
    unfold Functional.serialize_functional.
    rewrite (pderef_Some _ _ _ Hp), bind_Done.
    cbn [Functional.collect_objects fst snd].
    rewrite decide_False by set_solver.
    by rewrite (pydict_getitem_None _ _ Hnone).
  - intros fuel Hfuel. unfold Functional.serialize_functional.
    rewrite (pderef_Some _ _ _ Hp), bind_Done.
    destruct (collect_objects_outcome h d (Functional.pd_id p) Hids fuel
                (Functional.pd_id p) ∅ [])
      as [(vis' & out' & -> & _ & Hout')|(k & -> & Hk)];
      [|by left|constructor| |by right; exists k].
    + pose proof (size_registered d).
      assert (size (registered d ∖ ∅) ≤ size (registered d))
        by (apply subseteq_size; set_solver).
      lia.
    + rewrite bind_Done. cbn [fst snd].
      destruct (dump_objects_ids _ Hout') as [objs ->].
      left. by eexists.
Qed.

(** The triangle with Alexey left out of the mapping: Ivan lists him, the
    lookup of his id fails. *)
Lemma serialize_functional_errors_witness :
  Functional.serialize_functional 4 triangle_data 0
    [("id-ivan", 0); ("id-maria", 1)]
  = Raise (KeyError "id-alexey") ∧
  Functional.serialize_functional 4 triangle_data 0 [("id-maria", 1)]
  = Raise (KeyError "id-ivan").
Proof.
  destruct (serialize_functional_errors (H:=test_dates) triangle_data
              [("id-maria", 1)] 0 _ eq_refl) as [Hroot _].
  { intros i r Hr. cbn in Hr. case_decide; [|done]. injection Hr as <-.
    by exists (@Functional.mkData test_dates "id-maria" "Maria"
                 born_1992_08_22 [PyStr "id-ivan"; PyStr "id-alexey"]),
              ["id-ivan"; "id-alexey"]. }
  split; [reflexivity|]. apply Hroot; [reflexivity|lia].
Defined.
